(** * plexsubs: the subtitle acquisition pipeline

    A shallow embedding of the core of [plexsubs]:
    - [plexsubs/utils/retry.py]            (module [Retry]),
    - [plexsubs/core/release_matcher.py]   (module [ReleaseMatcher]),
    - [plexsubs/providers/base.py] and the result construction of
      [plexsubs/providers/opensubtitles.py] (module [Providers]),
    - [plexsubs/core/subtitle_manager.py]  (module [SubtitleManager]),
    - [plexsubs/plex/webhook.py]           (module [Webhook]).

    Conventions.  Python [str] is [string] (bytes; [upper]/[lower] act on
    the ASCII letters), [int] is [Z], a [float] is the exact rational it
    denotes ([Q]), [Optional[T]] is [option T], a raised exception is the
    [Raise] case of [outcome].  Logging is left out, except for the one
    warning the activation protocol emits.  The network, the language
    detector and file removal are oracles over an abstract external state;
    every call that leaves the process is recorded, in order, in a trace. *)

From Stdlib Require Import String Ascii List ZArith QArith Lia.
From Stdlib Require Import Sorting.Sorted Sorting.Permutation.
From stdpp Require Import gmap strings list pretty.

Open Scope string_scope.
Open Scope Z_scope.

(* ===================================================================== *)
(** * Python strings *)
(* ===================================================================== *)

Module PyStr.

(** [c.upper()] on one ASCII character. *)
Definition upper_ascii (c : ascii) : ascii :=
  let n := nat_of_ascii c in
  if ((97 <=? n) && (n <=? 122))%nat then ascii_of_nat (n - 32) else c.

(** [c.lower()] on one ASCII character. *)
Definition lower_ascii (c : ascii) : ascii :=
  let n := nat_of_ascii c in
  if ((65 <=? n) && (n <=? 90))%nat then ascii_of_nat (n + 32) else c.

Fixpoint upper (s : string) : string :=
  match s with
  | EmptyString => EmptyString
  | String c s' => String (upper_ascii c) (upper s')
  end.

Fixpoint lower (s : string) : string :=
  match s with
  | EmptyString => EmptyString
  | String c s' => String (lower_ascii c) (lower s')
  end.

(** [needle in hay]: some suffix of [hay] starts with [needle]. *)
Fixpoint contains (needle hay : string) : bool :=
  String.prefix needle hay ||
  match hay with
  | EmptyString => false
  | String _ hay' => contains needle hay'
  end.

(** The substring relation the [in] operator decides. *)
Definition substring_of (needle hay : string) : Prop :=
  exists pre post, hay = pre +:+ needle +:+ post.

(** Truthiness of a string: empty is falsy. *)
Definition truthy (s : string) : bool :=
  match s with EmptyString => false | _ => true end.

(** Truthiness of an [Optional[str]]. *)
Definition truthy_opt (o : option string) : bool :=
  match o with Some s => truthy s | None => false end.

Definition startswith (p s : string) : bool := String.prefix p s.

Fixpoint endswith_slash (s : string) : bool :=
  match s with
  | EmptyString => false
  | String c EmptyString => Ascii.eqb c "/"
  | String _ s' => endswith_slash s'
  end.

End PyStr.

(* ===================================================================== *)
(** * plexsubs/core/release_matcher.py *)
(* ===================================================================== *)

Module ReleaseMatcher.
Import PyStr.

(** The [source] field of a guess is a string or a list of strings. *)
Inductive guess_source :=
| SourceOne (s : string)
| SourceMany (l : list string).

(** What [guessit(filename)] reports of the four fields the extractor
    reads; an absent key is [None]. *)
Record guess := {
  release_group : option string;
  screen_size : option string;
  source : option guess_source;
  video_codec : option string
}.

(** [result.get(k)] is truthy. *)
Definition present (o : option string) : list string :=
  match o with
  | Some s => if truthy s then [upper s] else []
  | None => []
  end.

Definition present_source (o : option guess_source) : list string :=
  match o with
  | Some (SourceOne s) => if truthy s then [upper s] else []
  | Some (SourceMany l) =>
      match l with [] => [] | _ => List.map upper l end
  | None => []
  end.

(** The loop that removes duplicates and keeps the first occurrence;
    [seen] is the set of items already emitted. *)
Fixpoint unique_from (seen : gset string) (l : list string) : list string :=
  match l with
  | [] => []
  | item :: l' =>
      if decide (item ∈ seen) then unique_from seen l'
      else item :: unique_from ({[item]} ∪ seen) l'
  end.

(** [extract_release_info]; [guessit] is the collaborator, [None] when it
    raises. *)
Definition extract_release_info (guessit : string -> option guess)
    (filename : string) : list string :=
  match guessit filename with
  | Some result =>
      let release_info :=
        (present (release_group result) ++ present (screen_size result)
         ++ present_source (source result)
         ++ present (video_codec result))%list in
      unique_from ∅ release_info
  | None => []
  end.

(** A fingerprint token is in upper case. *)
Definition is_upper (t : string) : Prop := upper t = t.

(** The counting loop of [calculate_match_score]. *)
Definition count_matches (combined : string) (groups : list string) : nat :=
  fold_left (fun matches group =>
               if contains (upper group) combined then S matches else matches)
            groups 0%nat.

(** [calculate_match_score]: the score [matches / len(groups)] is the
    rational with that numerator and denominator. *)
Definition calculate_match_score (subtitle_release subtitle_filename : string)
    (media_release_groups : list string) : Q * bool :=
  match media_release_groups with
  | [] => (0%Q, false)
  | _ :: _ =>
      let combined := upper (subtitle_release +:+ " " +:+ subtitle_filename) in
      let matches := count_matches combined media_release_groups in
      let n := length media_release_groups in
      let score := (Z.of_nat matches # Pos.of_nat n)%Q in
      let is_perfect := (matches =? n)%nat && (0 <? matches)%nat in
      (score, is_perfect)
  end.

End ReleaseMatcher.

(* ===================================================================== *)
(** * Exceptions: builtins and plexsubs/utils/exceptions.py *)
(* ===================================================================== *)

Module Exceptions.

Inductive exn_class :=
| Exception
| RuntimeError
| ValueError
| TypeError
| OSError
| RequestException
| HTTPError
| PlexSubtitleError
| ConfigurationError
| PlexAPIError
| ProviderError
| OpenSubtitlesError.

#[global] Instance exn_class_eq_dec : EqDecision exn_class.
Proof. solve_decision. Defined.

(** The classes a class derives from, itself first. *)
Definition mro (c : exn_class) : list exn_class :=
  match c with
  | Exception => [Exception]
  | RuntimeError => [RuntimeError; Exception]
  | ValueError => [ValueError; Exception]
  | TypeError => [TypeError; Exception]
  | OSError => [OSError; Exception]
  | RequestException => [RequestException; OSError; Exception]
  | HTTPError => [HTTPError; RequestException; OSError; Exception]
  | PlexSubtitleError => [PlexSubtitleError; Exception]
  | ConfigurationError => [ConfigurationError; PlexSubtitleError; Exception]
  | PlexAPIError => [PlexAPIError; PlexSubtitleError; Exception]
  | ProviderError => [ProviderError; PlexSubtitleError; Exception]
  | OpenSubtitlesError =>
      [OpenSubtitlesError; ProviderError; PlexSubtitleError; Exception]
  end.

Definition issubclass (c d : exn_class) : bool := bool_decide (d ∈ mro c).

Record exn := { exn_cls : exn_class; exn_msg : string }.

(** [except classes as e] catches [e]. *)
Definition isinstance (e : exn) (classes : list exn_class) : bool :=
  existsb (issubclass (exn_cls e)) classes.

(** The value of a call: it returns or it raises. *)
Inductive outcome (A : Type) :=
| Ret (a : A)
| Raise (e : exn).
Arguments Ret {A} a.
Arguments Raise {A} e.

End Exceptions.

(* ===================================================================== *)
(** * Effects: state passing with exceptions *)
(* ===================================================================== *)

Module Eff.
Export Exceptions.

Definition M (St A : Type) : Type := St -> St * outcome A.

Definition ret {St A} (a : A) : M St A := fun s => (s, Ret a).

Definition raise {St A} (e : exn) : M St A := fun s => (s, Raise e).

Definition bind {St A B} (m : M St A) (k : A -> M St B) : M St B :=
  fun s =>
    match m s with
    | (s1, Ret a) => k a s1
    | (s1, Raise e) => (s1, Raise e)
    end.

(** [try: m  except Exception as e: handler e]. *)
Definition try_except {St A} (m : M St A) (handler : exn -> M St A) : M St A :=
  fun s =>
    match m s with
    | (s1, Ret a) => (s1, Ret a)
    | (s1, Raise e) => handler e s1
    end.

(** A statement that touches the state and returns nothing. *)
Definition modify {St} (f : St -> St) : M St unit := fun s => (f s, Ret tt).

Definition gets {St A} (f : St -> A) : M St A := fun s => (s, Ret (f s)).

End Eff.

Declare Scope eff_scope.
Delimit Scope eff_scope with eff.
Notation "'let*' x ':=' m 'in' k" := (Eff.bind m (fun x => k))
  (at level 20, x pattern, m at level 100, k at level 200) : eff_scope.

(* ===================================================================== *)
(** * plexsubs/utils/retry.py *)
(* ===================================================================== *)

Module Retry.
Export Eff.

Definition DEFAULT_MAX_RETRIES : Z := 3.
Definition DEFAULT_BASE_RETRY_DELAY : Q := 1.

Definition loop_exited : exn :=
  {| exn_cls := RuntimeError; exn_msg := "Retry loop exited unexpectedly" |}.

Section RetryWithBackoff.
Context {St A : Type}.
(** [time.sleep] (or [asyncio.sleep], which the caller awaits). *)
Variable sleep : Q -> St -> St.
Variable max_retries : Z.
Variable base_delay : Q.
Variable exceptions : list exn_class.
Variable on_retry : option (Z -> Q -> exn -> St -> St).
Variable func : M St A.

(** [base_delay * (2**attempt)]. *)
Definition backoff_delay (attempt : Z) : Q := (base_delay * 2 ^ attempt)%Q.

(** What the [except] branch does before the next iteration. *)
Definition before_retry (attempt : Z) (e : exn) (s : St) : St :=
  let delay := backoff_delay attempt in
  let s1 := match on_retry with
            | Some callback => callback attempt delay e s
            | None => s
            end in
  sleep delay s1.

(** [for attempt in range(max_retries)], from [attempt] on, with
    [remaining] iterations left; falling out of the loop raises. *)
Fixpoint attempts (remaining : nat) (attempt : Z) (s : St) : St * outcome A :=
  match remaining with
  | O => (s, Raise loop_exited)
  | S remaining' =>
      match func s with
      | (s1, Ret a) => (s1, Ret a)
      | (s1, Raise e) =>
          if isinstance e exceptions then
            if attempt <? max_retries - 1
            then attempts remaining' (attempt + 1) (before_retry attempt e s1)
            else (s1, Raise e)
          else (s1, Raise e)
      end
  end.

(** [sync_wrapper]; [async_wrapper] has the same body with awaits. *)
Definition sync_wrapper : M St A := attempts (Z.to_nat max_retries) 0.

(** [retry_with_backoff(...)(func)]: building the decorator and applying
    it evaluate no check on the arguments and return the wrapper. *)
Definition retry_with_backoff : outcome (M St A) := Ret sync_wrapper.

(** [retried attempt s k s']: from state [s], the attempts numbered
    [attempt], ..., [attempt + k - 1] each fail with an error of the
    retryable classes and are followed by the callback, if there is one,
    and by a wait of [base_delay * 2^i] after attempt [i]; [s'] is the
    state in which attempt [attempt + k] starts. *)
Inductive retried : Z -> St -> nat -> St -> Prop :=
| retried_none attempt s : retried attempt s 0 s
| retried_more attempt s s1 e k s' :
    func s = (s1, Raise e) ->
    isinstance e exceptions = true ->
    retried (attempt + 1)
            (sleep (base_delay * 2 ^ attempt)%Q
               (match on_retry with
                | Some callback =>
                    callback attempt (base_delay * 2 ^ attempt)%Q e s1
                | None => s1
                end))
            k s' ->
    retried attempt s (S k) s'.

End RetryWithBackoff.

(** Setting a policy up is refused when it ends in an error. *)
Definition rejected_at_setup {X : Type} (o : outcome X) : Prop :=
  exists e, o = Raise e.

End Retry.

(* ===================================================================== *)
(** * os.path (POSIX) as the manager uses it *)
(* ===================================================================== *)

Module OsPath.
Import PyStr.

Fixpoint rfind_from (c : ascii) (l : list ascii) (i last : Z) : Z :=
  match l with
  | [] => last
  | x :: l' => rfind_from c l' (i + 1) (if Ascii.eqb x c then i else last)
  end.

(** [s.rfind(c)], [-1] when [c] does not occur. *)
Definition rfind (c : ascii) (s : string) : Z :=
  rfind_from c (list_ascii_of_string s) 0 (-1).

(** [s[i:j]] for [0 <= i]. *)
Definition slice (s : string) (i j : Z) : string :=
  string_of_list_ascii
    (take (Z.to_nat (j - i)) (drop (Z.to_nat i) (list_ascii_of_string s))).

Definition slice_from (s : string) (i : Z) : string :=
  string_of_list_ascii (drop (Z.to_nat i) (list_ascii_of_string s)).

Definition all_char (c : ascii) (s : string) : bool :=
  forallb (Ascii.eqb c) (list_ascii_of_string s).

Fixpoint drop_slashes (l : list ascii) : list ascii :=
  match l with
  | x :: l' => if Ascii.eqb x "/" then drop_slashes l' else l
  | [] => []
  end.

(** [s.rstrip('/')]. *)
Definition rstrip_slash (s : string) : string :=
  string_of_list_ascii (rev (drop_slashes (rev (list_ascii_of_string s)))).

(** [os.path.split]. *)
Definition split (p : string) : string * string :=
  let i := rfind "/" p + 1 in
  let head := slice p 0 i in
  let tail := slice_from p i in
  let head' :=
    if truthy head && negb (all_char "/" head) then rstrip_slash head else head in
  (head', tail).

Definition dirname (p : string) : string := fst (split p).
Definition basename (p : string) : string := snd (split p).

(** [os.path.splitext]: the extension starts at the last dot after the
    last separator, unless only dots precede it in the file name. *)
Definition splitext (p : string) : string * string :=
  let sepIndex := rfind "/" p in
  let dotIndex := rfind "." p in
  if (sepIndex <? dotIndex)
     && negb (all_char "." (slice p (sepIndex + 1) dotIndex))
  then (slice p 0 dotIndex, slice_from p dotIndex)
  else (p, "").

(** [os.path.join(a, b)]. *)
Definition join (a b : string) : string :=
  if startswith "/" b then b
  else if negb (truthy a) || endswith_slash a then a +:+ b
  else a +:+ "/" +:+ b.

End OsPath.

(* ===================================================================== *)
(** * plexsubs/providers/base.py and providers/opensubtitles.py *)
(* ===================================================================== *)

Module Providers.
Export Eff.
Import PyStr.

(** The dataclass [SubtitleResult].  [download_params] is the dict
    [{"file_id": v}], kept as its one value. *)
Record SubtitleResult := {
  sub_id : string;
  language : string;
  release : string;
  filename : string;
  download_url : option string;
  download_params : option (option Z);
  is_perfect_match : bool;
  provider : string;
  score : Q;
  download_count : Z
}.

(** The generated [__eq__]: the tuples of fields are equal; two floats
    are equal when they denote the same number. *)
Definition SubtitleResult_eqb (a b : SubtitleResult) : bool :=
  bool_decide (sub_id a = sub_id b)
  && bool_decide (language a = language b)
  && bool_decide (release a = release b)
  && bool_decide (filename a = filename b)
  && bool_decide (download_url a = download_url b)
  && bool_decide (download_params a = download_params b)
  && Bool.eqb (is_perfect_match a) (is_perfect_match b)
  && bool_decide (provider a = provider b)
  && Qeq_bool (score a) (score b)
  && (download_count a =? download_count b).

(** The interface [BaseProvider] over an external state [E] (the remote
    service).  [download] answers [True] only once the file is saved at
    the output path; saving is done by the caller of this record. *)
Record BaseProvider (E : Type) := {
  name : string;
  search :
    string -> option Z -> option string -> string ->
    option (list string) -> option string ->
    M E (list SubtitleResult * option string);
  download : SubtitleResult -> string -> option string -> M E bool
}.
Arguments name {E} _.
Arguments search {E} _.
Arguments download {E} _.

(** ** The result construction of [OpenSubtitlesProvider.search] *)

(** One entry of [files]. *)
Record api_file := {
  file_id : option Z;
  file_name : option string
}.

(** The [attributes] of one entry of the API answer; an absent key is
    [None]. *)
Record api_subtitle := {
  attr_language : option string;
  attr_release : option string;
  attr_files : option (list api_file);
  attr_download_count : option Z
}.

(** [str(v)] of a file id. *)
Definition str_of_file_id (v : option Z) : string :=
  match v with
  | Some z => pretty z
  | None => "None"
  end.

(** The body of the loop over the answer: [None] is [continue]. *)
Definition result_of_api (provider_name language : string)
    (allowed_langs : list string) (sub : api_subtitle) : option SubtitleResult :=
  let sub_lang := lower (default "" (attr_language sub)) in
  if negb (bool_decide (sub_lang ∈ allowed_langs)) then None
  else
    match default [] (attr_files sub) with
    | [] => None
    | file_info :: _ =>
        Some {| sub_id := str_of_file_id (file_id file_info);
                language := language;
                release := default "" (attr_release sub);
                filename := default "" (file_name file_info);
                download_url := None;
                download_params := Some (file_id file_info);
                is_perfect_match := false;
                provider := provider_name;
                score := 0;
                download_count := default 0 (attr_download_count sub) |}
    end.

(** [OpenSubtitlesProvider.search] from the point where the request has
    been answered: [answer] is what [_make_request] gave ([data["data"]],
    or the error it raised), [token] is [self.token].  The release groups
    and the file name are accepted and not read. *)
Definition opensubtitles_search (enabled : bool) (provider_name : string)
    (token : option string) (get_allowed_languages : string -> list string)
    (answer : outcome (list api_subtitle))
    (language : string) (release_groups : option (list string))
    (filename : option string)
  : outcome (list SubtitleResult * option string) :=
  if negb enabled then Ret ([], None)
  else
    match answer with
    | Raise e =>
        Raise {| exn_cls := OpenSubtitlesError;
                 exn_msg := "Search failed: " +:+ exn_msg e |}
    | Ret [] => Ret ([], token)
    | Ret subtitles =>
        let allowed_langs := get_allowed_languages language in
        Ret (omap (result_of_api provider_name language allowed_langs) subtitles,
             token)
    end.

End Providers.

(* ===================================================================== *)
(** * The world the manager and the webhook act on *)
(* ===================================================================== *)

Module World.
Export Providers.

(** A call that leaves the process, or a pause. *)
Inductive event :=
| EvSearch (provider_name language : string)
| EvDownload (provider_name subtitle_id output_path : string)
| EvVerify (path language : string)
| EvRemove (path : string)
| EvSleep (delay : Q)
| EvRefresh (rating_key : string)
| EvSetSession (rating_key language_code : string)
| EvSetDefault (rating_key language_code : string)
| EvWarning (message : string).

(** [ext] is the state of everything outside the process, [files] the
    paths that exist, [trace] the events so far, oldest first. *)
Record world (E : Type) := {
  ext : E;
  files : gset string;
  trace : list event
}.
Arguments ext {E} _.
Arguments files {E} _.
Arguments trace {E} _.

Section Actions.
Context {E : Type}.

Definition emit (ev : event) (w : world E) : world E :=
  {| ext := ext w; files := files w; trace := trace w ++ [ev] |}.

Definition with_ext (e : E) (w : world E) : world E :=
  {| ext := e; files := files w; trace := trace w |}.

Definition with_files (f : gset string) (w : world E) : world E :=
  {| ext := ext w; files := f; trace := trace w |}.

(** [time.sleep(delay)]. *)
Definition sleep (delay : Q) (w : world E) : world E := emit (EvSleep delay) w.

(** Run a call of a collaborator on the external state. *)
Definition external {A} (m : M E A) : M (world E) A :=
  fun w => let '(e, r) := m (ext w) in (with_ext e w, r).

(** [os.path.exists(path)]. *)
Definition exists_ (path : string) : M (world E) bool :=
  gets (fun w => bool_decide (path ∈ files w)).

(** [provider.search(...)]. *)
Definition provider_search (p : BaseProvider E) (title : string)
    (year : option Z) (imdb_id : option string) (lang : string)
    (release_groups : option (list string)) (fname : option string)
  : M (world E) (list SubtitleResult * option string) :=
  (let* _ := modify (emit (EvSearch (name p) lang)) in
   external (search p title year imdb_id lang release_groups fname))%eff.

(** [provider.download(subtitle, output_path, token)]: on [True] the
    file is at [output_path]. *)
Definition provider_download (p : BaseProvider E) (subtitle : SubtitleResult)
    (output_path : string) (token : option string) : M (world E) bool :=
  (let* _ := modify (emit (EvDownload (name p) (sub_id subtitle) output_path)) in
   let* saved := external (download p subtitle output_path token) in
   let* _ := modify (fun w =>
               if saved : bool then with_files ({[output_path]} ∪ files w) w
               else w) in
   ret saved)%eff.

(** [os.remove(path)]; [denied] tells which error, if any, removing an
    existing file meets. *)
Definition os_remove (denied : string -> E -> option exn) (path : string)
  : M (world E) unit :=
  (let* _ := modify (emit (EvRemove path)) in
   fun w =>
     if bool_decide (path ∈ files w) then
       match denied path (ext w) with
       | Some e => (w, Raise e)
       | None => (with_files (files w ∖ {[path]}) w, Ret tt)
       end
     else (w, Raise {| exn_cls := OSError;
                       exn_msg := "No such file or directory" |}))%eff.

End Actions.

End World.

(* ===================================================================== *)
(** * Ranking: the sort of [_try_download] *)
(* ===================================================================== *)

Module Ranking.
Export Providers.

(** The sort key [(not is_perfect_match, -download_count, -score)]. *)
Definition sort_key (r : SubtitleResult) : bool * Z * Q :=
  (negb (is_perfect_match r), - download_count r, (- score r)%Q).

Definition Qlt_bool (a b : Q) : bool := negb (Qle_bool b a).

(** [k1 < k2] on tuples: the first components that differ decide, and
    [False < True]. *)
Definition key_lt (k1 k2 : bool * Z * Q) : bool :=
  let '(b1, z1, q1) := k1 in
  let '(b2, z2, q2) := k2 in
  if negb (Bool.eqb b1 b2) then negb b1 && b2
  else if negb (z1 =? z2) then z1 <? z2
  else Qlt_bool q1 q2.

Section StableSort.
Context {X : Type}.
Variable key : X -> bool * Z * Q.

(** Put [x] in front of the first element that is not smaller. *)
Fixpoint insert (x : X) (l : list X) : list X :=
  match l with
  | [] => [x]
  | y :: l' => if key_lt (key y) (key x) then y :: insert x l' else x :: y :: l'
  end.

(** [list.sort(key=key)]: the stable sort by [<] on the keys, here by
    insertion from the right. *)
Fixpoint sort (l : list X) : list X :=
  match l with
  | [] => []
  | x :: l' => insert x (sort l')
  end.

End StableSort.

(** [rank]: the candidates of one language in download order. *)
Definition rank (candidates : list SubtitleResult) : list SubtitleResult :=
  sort sort_key candidates.

(** The order of the ranked list, as the specification words it: perfect
    match first, then more downloads, then the higher score. *)
Definition ranks_no_later (a b : SubtitleResult) : Prop :=
  (is_perfect_match a = true /\ is_perfect_match b = false)
  \/ (is_perfect_match a = is_perfect_match b
      /\ (download_count a > download_count b
          \/ (download_count a = download_count b
              /\ (score b <= score a)%Q))).

(** Two candidates the order does not tell apart. *)
Definition tied (a b : SubtitleResult) : Prop :=
  is_perfect_match a = is_perfect_match b
  /\ download_count a = download_count b
  /\ (score a == score b)%Q.

#[global] Instance tied_dec (a b : SubtitleResult) : Decision (tied a b).
Proof.
  unfold tied.
  destruct (Qeq_dec (score a) (score b)); [|right; tauto].
  destruct (decide (is_perfect_match a = is_perfect_match b)); [|right; tauto].
  destruct (decide (download_count a = download_count b)); [|right; tauto].
  left; tauto.
Defined.

End Ranking.

(* ===================================================================== *)
(** * plexsubs/core/subtitle_manager.py *)
(* ===================================================================== *)

Module SubtitleManager.
Export World.
Import PyStr.

Definition SUBTITLE_EXTENSIONS : list string := [".srt"; ".ass"; ".ssa"; ".vtt"].

(** The fields of [Settings] the pipeline reads. *)
Record Settings := {
  languages_list : list string;
  subtitles_auto_select : bool;
  subtitles_use_release_matching : bool;
  subtitles_upgrade_on_perfect_match : bool;
  subtitles_upgrade_on_popular : bool;
  subtitles_popular_download_threshold : Z
}.

(** The collaborators that are neither providers nor Plex. *)
Record Collaborators (E : Type) := {
  guessit : string -> option ReleaseMatcher.guess;
  (** the verdict of [verify_language] on the file now at that path *)
  language_ok : string -> string -> E -> bool;
  (** the error [os.remove] meets on an existing file, if any *)
  remove_denied : string -> E -> option exn;
  to_plex_language_code : string -> string
}.
Arguments guessit {E} _.
Arguments language_ok {E} _.
Arguments remove_denied {E} _.
Arguments to_plex_language_code {E} _.

(** The dict a download attempt answers with. *)
Inductive result :=
| NotDownloaded (existing : option string)
    (** [{"success": False}], with the key ["existing"] when [Some] *)
| Downloaded (path lang language_code provider_name : string) (upgraded : bool).

Definition success (r : result) : bool :=
  match r with
  | NotDownloaded _ => false
  | Downloaded _ _ _ _ _ => true
  end.

Definition upgraded_of (r : result) : option bool :=
  match r with
  | NotDownloaded _ => None
  | Downloaded _ _ _ _ u => Some u
  end.

Definition verification_failed : exn :=
  {| exn_cls := Exception; exn_msg := "Language verification failed" |}.

Section Manager.
Context {E : Type}.
Variable settings : Settings.
Variable collab : Collaborators E.
Variable providers : list (BaseProvider E).

Definition _should_skip_first_language (existing : gmap string string)
    (first_lang : string) : option result :=
  match existing !! first_lang with
  | Some path =>
      if negb (subtitles_use_release_matching settings)
      then Some (NotDownloaded (Some path))
      else None
  | None => None
  end.

Definition _should_skip_language_check (is_first : bool) (first_lang : string)
    (existing : gmap string string) (current_lang : string) : option result :=
  match (if is_first then existing !! first_lang else None) with
  | Some path =>
      if negb (subtitles_use_release_matching settings)
      then Some (NotDownloaded (Some path))
      else if negb (subtitles_upgrade_on_perfect_match settings)
      then Some (NotDownloaded (Some path))
      else None
  | None => None
  end.

(** The inner loop over the extensions: the first path that exists. *)
Definition first_existing (fs : gset string) (media_dir media_name lang : string)
  : option string :=
  List.find (fun path => bool_decide (path ∈ fs))
    (List.map (fun ext => OsPath.join media_dir (media_name +:+ "." +:+ lang +:+ ext))
              SUBTITLE_EXTENSIONS).

Definition existing_in (fs : gset string) (media_dir media_name : string)
  : gmap string string :=
  fold_left (fun existing lang =>
               match first_existing fs media_dir media_name lang with
               | Some path => <[lang := path]> existing
               | None => existing
               end)
            (languages_list settings) ∅.

Definition _get_existing_subtitles (media_dir media_name : string)
  : M (world E) (gmap string string) :=
  gets (fun w => existing_in (files w) media_dir media_name).

(** [verify_language(output_path, language)]: a file that cannot be
    read counts as verified. *)
Definition verify_language (output_path lang : string) : M (world E) bool :=
  (let* _ := modify (emit (EvVerify output_path lang)) in
   gets (fun w =>
           if bool_decide (output_path ∈ files w)
           then language_ok collab output_path lang (ext w)
           else true))%eff.

(** The function under the decorator. *)
Definition download_and_verify_once (p : BaseProvider E)
    (subtitle : SubtitleResult) (output_path : string)
    (token : option string) (lang : string) : M (world E) bool :=
  (let* ok := provider_download p subtitle output_path token in
   if negb ok then ret false
   else
     let* verified := verify_language output_path lang in
     if negb verified then
       let* _ := os_remove (remove_denied collab) output_path in
       raise verification_failed
     else ret true)%eff.

(** [_download_and_verify]: decorated with
    [retry_with_backoff(max_retries=3, exceptions=(Exception,), on_retry=None)]. *)
Definition _download_and_verify (p : BaseProvider E)
    (subtitle : SubtitleResult) (output_path : string)
    (token : option string) (lang : string) : M (world E) bool :=
  Retry.sync_wrapper sleep 3 Retry.DEFAULT_BASE_RETRY_DELAY [Exception] None
    (download_and_verify_once p subtitle output_path token lang).

Definition _download_with_retry (p : BaseProvider E)
    (subtitle : SubtitleResult) (output_path : string)
    (token : option string) (lang : string) (existing_path : option string)
  : M (world E) result :=
  try_except
    (let* ok := _download_and_verify p subtitle output_path token lang in
     if ok : bool then
       let* _ :=
         match existing_path with
         | Some old =>
             if truthy old && negb (String.eqb old output_path)
                && is_perfect_match subtitle
             then try_except (os_remove (remove_denied collab) old)
                             (fun _ => ret tt)
             else ret tt
         | None => ret tt
         end in
       ret (Downloaded output_path lang
                       (to_plex_language_code collab lang) (name p)
                       (match existing_path with
                        | Some _ => is_perfect_match subtitle
                        | None => false
                        end))
     else ret (NotDownloaded None))%eff
    (fun _ => ret (NotDownloaded None)).

(** The loop over the providers: a search that raises is skipped. *)
Fixpoint search_all (ps : list (BaseProvider E)) (title : string)
    (year : option Z) (imdb_id : option string) (lang : string)
    (release_groups : option (list string)) (media_name : string)
  : M (world E) (list (BaseProvider E * SubtitleResult * option string)) :=
  match ps with
  | [] => ret []
  | p :: ps' =>
      (let* found :=
         try_except
           (let* (results, token) :=
              provider_search p title year imdb_id lang release_groups
                              (Some media_name) in
            ret (List.map (fun r => (p, r, token)) results))
           (fun _ => ret []) in
       let* others :=
         search_all ps' title year imdb_id lang release_groups media_name in
       ret (found ++ others)%list)%eff
  end.

(** The condition under which the download loop says [continue]. *)
Definition skipped (existing_path : option string)
    (r best_result : SubtitleResult) : bool :=
  if truthy_opt existing_path && negb (is_perfect_match r) then
    if negb (subtitles_upgrade_on_popular settings) then true
    else if negb (SubtitleResult_eqb r best_result) then true
    else false
  else false.

(** The loop [for provider, result, token in all_results]. *)
Fixpoint download_in_order (media_dir media_name lang : string)
    (existing_path : option string) (best_result : SubtitleResult)
    (all_results : list (BaseProvider E * SubtitleResult * option string))
  : M (world E) result :=
  match all_results with
  | [] => ret (NotDownloaded None)
  | (p, r, token) :: rest =>
      if skipped existing_path r best_result
      then download_in_order media_dir media_name lang existing_path
                             best_result rest
      else
        let output_path :=
          OsPath.join media_dir (media_name +:+ "." +:+ lang +:+ ".srt") in
        (let* download_result :=
           _download_with_retry p r output_path token lang existing_path in
         if success download_result then ret download_result
         else download_in_order media_dir media_name lang existing_path
                                best_result rest)%eff
  end.

(** [_try_download].  The test [if not all_results] is made on the
    sorted list: sorting keeps the elements, so it is empty exactly
    when nothing was found. *)
Definition _try_download (media_dir media_name title : string)
    (year : option Z) (imdb_id : option string) (lang : string)
    (release_groups : option (list string)) (existing_path : option string)
  : M (world E) result :=
  (let* found :=
     search_all providers title year imdb_id lang release_groups media_name in
   let all_results := Ranking.sort (fun x => Ranking.sort_key (snd (fst x))) found in
   match all_results with
   | [] => ret (NotDownloaded None)
   | (_, best_result, _) :: _ =>
       let has_perfect_match :=
         existsb (fun x => is_perfect_match (snd (fst x))) all_results in
       if truthy_opt existing_path && negb has_perfect_match
          && (if subtitles_upgrade_on_popular settings
              then negb (subtitles_popular_download_threshold settings
                         <=? download_count best_result)
              else true)
       then ret (NotDownloaded existing_path)
       else if truthy_opt existing_path && has_perfect_match
               && negb (subtitles_upgrade_on_perfect_match settings)
       then ret (NotDownloaded existing_path)
       else download_in_order media_dir media_name lang existing_path
                              best_result all_results
   end)%eff.

(** The loop [for i, lang in enumerate(languages)], from index [i]. *)
Fixpoint try_languages (media_dir media_name title : string)
    (year : option Z) (imdb_id : option string)
    (release_groups : option (list string))
    (first_lang : string) (existing : gmap string string)
    (i : nat) (langs : list string) : M (world E) result :=
  match langs with
  | [] => ret (NotDownloaded None)
  | lang :: rest =>
      let is_first := (i =? 0)%nat in
      match _should_skip_language_check is_first first_lang existing lang with
      | Some skip_check => ret skip_check
      | None =>
          (let* r :=
             _try_download media_dir media_name title year imdb_id lang
                           release_groups (existing !! lang) in
           if success r then ret r
           else try_languages media_dir media_name title year imdb_id
                              release_groups first_lang existing (S i) rest)%eff
      end
  end.

Definition download_subtitles (media_path title : string) (year : option Z)
    (imdb_id : option string) (rating_key : option string)
  : M (world E) result :=
  let media_dir := OsPath.dirname media_path in
  let media_name := fst (OsPath.splitext (OsPath.basename media_path)) in
  let languages := languages_list settings in
  match languages with
  | [] => ret (NotDownloaded None)
  | first_lang :: _ =>
      (let* existing := _get_existing_subtitles media_dir media_name in
       match _should_skip_first_language existing first_lang with
       | Some skip_result => ret skip_result
       | None =>
           let release_groups :=
             if subtitles_use_release_matching settings
             then Some (ReleaseMatcher.extract_release_info
                          (guessit collab) media_name)
             else None in
           try_languages media_dir media_name title year imdb_id
                         release_groups first_lang existing 0 languages
       end)%eff
  end.

End Manager.

End SubtitleManager.

(* ===================================================================== *)
(** * plexsubs/plex/webhook.py *)
(* ===================================================================== *)

Module Webhook.
Export SubtitleManager.
Import PyStr.

Definition PROCESSABLE_EVENTS : list string := ["media.play"; "media.resume"].
Definition BASE_RETRY_WAIT_SECONDS : Q := 3.
Definition MAX_SESSION_RETRIES : Z := 3.

(** [plexsubs.plex.client.MediaInfo]. *)
Record MediaInfo := {
  rating_key : string;
  title : string;
  type_ : string;
  year : option Z;
  imdb_id : option string;
  file_path : option string
}.

(** The calls of [PlexClient] the handler makes.  The three setters
    answer with a boolean: the client turns its request errors into
    [False]. *)
Record PlexClient (E : Type) := {
  get_media_info : string -> M E (option MediaInfo);
  refresh_metadata : string -> E -> E * bool;
  set_active_session_subtitle : string -> string -> E -> E * bool;
  set_subtitle_stream : string -> string -> E -> E * bool
}.
Arguments get_media_info {E} _.
Arguments refresh_metadata {E} _.
Arguments set_active_session_subtitle {E} _.
Arguments set_subtitle_stream {E} _.

(** What the handler reads of the decoded payload. *)
Record payload := {
  event : option string;
  metadata_ratingKey : option string
}.

(** The response dict, by its ["status"]. *)
Inductive body :=
| StatusError (message : string)
| StatusIgnored (ev : option string)
| StatusSuccess (subtitle lang provider_name : string) (upgraded : bool)
| StatusNotFound (message : string).

Definition default_stream_warning : string :=
  "Failed to set subtitle stream, will be available on next play".

Section Handler.
Context {E : Type}.
Variable settings : Settings.
Variable collab : Collaborators E.
Variable providers : list (BaseProvider E).
Variable plex : PlexClient E.
(** [json.loads], [None] on a decode error. *)
Variable json_loads : string -> option payload.

(** A call of a boolean Plex setter, recorded. *)
Definition plex_call (ev : World.event) (call : E -> E * bool)
  : M (world E) bool :=
  (let* _ := modify (emit ev) in
   external (fun e => let '(e', b) := call e in (e', Ret b)))%eff.

(** The function under the decorator of [_try_set_session_subtitle]. *)
Definition set_session_subtitle_once (rating_key language_code : string)
  : M (world E) bool :=
  (let* ok := plex_call (EvSetSession rating_key language_code)
                        (set_active_session_subtitle plex rating_key language_code) in
   if negb ok then
     raise {| exn_cls := Exception;
              exn_msg := "Failed to set subtitle " +:+ language_code
                         +:+ " for " +:+ rating_key |}
   else ret true)%eff.

Definition _try_set_session_subtitle (rating_key language_code : string)
  : M (world E) bool :=
  Retry.sync_wrapper sleep MAX_SESSION_RETRIES BASE_RETRY_WAIT_SECONDS
    [Exception] None (set_session_subtitle_once rating_key language_code).

Definition _try_set_session_subtitle_with_retry (rating_key language_code : string)
  : M (world E) bool :=
  try_except (_try_set_session_subtitle rating_key language_code)
             (fun _ => ret false).

(** [except PlexSubtitleError as e: return {...}, 500]. *)
Definition on_plex_subtitle_error (e : exn) : M (world E) (body * Z) :=
  if isinstance e [PlexSubtitleError]
  then ret (StatusError (exn_msg e), 500)
  else raise e.

(** The branch [if result["success"]] of [handle_event]. *)
Definition after_download (rating_key : string) (r : result)
  : M (world E) (body * Z) :=
  match r with
  | Downloaded path lang language_code provider_name upgraded =>
      (let* _ := plex_call (EvRefresh rating_key) (refresh_metadata plex rating_key) in
       let* _ :=
         if subtitles_auto_select settings then
           let* session_success :=
             _try_set_session_subtitle_with_retry rating_key language_code in
           if negb session_success then
             let* default_success :=
               plex_call (EvSetDefault rating_key language_code)
                         (set_subtitle_stream plex rating_key language_code) in
             if default_success : bool then ret tt
             else modify (emit (EvWarning default_stream_warning))
           else ret tt
         else ret tt in
       ret (StatusSuccess path lang provider_name upgraded, 200))%eff
  | NotDownloaded _ => ret (StatusNotFound "No suitable subtitle found", 404)
  end.

(** [handle_event].  Its two [try] blocks have the same handler and
    nothing between them raises, so one handler covers both. *)
Definition handle_event (payload_str : string) : M (world E) (body * Z) :=
  match json_loads payload_str with
  | None => ret (StatusError "Invalid JSON", 400)
  | Some payload =>
      if negb (bool_decide (event payload ∈ List.map Some PROCESSABLE_EVENTS))
      then ret (StatusIgnored (event payload), 200)
      else if negb (truthy_opt (metadata_ratingKey payload))
      then ret (StatusError "No rating key", 400)
      else
        let rating_key := default "" (metadata_ratingKey payload) in
        try_except
          (let* media_info := external (get_media_info plex rating_key) in
           match media_info with
           | None => ret (StatusError "Could not get media info", 500)
           | Some info =>
               if negb (truthy_opt (file_path info))
               then ret (StatusError "Could not get file path", 500)
               else
                 let* r :=
                   download_subtitles settings collab providers
                     (default "" (file_path info)) (title info) (year info)
                     (imdb_id info) (Some rating_key) in
                 after_download rating_key r
           end)%eff
          on_plex_subtitle_error
  end.

End Handler.

End Webhook.

(* ===================================================================== *)
(** * More of Python's strings: strip, split, replace *)
(* ===================================================================== *)

Module PyText.
Import PyStr.

(** [c.isspace()] for an ASCII character. *)
Definition is_space (c : ascii) : bool :=
  let n := nat_of_ascii c in
  ((9 <=? n) && (n <=? 13) || (28 <=? n) && (n <=? 32))%nat.

Fixpoint lstrip_list (l : list ascii) : list ascii :=
  match l with
  | c :: l' => if is_space c then lstrip_list l' else l
  | [] => []
  end.

(** Drop the white space at the end. *)
Fixpoint rstrip_list (l : list ascii) : list ascii :=
  match l with
  | [] => []
  | c :: l' =>
      match rstrip_list l' with
      | [] => if is_space c then [] else [c]
      | kept => c :: kept
      end
  end.

(** [s.strip()]. *)
Definition strip (s : string) : string :=
  string_of_list_ascii (rstrip_list (lstrip_list (list_ascii_of_string s))).

(** [s.lstrip()] and [s.rstrip()], on the string itself. *)
Fixpoint lstrip_s (s : string) : string :=
  match s with
  | String c s' => if is_space c then lstrip_s s' else s
  | EmptyString => EmptyString
  end.

Fixpoint rstrip_s (s : string) : string :=
  match s with
  | EmptyString => EmptyString
  | String c s' =>
      match rstrip_s s' with
      | EmptyString => if is_space c then EmptyString else String c EmptyString
      | kept => String c kept
      end
  end.

(** [s.split(sep)] for a separator of one character: always at least
    one piece. *)
Fixpoint split_on (sep : ascii) (s : string) : list string :=
  match s with
  | EmptyString => [EmptyString]
  | String c s' =>
      if Ascii.eqb c sep then EmptyString :: split_on sep s'
      else match split_on sep s' with
           | piece :: pieces => String c piece :: pieces
           | [] => [String c EmptyString]
           end
  end.

(** [s.split(sep, 1)] when [sep in s]: the text before and after the
    first separator; [None] when [sep] does not occur. *)
Fixpoint partition_first (sep : ascii) (s : string) : option (string * string) :=
  match s with
  | EmptyString => None
  | String c s' =>
      if Ascii.eqb c sep then Some (EmptyString, s')
      else match partition_first sep s' with
           | Some (before, after) => Some (String c before, after)
           | None => None
           end
  end.

(** [s[n:]]. *)
Fixpoint string_drop (n : nat) (s : string) : string :=
  match n, s with
  | O, _ => s
  | S n', String _ s' => string_drop n' s'
  | S _, EmptyString => EmptyString
  end.

(** [s.replace(old, new, 1)]. *)
Fixpoint replace_first (old new s : string) : string :=
  if String.prefix old s then new +:+ string_drop (String.length old) s
  else match s with
       | EmptyString => EmptyString
       | String c s' => String c (replace_first old new s')
       end.

(** [sep.join(pieces)]. *)
Fixpoint join_with (sep : ascii) (pieces : list string) : string :=
  match pieces with
  | [] => EmptyString
  | [piece] => piece
  | piece :: rest => piece +:+ String sep (join_with sep rest)
  end.

(** [c not in s]. *)
Fixpoint lacks (c : ascii) (s : string) : bool :=
  match s with
  | EmptyString => true
  | String x s' => negb (Ascii.eqb x c) && lacks c s'
  end.

(** A [dict] with string keys, in insertion order. *)
Definition dict (V : Type) : Type := list (string * V).

(** [d[k] = v]: a key that is there keeps its place. *)
Fixpoint dict_set {V : Type} (k : string) (v : V) (d : dict V) : dict V :=
  match d with
  | [] => [(k, v)]
  | (k', v') :: d' =>
      if String.eqb k' k then (k', v) :: d' else (k', v') :: dict_set k v d'
  end.

(** [d.get(k)]. *)
Fixpoint dict_get {V : Type} (k : string) (d : dict V) : option V :=
  match d with
  | [] => None
  | (k', v) :: d' => if String.eqb k' k then Some v else dict_get k d'
  end.

End PyText.

(* ===================================================================== *)
(** * plexsubs/utils/path_utils.py *)
(* ===================================================================== *)

Module PathUtils.
Import PyStr PyText.

Definition DEFAULT_PATH_MAPPINGS : dict string := [("/media", "/mnt/library")].

(** [apply_path_mappings]: the first mapping, in the order of the dict,
    whose old path starts the file path is applied. *)
Fixpoint apply_path_mappings (file_path : string) (path_mappings : dict string)
  : string :=
  match path_mappings with
  | [] => file_path
  | (old_path, new_path) :: others =>
      if startswith old_path file_path
      then replace_first old_path new_path file_path
      else apply_path_mappings file_path others
  end.

(** The loop of [parse_path_mappings] over the pieces between commas. *)
Definition add_mapping (mappings : dict string) (mapping : string) : dict string :=
  match partition_first ":" mapping with
  | Some (src, dst) => dict_set (strip src) (strip dst) mappings
  | None => mappings
  end.

Definition parse_path_mappings (value : option string) : dict string :=
  match value with
  | None => DEFAULT_PATH_MAPPINGS
  | Some v =>
      if negb (truthy v) then DEFAULT_PATH_MAPPINGS
      else
        match fold_left add_mapping (split_on "," v) [] with
        | [] => DEFAULT_PATH_MAPPINGS
        | mappings => mappings
        end
  end.

(** Both paths of a mapping are free of surrounding white space. *)
Definition stripped (m : string * string) : Prop :=
  strip (fst m) = fst m /\ strip (snd m) = snd m.

(** A mapping that can be written down: stripped paths, no comma in
    either, no colon in the old path. *)
Definition writable (m : string * string) : Prop :=
  stripped m
  /\ lacks "," (fst m) = true /\ lacks ":" (fst m) = true
  /\ lacks "," (snd m) = true.

End PathUtils.

(* ===================================================================== *)
(** * plexsubs/config/validators.py: the language list *)
(* ===================================================================== *)

Module Validators.
Import Exceptions PyStr PyText.

(** The body of the loop of [validate_path_mappings]. *)
Definition check_mapping (mappings : dict string) (mapping : string)
  : outcome (dict string) :=
  let mapping := strip mapping in
  if negb (truthy mapping) then Ret mappings
  else
    match partition_first ":" mapping with
    | None =>
        Raise {| exn_cls := ValueError;
                 exn_msg := "Invalid path mapping format: " +:+ mapping |}
    | Some (part0, part1) =>
        let src := strip part0 in
        let dst := strip part1 in
        if negb (truthy src) || negb (truthy dst)
        then Raise {| exn_cls := ValueError;
                      exn_msg := "Invalid path mapping (empty path): "
                                 +:+ mapping |}
        else Ret (dict_set src dst mappings)
    end.

Fixpoint check_mappings (pieces : list string) (mappings : dict string)
  : outcome (dict string) :=
  match pieces with
  | [] => Ret mappings
  | mapping :: rest =>
      match check_mapping mappings mapping with
      | Ret mappings' => check_mappings rest mappings'
      | Raise e => Raise e
      end
  end.

Definition validate_path_mappings (value : option string)
  : outcome (dict string) :=
  match value with
  | None => Ret []
  | Some v =>
      if negb (truthy v) then Ret [] else check_mappings (split_on "," v) []
  end.

Section LanguageList.
(** [VALID_ISO639_1_CODES], from the language table. *)
Variable VALID_ISO639_1_CODES : list string.

(** The loop of [parse_language_codes]. *)
Definition keep_valid (languages : list string) (piece : string) : list string :=
  let lang := lower (strip piece) in
  if truthy lang && bool_decide (lang ∈ VALID_ISO639_1_CODES)
  then (languages ++ [lang])%list
  else languages.

Definition validate_language_code (code : string) : outcome string :=
  let code := lower (strip code) in
  if negb (truthy code)
  then Raise {| exn_cls := ValueError;
                exn_msg := "Language code cannot be empty" |}
  else if negb (bool_decide (code ∈ VALID_ISO639_1_CODES))
  then Raise {| exn_cls := ValueError;
                exn_msg := "Invalid language code: " +:+ code |}
  else Ret code.

(** The code [validate_language_code] returns, if it returns. *)
Definition accepted (code : string) : option string :=
  match validate_language_code code with
  | Ret c => Some c
  | Raise _ => None
  end.

(** What the loop of [parse_language_codes] keeps: a known code, in
    lower case, without white space around it and without a comma. *)
Definition kept (lang : string) : Prop :=
  lang ∈ VALID_ISO639_1_CODES /\ truthy lang = true /\ lower lang = lang
  /\ strip lang = lang /\ lacks "," lang = true.

Definition parse_language_codes (value : option string) : list string :=
  match value with
  | None => ["en"]
  | Some v =>
      if negb (truthy v) || negb (truthy (strip v)) then ["en"]
      else
        match fold_left keep_valid (split_on "," v) [] with
        | [] => ["en"]
        | languages => languages
        end
  end.

End LanguageList.

End Validators.

(* ===================================================================== *)
(** * plexsubs/utils/language_codes.py and core/language_detector.py *)
(* ===================================================================== *)

Module LanguageCodes.
Import PyStr PyText.

Definition _ENGLISH_NAME_MAP : dict string :=
  [("dutch", "nl"); ("english", "en"); ("german", "de"); ("french", "fr");
   ("spanish", "es"); ("italian", "it"); ("portuguese", "pt");
   ("swedish", "sv"); ("norwegian", "no"); ("danish", "da");
   ("finnish", "fi"); ("polish", "pl"); ("russian", "ru");
   ("japanese", "ja"); ("korean", "ko"); ("chinese", "zh");
   ("arabic", "ar"); ("hindi", "hi"); ("turkish", "tr"); ("czech", "cs");
   ("hungarian", "hu"); ("romanian", "ro"); ("greek", "el");
   ("hebrew", "he"); ("thai", "th"); ("indonesian", "id")].

Definition _resolve_language_code (code_or_name : string) : string :=
  let normalized := strip (lower code_or_name) in
  match dict_get normalized _ENGLISH_NAME_MAP with
  | Some code => code
  | None => normalized
  end.

(** An entry of the ISO 639 table; a part the language lacks is the
    empty string. *)
Record iso_lang := {
  pt1 : string;
  pt2t : string;
  pt2b : string;
  lang_name : string
}.

Section Table.
(** [Lang(code)], [None] when it raises [InvalidLanguageValue]. *)
Variable Lang : string -> option iso_lang.

Definition get_allowed_languages (language : string) : list string :=
  let resolved := _resolve_language_code language in
  match Lang resolved with
  | Some lang =>
      List.filter truthy [pt1 lang; pt2t lang; pt2b lang; lower (lang_name lang)]
  | None => [lower language]
  end.

Definition to_plex_language_code (language : string) : string :=
  let resolved := _resolve_language_code language in
  match Lang resolved with
  | Some lang => if truthy (pt2t lang) then pt2t lang else resolved
  | None => lower language
  end.


Definition verify_language_match (detected expected : string) : bool :=
  let detected := strip (lower detected) in
  let expected := strip (lower expected) in
  if String.eqb detected expected then true
  else bool_decide (detected ∈ List.map lower (get_allowed_languages expected)).


(** [verify_language] of the language detector: [detected] is what
    [detect_subtitle_language] found in the file, [None] when it
    could not tell. *)
Definition verify_language (detected : option string) (expected_language : string)
  : bool :=
  match detected with
  | None => true
  | Some d =>
      if negb (truthy d) then true
      else verify_language_match d expected_language
  end.

End Table.

End LanguageCodes.

(* ===================================================================== *)
(** * plexsubs/utils/http_client.py and the client of
      plexsubs/providers/opensubtitles.py *)
(* ===================================================================== *)

Module OpenSubtitles.
Export Retry.
Import PyStr Providers.

Definition DOWNLOAD_TIMEOUT : Z := 30.
Definition TOKEN_EXPIRY_HOURS : Z := 23.
Definition TOKEN_EXPIRY_SECONDS : Q := inject_Z (TOKEN_EXPIRY_HOURS * 3600).

Definition base_url : string := "https://api.opensubtitles.com/api/v1".

(** What a request carries: the query parameters of a search, or the
    JSON body [{"file_id": ...}] of a download. *)
Inductive sent :=
| Params (languages : string) (imdb_id query : option string) (year : option Z)
| FileId (file_id : option Z)
| FileIdOf (sub_id : string).

(** A call that leaves the process, a pause, or a file written. *)
Inductive call :=
| Login
| Request (method url : string) (bearer : option string)
| Fetch (link : string)
| Pause (delay : Q)
| Save (path : string).

(** The provider object.  [net] is the state of everything outside the
    process (the servers, the clock, the disk), [calls] what it has
    done so far, oldest first. *)
Record client (E : Type) := {
  net : E;
  token : option string;
  _token_expiry : Q;
  calls : list call
}.
Arguments net {E} _.
Arguments token {E} _.
Arguments _token_expiry {E} _.
Arguments calls {E} _.

(** The JSON object of an answer, by the two keys that are read. *)
Record api_answer := {
  data : option (list api_subtitle);
  link : option string
}.

(** A [requests.Response] whose status is no error; [json] is what
    [response.json()] gives. *)
Record response := { json : outcome api_answer }.

(** [endpoint.lstrip("/")]. *)
Fixpoint lstrip_slash (s : string) : string :=
  match s with
  | String "/" s' => lstrip_slash s'
  | _ => s
  end.

(** [f"{self.base_url}/{endpoint.lstrip('/')}"]. *)
Definition url_of (endpoint : string) : string :=
  base_url +:+ "/" +:+ lstrip_slash endpoint.

(** The methods [BaseHTTPClient._make_request] knows. *)
Definition known_method (method : string) : Prop :=
  upper method = "GET" \/ upper method = "POST"
  \/ upper method = "PUT" \/ upper method = "DELETE".

Section Client.
Context {E : Type}.

(** [time.time()]. *)
Variable now : E -> Q.
(** The login: [requests.post] of the credentials, [raise_for_status],
    [response.json()] and [data.get("token")]. *)
Variable login : M E (option string).
(** [self.session.get/post/put/delete(url, ...)] followed by
    [response.raise_for_status()]: method, url, the bearer token of
    the headers, the query parameters and the JSON body. *)
Variable session_request :
  string -> string -> option string -> option sent -> option sent -> M E response.
(** [requests.get(link)] followed by [raise_for_status()]: the
    content. *)
Variable requests_get : string -> M E string.
(** Making the directory of the path if it is missing, then writing
    the content to the path. *)
Variable write_file : string -> string -> M E unit.
(** [e.response.status_code] of an exception of [requests] that
    carries a response. *)
Variable response_status : exn -> option Z.

Definition record (c : call) (s : client E) : client E :=
  {| net := net s; token := token s; _token_expiry := _token_expiry s;
     calls := calls s ++ [c] |}.

Definition with_net (e : E) (s : client E) : client E :=
  {| net := e; token := token s; _token_expiry := _token_expiry s;
     calls := calls s |}.

Definition set_token (t : option string) (s : client E) : client E :=
  {| net := net s; token := t; _token_expiry := _token_expiry s;
     calls := calls s |}.

Definition set_expiry (s : client E) : client E :=
  {| net := net s; token := token s;
     _token_expiry := now (net s) + TOKEN_EXPIRY_SECONDS;
     calls := calls s |}.

(** Run a call on the outside. *)
Definition on_net {A} (m : M E A) : M (client E) A :=
  fun s => let '(e, r) := m (net s) in (with_net e s, r).

(** [self.token and time.time() < self._token_expiry]. *)
Definition token_valid (s : client E) : bool :=
  truthy_opt (token s) && Ranking.Qlt_bool (now (net s)) (_token_expiry s).

(** [_authenticate]: the check is made twice, before and after the
    lock is taken; there is one thread here. *)
Definition _authenticate : M (client E) (option string) :=
  (let* valid := gets token_valid in
   if valid : bool then gets token
   else
     let* valid := gets token_valid in
     if valid : bool then gets token
     else
       try_except
         (let* _ := modify (record Login) in
          let* t := on_net login in
          let* _ := modify (set_token t) in
          let* _ := modify set_expiry in
          ret t)
         (fun e =>
            if isinstance e [RequestException]
            then raise {| exn_cls := OpenSubtitlesError;
                          exn_msg := "Authentication failed: " +:+ exn_msg e |}
            else raise e))%eff.

(** [AuthenticatedHTTPClient._get_headers]: the token that goes into
    the [Authorization] header. *)
Definition bearer (s : client E) : option string :=
  if truthy_opt (token s) then token s else None.

(** [BaseHTTPClient._make_request]. *)
Definition base_make_request (method endpoint : string)
    (params json_data : option sent) : M (client E) response :=
  let url := url_of endpoint in
  (let* headers := gets bearer in
   let method := upper method in
   try_except
     (if String.eqb method "GET" || String.eqb method "PUT"
         || String.eqb method "DELETE"
      then
        let* _ := modify (record (Request method url headers)) in
        on_net (session_request method url headers params None)
      else if String.eqb method "POST" then
        let* _ := modify (record (Request method url headers)) in
        on_net (session_request method url headers params json_data)
      else raise {| exn_cls := PlexAPIError;
                    exn_msg := "Unsupported HTTP method: " +:+ method |})
     (fun e =>
        if isinstance e [RequestException]
        then raise {| exn_cls := PlexAPIError;
                      exn_msg := "Request failed: " +:+ exn_msg e |}
        else raise e))%eff.

(** [hasattr(e, "response") and e.response is not None], and then the
    status: of the exceptions here, only those of [requests] have the
    attribute. *)
Definition carried_status (e : exn) : option Z :=
  if isinstance e [RequestException] then response_status e else None.

(** The body of [OpenSubtitlesProvider._make_request]; [again] is the
    call it makes of itself, there when [retry_on_auth_error] holds. *)
Definition _make_request_body (again : option (M (client E) api_answer))
    (method endpoint : string) (params json_data : option sent)
  : M (client E) api_answer :=
  (let* _ := _authenticate in
   try_except
     (let* r := base_make_request method endpoint params json_data in
      fun s => (s, json r))
     (fun e =>
        match carried_status e, again with
        | Some status, Some retry =>
            if status =? 401 then
              let* _ := modify (set_token None) in
              let* _ := _authenticate in
              retry
            else raise {| exn_cls := OpenSubtitlesError;
                          exn_msg := "Request failed: " +:+ exn_msg e |}
        | _, _ => raise {| exn_cls := OpenSubtitlesError;
                           exn_msg := "Request failed: " +:+ exn_msg e |}
        end))%eff.

Definition _make_request (retry_on_auth_error : bool)
    (method endpoint : string) (params json_data : option sent)
  : M (client E) api_answer :=
  _make_request_body
    (if retry_on_auth_error
     then Some (_make_request_body None method endpoint params json_data)
     else None)
    method endpoint params json_data.

(** [subtitle.download_params or {"file_id": subtitle.id}]. *)
Definition payload_of (subtitle : SubtitleResult) : sent :=
  match download_params subtitle with
  | Some v => FileId v
  | None => FileIdOf (sub_id subtitle)
  end.

(** The first two statements of [_download_with_retry]: a token if
    none was given, then the request for the link. *)
Definition request_link (subtitle : SubtitleResult) (token : option string)
  : M (client E) api_answer :=
  (let* token :=
     if negb (truthy_opt token) then _authenticate else ret token in
   let payload := payload_of subtitle in
   _make_request true "POST" "/download" None (Some payload))%eff.

(** [OpenSubtitlesProvider._download_with_retry]. *)
Definition _download_with_retry (subtitle : SubtitleResult)
    (output_path : string) (token : option string) : M (client E) bool :=
  (let* answer := request_link subtitle token in
   let download_link := link answer in
   if negb (truthy_opt download_link) then ret false
   else
     let* _ := modify (record (Fetch (default "" download_link))) in
     let* content := on_net (requests_get (default "" download_link)) in
     let* _ := on_net (write_file output_path content) in
     let* _ := modify (record (Save output_path)) in
     ret true)%eff.

(** [OpenSubtitlesProvider.download]; the callback only logs. *)
Definition download (subtitle : SubtitleResult) (output_path : string)
    (token : option string) : M (client E) bool :=
  try_except
    (sync_wrapper (fun delay => record (Pause delay)) 3 2
       [HTTPError; RequestException] (Some (fun _ _ _ s => s))
       (_download_with_retry subtitle output_path token))
    (fun e => if isinstance e [Exception] then ret false else raise e).

End Client.

End OpenSubtitles.

(* ===================================================================== *)
(** * Scenarios *)
(* ===================================================================== *)

(** The retry tests of [tests/test_retry.py]: the state is the counters
    and lists the test functions close over. *)
Module RetryScenario.
Import Retry.

Record test_state := {
  call_count : nat;
  callback_calls : list (Z * Q * string);
  slept : list Q
}.

Definition start : test_state :=
  {| call_count := 0; callback_calls := []; slept := [] |}.

Definition called (s : test_state) : test_state :=
  {| call_count := S (call_count s);
     callback_calls := callback_calls s;
     slept := slept s |}.

Definition test_sleep (delay : Q) (s : test_state) : test_state :=
  {| call_count := call_count s;
     callback_calls := callback_calls s;
     slept := slept s ++ [delay] |}.

(** [callback_calls.append((attempt, delay, str(exception)))]. *)
Definition on_retry (attempt : Z) (delay : Q) (e : exn) (s : test_state)
  : test_state :=
  {| call_count := call_count s;
     callback_calls := callback_calls s ++ [(attempt, delay, exn_msg e)];
     slept := slept s |}.

Definition temporary_failure : exn :=
  {| exn_cls := ValueError; exn_msg := "Temporary failure" |}.

(** Fails on the first two calls, then succeeds. *)
Definition fail_then_succeed : M test_state string :=
  fun s =>
    if (call_count s <? 2)%nat then (called s, Raise temporary_failure)
    else (called s, Ret "success").

(** [never_called] of [test_max_retries_zero]. *)
Definition never_called : M test_state string :=
  fun s => (called s, Ret "result").

End RetryScenario.

(** Three candidates with downloads 5, 50, 5, the last one a perfect
    match. *)
Module RankScenario.
Import Providers.

Definition candidate (i : string) (perfect : bool) (downloads : Z) : SubtitleResult :=
  {| sub_id := i; language := "en"; release := ""; filename := "";
     download_url := None; download_params := None;
     is_perfect_match := perfect; provider := "opensubtitles";
     score := 0; download_count := downloads |}.

Definition first_found : SubtitleResult := candidate "1" false 5.
Definition popular : SubtitleResult := candidate "2" false 50.
Definition perfect : SubtitleResult := candidate "3" true 5.

End RankScenario.

(** One answer of the search API for a film whose file name carries the
    fingerprint [GRP], [1080P]. *)
Module SearchScenario.
Import Providers.

Definition fingerprint : list string := ["GRP"; "1080P"].

Definition answer : list api_subtitle :=
  [ {| attr_language := Some "en";
       attr_release := Some "Heat.1995.1080p.BluRay.x264-GRP";
       attr_files := Some [ {| file_id := Some 4711;
                               file_name := Some "Heat.1995.1080p.BluRay.x264-GRP.srt" |} ];
       attr_download_count := Some 10 |} ].

Definition get_allowed_languages (lang : string) : list string := [PyStr.lower lang].

Definition found : SubtitleResult :=
  {| sub_id := "4711"; language := "en";
     release := "Heat.1995.1080p.BluRay.x264-GRP";
     filename := "Heat.1995.1080p.BluRay.x264-GRP.srt";
     download_url := None; download_params := Some (Some 4711);
     is_perfect_match := false; provider := "opensubtitles";
     score := 0; download_count := 10 |}.

End SearchScenario.

(** A library with one film, an old subtitle in another format beside it,
    and one provider; the external state counts the calls made. *)
Module PipelineScenario.
Import SubtitleManager.

Definition settings : Settings :=
  {| languages_list := ["en"; "nl"];
     subtitles_auto_select := true;
     subtitles_use_release_matching := true;
     subtitles_upgrade_on_perfect_match := true;
     subtitles_upgrade_on_popular := true;
     subtitles_popular_download_threshold := 100 |}.

(** The same with release matching switched off. *)
Definition settings_no_matching : Settings :=
  {| languages_list := ["en"; "nl"];
     subtitles_auto_select := true;
     subtitles_use_release_matching := false;
     subtitles_upgrade_on_perfect_match := true;
     subtitles_upgrade_on_popular := true;
     subtitles_popular_download_threshold := 100 |}.

Definition collab : Collaborators nat :=
  {| guessit := fun _ => None;
     language_ok := fun _ _ _ => true;
     remove_denied := fun _ _ => None;
     to_plex_language_code :=
       fun l => if String.eqb l "en" then "eng" else l |}.

(** A detector that rejects every file. *)
Definition collab_rejecting : Collaborators nat :=
  {| guessit := fun _ => None;
     language_ok := fun _ _ _ => false;
     remove_denied := fun _ _ => None;
     to_plex_language_code :=
       fun l => if String.eqb l "en" then "eng" else l |}.

Definition candidate (i : string) (perfect : bool) (downloads : Z) : SubtitleResult :=
  {| sub_id := i; language := "en"; release := "Heat.1995"; filename := "heat.srt";
     download_url := None; download_params := None;
     is_perfect_match := perfect; provider := "opensubtitles";
     score := 0; download_count := downloads |}.

(** Finds [found] for every query; a download answers [saved]. *)
Definition provider_with (found : list SubtitleResult) (saved : bool)
  : BaseProvider nat :=
  {| name := "opensubtitles";
     search := fun _ _ _ _ _ _ e => (S e, Ret (found, Some "token"));
     download := fun _ _ _ e => (S e, Ret saved) |}.

Definition media_path : string := "/m/Heat.mkv".
Definition old_subtitle : string := "/m/Heat.en.ass".
Definition new_subtitle : string := "/m/Heat.en.srt".

Definition start : world nat :=
  {| ext := 0%nat; files := {[old_subtitle]}; trace := [] |}.

(** Nothing beside the film yet. *)
Definition start_empty : world nat :=
  {| ext := 0%nat; files := ∅; trace := [] |}.

End PipelineScenario.

(** A play event for the film of [PipelineScenario]; no session shows up
    on the server and the default stream cannot be set either. *)
Module WebhookScenario.
Import Webhook.

Definition info : MediaInfo :=
  {| rating_key := "42"; title := "Heat"; type_ := "movie";
     year := Some 1995; imdb_id := None;
     file_path := Some PipelineScenario.media_path |}.

Definition plex : PlexClient nat :=
  {| get_media_info := fun _ e => (S e, Ret (Some info));
     refresh_metadata := fun _ e => (S e, true);
     set_active_session_subtitle := fun _ _ e => (S e, false);
     set_subtitle_stream := fun _ _ e => (S e, false) |}.

Definition json_loads (s : string) : option payload :=
  Some {| event := Some "media.play"; metadata_ratingKey := Some "42" |}.

Definition providers : list (BaseProvider nat) :=
  [PipelineScenario.provider_with [PipelineScenario.candidate "7" true 7] true].

End WebhookScenario.

(** Variants of the play event of [WebhookScenario]. *)
Module WebhookVariants.
Import Webhook.

(** The session shows up for the second attempt (the sixth external
    call). *)
Definition plex_late_session : PlexClient nat :=
  {| get_media_info := fun _ e => (S e, Ret (Some WebhookScenario.info));
     refresh_metadata := fun _ e => (S e, true);
     set_active_session_subtitle := fun _ _ e => (S e, (5 <=? e)%nat);
     set_subtitle_stream := fun _ _ e => (S e, false) |}.

(** The server does not answer the metadata request. *)
Definition plex_down : PlexClient nat :=
  {| get_media_info :=
       fun _ e => (S e, Raise {| exn_cls := PlexAPIError;
                                 exn_msg := "Failed to get media info: timeout" |});
     refresh_metadata := fun _ e => (S e, true);
     set_active_session_subtitle := fun _ _ e => (S e, false);
     set_subtitle_stream := fun _ _ e => (S e, false) |}.

(** A provider that finds nothing. *)
Definition no_providers_found : list (BaseProvider nat) :=
  [PipelineScenario.provider_with [] true].

(** Auto-select switched off. *)
Definition settings_no_select : Settings :=
  {| languages_list := ["en"; "nl"];
     subtitles_auto_select := false;
     subtitles_use_release_matching := true;
     subtitles_upgrade_on_perfect_match := true;
     subtitles_upgrade_on_popular := true;
     subtitles_popular_download_threshold := 100 |}.


End WebhookVariants.

(** Servers for the client of OpenSubtitles; the outside is a counter of
    the calls made. *)
Module ClientScenario.
Import Providers OpenSubtitles.

(** The calls take no time. *)
Definition clock (e : nat) : Q := 0.

Definition login_ok : M nat (option string) :=
  fun e => (S e, Ret (Some "fresh")).

Definition unauthorized : exn :=
  {| exn_cls := HTTPError;
     exn_msg := "401 Client Error: Unauthorized for url: /download" |}.

Definition unavailable : exn :=
  {| exn_cls := HTTPError;
     exn_msg := "503 Server Error: Service Unavailable for url: /download" |}.

Definition connection_lost : exn :=
  {| exn_cls := RequestException; exn_msg := "Connection aborted." |}.

(** The status in the response an error carries. *)
Definition status_of (e : exn) : option Z :=
  if String.prefix "401" (exn_msg e) then Some 401
  else if String.prefix "503" (exn_msg e) then Some 503
  else None.

(** The API refuses with [x], whatever is asked. *)
Definition refusing (x : exn)
  : string -> string -> option string -> option sent -> option sent ->
    M nat response :=
  fun _ _ _ _ _ e => (S e, Raise x).

(** The API gives a link. *)
Definition linking
  : string -> string -> option string -> option sent -> option sent ->
    M nat response :=
  fun _ _ _ _ _ e =>
    (S e, Ret {| json := Ret {| data := None; link := Some "https://dl/1" |} |}).

Definition get_ok : string -> M nat string := fun _ e => (S e, Ret "1").
Definition get_lost : string -> M nat string :=
  fun _ e => (S e, Raise connection_lost).
Definition write_ok : string -> string -> M nat unit := fun _ _ e => (S e, Ret tt).

(** A client that logged in a moment ago. *)
Definition logged_in : client nat :=
  {| net := 0%nat; token := Some "tok"; _token_expiry := 82800; calls := [] |}.

Definition subtitle : SubtitleResult :=
  {| sub_id := "7"; language := "en"; release := "Heat.1995.1080p.BluRay";
     filename := "Heat.srt"; download_url := None;
     download_params := Some (Some 7); is_perfect_match := false;
     provider := "opensubtitles"; score := 0; download_count := 10 |}.

End ClientScenario.

(* ===================================================================== *)
(** * Facts: paths *)
(* ===================================================================== *)

Module OsPathFacts.
Import OsPath.

Example dirname_of_media :
  dirname "/mnt/movies/Heat (1995)/Heat.1995.1080p.BluRay.x264-GRP.mkv"
  = "/mnt/movies/Heat (1995)".
Proof. reflexivity. Qed.

Example basename_of_media :
  basename "/mnt/movies/Heat (1995)/Heat.1995.1080p.BluRay.x264-GRP.mkv"
  = "Heat.1995.1080p.BluRay.x264-GRP.mkv".
Proof. reflexivity. Qed.

Example splitext_of_media :
  splitext "Heat.1995.1080p.BluRay.x264-GRP.mkv"
  = ("Heat.1995.1080p.BluRay.x264-GRP", ".mkv").
Proof. reflexivity. Qed.

Example splitext_leading_dot : splitext ".bashrc" = (".bashrc", "").
Proof. reflexivity. Qed.

Example splitext_dot_in_directory : splitext "a/b.c/d" = ("a/b.c/d", "").
Proof. reflexivity. Qed.

Example dirname_of_root_file : dirname "/a" = "/".
Proof. reflexivity. Qed.

Example dirname_double_slash : dirname "/a//b" = "/a".
Proof. reflexivity. Qed.

Example join_plain : join "/m" "Heat.en.srt" = "/m/Heat.en.srt".
Proof. reflexivity. Qed.

Example join_empty_directory : join "" "Heat.en.srt" = "Heat.en.srt".
Proof. reflexivity. Qed.

End OsPathFacts.

(* ===================================================================== *)
(** * Facts: Python strings *)
(* ===================================================================== *)

Module PyStrFacts.
Import PyStr.

Lemma prefix_iff (n h : string) :
  String.prefix n h = true <-> exists post, h = n +:+ post.
Proof.
  revert h; induction n as [|a n IH]; intros h; simpl.
  - split; [intros _; now exists h | intros _; now destruct h].
  - destruct h as [|b h].
    + split; [discriminate | intros [post Hp]; discriminate].
    + simpl. destruct (ascii_dec a b) as [->|Hne].
      * rewrite IH. split; intros [post Hp]; exists post.
        -- simpl. now rewrite Hp.
        -- simpl in Hp. now inversion Hp.
      * split; [discriminate|]. intros [post Hp]. simpl in Hp.
        inversion Hp. congruence.
Qed.

Lemma contains_iff (n h : string) :
  contains n h = true <-> substring_of n h.
Proof.
  unfold substring_of. induction h as [|c h IH].
  - cbn [contains]. rewrite orb_false_r, prefix_iff. split.
    + intros [post Hp]. now exists "", post.
    + intros [pre [post Hp]]. destruct pre; [|discriminate].
      now exists post.
  - cbn [contains]. rewrite orb_true_iff, prefix_iff, IH. split.
    + intros [[post Hp]|[pre [post Hp]]].
      * now exists "", post.
      * exists (String c pre), post. simpl. now rewrite Hp.
    + intros [pre [post Hp]]. destruct pre as [|c' pre].
      * left. now exists post.
      * right. simpl in Hp. inversion Hp. now exists pre, post.
Qed.

#[global] Instance substring_of_dec (n h : string) : Decision (substring_of n h).
Proof.
  destruct (contains n h) eqn:Hc.
  - left. now apply contains_iff.
  - right. intros Hs. apply contains_iff in Hs. congruence.
Defined.

Lemma upper_ascii_idemp (c : ascii) : upper_ascii (upper_ascii c) = upper_ascii c.
Proof.
  destruct c as [[] [] [] [] [] [] [] []]; reflexivity.
Qed.

Lemma upper_idemp (s : string) : upper (upper s) = upper s.
Proof.
  induction s as [|c s IH]; simpl; [reflexivity|].
  now rewrite upper_ascii_idemp, IH.
Qed.

End PyStrFacts.

(* ===================================================================== *)
(** * Facts: release matching *)
(* ===================================================================== *)

Module ReleaseMatcherFacts.
Import PyStr PyStrFacts ReleaseMatcher.

Lemma count_matches_from (combined : string) (groups : list string) (acc : nat) :
  fold_left (fun matches group =>
               if contains (upper group) combined then S matches else matches)
            groups acc
  = (acc + length (filter (fun g => substring_of (upper g) combined) groups))%nat.
Proof.
  revert acc; induction groups as [|g groups IH]; intros acc; simpl.
  - lia.
  - rewrite IH, filter_cons.
    destruct (contains (upper g) combined) eqn:Hc.
    + rewrite decide_True by now apply contains_iff.
      simpl. lia.
    + rewrite decide_False; [reflexivity|].
      intros Hs. apply contains_iff in Hs. congruence.
Qed.

Lemma count_matches_filter (combined : string) (groups : list string) :
  count_matches combined groups
  = length (filter (fun g => substring_of (upper g) combined) groups).
Proof. unfold count_matches. now rewrite count_matches_from. Qed.

Lemma filter_upper_tokens (combined : string) (fp : list string) :
  Forall is_upper fp ->
  filter (fun g => substring_of (upper g) combined) fp
  = filter (fun t => substring_of t combined) fp.
Proof.
  induction 1 as [|t fp Ht _ IH]; [reflexivity|].
  rewrite !filter_cons, IH. unfold is_upper in Ht. rewrite Ht.
  reflexivity.
Qed.





(** C6.  For a fingerprint of [n > 0] upper-case tokens of which [k] occur
    in the upper-cased text "label filename", the score is [k/n] and the
    perfect-match flag holds exactly when [k = n]; for the empty
    fingerprint the score is [0] and the flag is false, whatever the
    text. *)
Theorem calculate_match_score_spec (label fname : string) :
  calculate_match_score label fname [] = (0%Q, false)
  /\ forall (fp : list string) (k : nat),
      fp <> [] ->
      Forall is_upper fp ->
      length (filter (fun t => substring_of t (upper (label +:+ " " +:+ fname))) fp) = k ->
      fst (calculate_match_score label fname fp)
      = (Z.of_nat k # Pos.of_nat (length fp))%Q
      /\ (snd (calculate_match_score label fname fp) = true <-> k = length fp).
Proof.
  split; [reflexivity|].
  intros fp k Hne Hup Hk.
  destruct fp as [|t fp]; [congruence|].
  unfold calculate_match_score.
  rewrite count_matches_filter, (filter_upper_tokens _ _ Hup), Hk.
  cbn [fst snd]. split; [reflexivity|].
  rewrite andb_true_iff, Nat.eqb_eq, Nat.ltb_lt.
  simpl length. split; [tauto|]. intros ->. split; [reflexivity | lia].
Qed.

(** Two of the three tokens occur: score 2/3, not perfect. *)
Lemma calculate_match_score_spec_witness :
  fst (calculate_match_score "Heat.1995.1080p.WEB-DL.x264-GRP" "heat.en.srt"
                             ["GRP"; "1080P"; "BLURAY"])
  = (2 # 3)%Q
  /\ (snd (calculate_match_score "Heat.1995.1080p.WEB-DL.x264-GRP" "heat.en.srt"
                                 ["GRP"; "1080P"; "BLURAY"]) = true
      <-> 2%nat = 3%nat).
Proof.
  apply (proj2 (calculate_match_score_spec
                  "Heat.1995.1080p.WEB-DL.x264-GRP" "heat.en.srt")
               ["GRP"; "1080P"; "BLURAY"] 2%nat).
  - discriminate.
  - repeat constructor.
  - vm_compute. reflexivity.
Defined.

End ReleaseMatcherFacts.

(* ===================================================================== *)
(** * Facts: the retry policy *)
(* ===================================================================== *)

Module RetryFacts.
Import Retry.

Section Loop.
Context {St A : Type}.
Variable sleep : Q -> St -> St.
Variable max_retries : Z.
Variable base_delay : Q.
Variable exceptions : list exn_class.
Variable on_retry : option (Z -> Q -> exn -> St -> St).
Variable func : M St A.

Abbreviation attempts := (attempts sleep max_retries base_delay exceptions on_retry func).
Abbreviation retried := (retried sleep base_delay exceptions on_retry func).

(** [k] failed attempts consume [k] iterations of the loop. *)
Lemma attempts_retried (attempt : Z) (s s' : St) (k remaining : nat) :
  retried attempt s k s' ->
  attempt + Z.of_nat k < max_retries ->
  attempts (k + remaining) attempt s = attempts remaining (attempt + Z.of_nat k) s'.
Proof.
  induction 1 as [attempt s | attempt s s1 e k s' Hf He _ IH]; intros Hlt.
  - simpl. f_equal. lia.
  - cbn [Nat.add Retry.attempts]. rewrite Hf, He.
    destruct (Z.ltb_spec attempt (max_retries - 1)) as [_|Hge]; [|lia].
    unfold before_retry, backoff_delay. rewrite IH by lia.
    f_equal. lia.
Qed.

(** The attempt that follows [k] retried ones decides the result. *)
Lemma sync_wrapper_after (s s' : St) (k : nat) :
  retried 0 s k s' ->
  Z.of_nat k < max_retries ->
  sync_wrapper sleep max_retries base_delay exceptions on_retry func s
  = attempts (S (Z.to_nat max_retries - S k)) (Z.of_nat k) s'.
Proof.
  intros Hr Hlt. unfold sync_wrapper.
  replace (Z.to_nat max_retries)
    with (k + S (Z.to_nat max_retries - S k))%nat by lia.
  rewrite (attempts_retried 0 s s' k _ Hr) by lia.
  replace (k + S (Z.to_nat max_retries - S k) - S k)%nat
    with (Z.to_nat max_retries - S k)%nat by lia.
  reflexivity.
Qed.

End Loop.

(** C7.  The attempts are numbered from 0; after [k < max_retries]
    attempts that failed with a retryable error -- each followed by the
    callback, when given, and a wait of [base_delay * 2^i] -- the next
    attempt decides: its value is returned, an error that is not
    retryable propagates, and so does any error of attempt
    [max_retries - 1].  With three attempts and base delay 1, two
    failures then a success give two callbacks, with delays 1 and 2, and
    the successful value. *)
Theorem retry_with_backoff_spec :
  (forall (St A : Type) (sleep : Q -> St -> St) (max_retries : Z)
          (base_delay : Q) (exceptions : list exn_class)
          (on_retry : option (Z -> Q -> exn -> St -> St)) (func : M St A)
          (s s' s'' : St) (k : nat),
      retried sleep base_delay exceptions on_retry func 0 s k s' ->
      Z.of_nat k < max_retries ->
      (forall a, func s' = (s'', Ret a) ->
                 sync_wrapper sleep max_retries base_delay exceptions on_retry func s
                 = (s'', Ret a))
      /\ (forall e, func s' = (s'', Raise e) ->
                    isinstance e exceptions = false ->
                    sync_wrapper sleep max_retries base_delay exceptions on_retry func s
                    = (s'', Raise e))
      /\ (forall e, func s' = (s'', Raise e) ->
                    Z.of_nat k = max_retries - 1 ->
                    sync_wrapper sleep max_retries base_delay exceptions on_retry func s
                    = (s'', Raise e)))
  /\ sync_wrapper RetryScenario.test_sleep 3 1 [Exception]
                  (Some RetryScenario.on_retry) RetryScenario.fail_then_succeed
                  RetryScenario.start
     = ({| RetryScenario.call_count := 3;
           RetryScenario.callback_calls :=
             [(0, 1%Q, "Temporary failure"); (1, 2%Q, "Temporary failure")];
           RetryScenario.slept := [1%Q; 2%Q] |},
        Ret "success").
Proof.
  split; [|vm_compute; reflexivity].
  intros St A sleep max_retries base_delay exceptions on_retry func s s' s'' k Hr Hlt.
  rewrite (sync_wrapper_after _ _ _ _ _ _ _ _ _ Hr Hlt).
  cbn [attempts].
  repeat split.
  - intros a ->. reflexivity.
  - intros e -> ->. reflexivity.
  - intros e -> Hlast.
    destruct (isinstance e exceptions); [|reflexivity].
    destruct (Z.ltb_spec (Z.of_nat k) (max_retries - 1)); [lia | reflexivity].
Qed.

(** The first part at the test: two retried attempts, then the value. *)
Lemma retry_with_backoff_spec_witness :
  sync_wrapper RetryScenario.test_sleep 3 1 [Exception]
               (Some RetryScenario.on_retry) RetryScenario.fail_then_succeed
               RetryScenario.start
  = ({| RetryScenario.call_count := 3;
        RetryScenario.callback_calls :=
          [(0, 1%Q, "Temporary failure"); (1, 2%Q, "Temporary failure")];
        RetryScenario.slept := [1%Q; 2%Q] |},
     Ret "success").
Proof.
  refine (proj1 (proj1 retry_with_backoff_spec _ _ RetryScenario.test_sleep 3 1%Q
                  [Exception] (Some RetryScenario.on_retry)
                  RetryScenario.fail_then_succeed RetryScenario.start
                  {| RetryScenario.call_count := 2;
                     RetryScenario.callback_calls :=
                       [(0, 1%Q, "Temporary failure"); (1, 2%Q, "Temporary failure")];
                     RetryScenario.slept := [1%Q; 2%Q] |}
                  _ 2%nat _ _) "success" _).
  - eapply retried_more; [reflexivity | reflexivity |].
    eapply retried_more; [reflexivity | reflexivity |].
    apply retried_none.
  - simpl. lia.
  - reflexivity.
Defined.

(** C8, as the claim states it, fails: with [max_retries = 0] the policy
    of [test_max_retries_zero] is set up without an error. *)
Lemma zero_retries_not_rejected :
  ~ rejected_at_setup
      (retry_with_backoff RetryScenario.test_sleep 0 (1 # 100) [Exception] None
                          RetryScenario.never_called).
Proof. intros [e He]. discriminate He. Qed.

(** C8, amended.  A policy with [max_retries = 0] is accepted at setup;
    running the wrapped operation then leaves the state as it was, never
    calls the operation, and raises the runtime error of the loop. *)
Theorem zero_retries_raise_at_execution
    (St A : Type) (sleep : Q -> St -> St) (base_delay : Q)
    (exceptions : list exn_class)
    (on_retry : option (Z -> Q -> exn -> St -> St)) (func : M St A) :
  retry_with_backoff sleep 0 base_delay exceptions on_retry func
  = Ret (sync_wrapper sleep 0 base_delay exceptions on_retry func)
  /\ ~ rejected_at_setup
        (retry_with_backoff sleep 0 base_delay exceptions on_retry func)
  /\ forall s : St,
      sync_wrapper sleep 0 base_delay exceptions on_retry func s
      = (s, Raise loop_exited).
Proof.
  split; [reflexivity|]. split.
  - intros [e He]. discriminate He.
  - intros s. reflexivity.
Qed.

End RetryFacts.

(* ===================================================================== *)
(** * Facts: ranking *)
(* ===================================================================== *)

Module RankingFacts.
Import Ranking.

Lemma Qle_opp_iff (p q : Q) : (- p <= - q)%Q <-> (q <= p)%Q.
Proof. unfold Qle. simpl. lia. Qed.

(** [b]'s key is not below [a]'s exactly when [a] ranks no later. *)
Lemma key_lt_false_iff (a b : SubtitleResult) :
  key_lt (sort_key b) (sort_key a) = false <-> ranks_no_later a b.
Proof.
  unfold key_lt, sort_key, ranks_no_later, Qlt_bool.
  destruct (is_perfect_match a), (is_perfect_match b); simpl;
    try (split; [intros _; left; auto | reflexivity]);
    try (split; [discriminate | intros [[? ?]|[? _]]; discriminate]).
  all: destruct (Z.eqb_spec (- download_count b) (- download_count a)) as [Hd|Hd];
    simpl.
  all: try (rewrite negb_false_iff, Qle_bool_iff, Qle_opp_iff;
            split; [intros Hs; right; split; [reflexivity|]; right; split; [lia|exact Hs]
                   | intros [[? ?]|[_ [?|[_ Hs]]]]; [discriminate | lia | exact Hs]]).
  all: destruct (Z.ltb_spec (- download_count b) (- download_count a));
    split; try discriminate; try reflexivity;
    try (intros [[? ?]|[_ [?|[? _]]]]; [discriminate | lia | lia]);
    try (intros _; right; split; [reflexivity|]; left; lia).
Qed.

Lemma ranks_no_later_total (a b : SubtitleResult) :
  ranks_no_later a b \/ ranks_no_later b a.
Proof.
  unfold ranks_no_later.
  destruct (is_perfect_match a), (is_perfect_match b); auto.
  all: destruct (Z.lt_total (download_count a) (download_count b)) as [?|[?|?]];
    try (right; right; split; [reflexivity|]; left; lia);
    try (left; right; split; [reflexivity|]; left; lia).
  all: destruct (Qlt_le_dec (score a) (score b)) as [Hs|Hs];
    [ right; right; split; [reflexivity|]; right; split; [lia|];
      apply Qlt_le_weak, Hs
    | left; right; split; [reflexivity|]; right; split; [lia | exact Hs] ].
Qed.

Lemma ranks_no_later_trans (a b c : SubtitleResult) :
  ranks_no_later a b -> ranks_no_later b c -> ranks_no_later a c.
Proof.
  unfold ranks_no_later.
  intros [[Ha Hb]|[Hab Hd1]] [[Hb' Hc]|[Hbc Hd2]].
  - congruence.
  - left. split; congruence.
  - left. split; congruence.
  - right. split; [congruence|].
    destruct Hd1 as [?|[? Hs1]], Hd2 as [?|[? Hs2]];
      try (left; lia).
    right. split; [lia|]. eapply Qle_trans; eauto.
Qed.

(** A key below another ranks no later. *)
Lemma key_lt_true_no_later (a b : SubtitleResult) :
  key_lt (sort_key a) (sort_key b) = true -> ranks_no_later a b.
Proof.
  intros Hlt. destruct (ranks_no_later_total a b) as [H|H]; [exact H|].
  apply key_lt_false_iff in H. congruence.
Qed.

Lemma tied_no_later (a b : SubtitleResult) : tied a b -> ranks_no_later a b.
Proof.
  intros (Hp & Hd & Hs). right. split; [exact Hp|]. right. split; [exact Hd|].
  rewrite Hs. apply Qle_refl.
Qed.

Lemma tied_sym (a b : SubtitleResult) : tied a b -> tied b a.
Proof. intros (Hp & Hd & Hs). repeat split; auto. now symmetry. Qed.

Lemma tied_trans (a b c : SubtitleResult) : tied a b -> tied b c -> tied a c.
Proof.
  intros (Hp & Hd & Hs) (Hp' & Hd' & Hs'). repeat split; try congruence.
  now rewrite Hs.
Qed.

#[local] Arguments key_lt : simpl never.
#[local] Arguments sort_key : simpl never.

Section SortBy.
Context {X : Type}.
Variable proj : X -> SubtitleResult.

Abbreviation key := (fun x => sort_key (proj x)).
Abbreviation no_later := (fun x y => ranks_no_later (proj x) (proj y)).

Lemma insert_perm (x : X) (l : list X) : Permutation (insert key x l) (x :: l).
Proof.
  induction l as [|y l IH]; simpl; [reflexivity|].
  destruct (key_lt (sort_key (proj y)) (sort_key (proj x))); [|reflexivity].
  rewrite IH. apply perm_swap.
Qed.

Lemma sort_perm (l : list X) : Permutation (sort key l) l.
Proof.
  induction l as [|x l IH]; simpl; [reflexivity|].
  rewrite insert_perm. now constructor.
Qed.

Lemma insert_sorted (x : X) (l : list X) :
  StronglySorted no_later l -> StronglySorted no_later (insert key x l).
Proof.
  induction 1 as [|y l Hs IH Hy]; simpl.
  - repeat constructor.
  - destruct (key_lt (sort_key (proj y)) (sort_key (proj x))) eqn:Hlt.
    + constructor; [exact IH|].
      rewrite insert_perm. constructor; [|exact Hy].
      now apply key_lt_true_no_later.
    + apply key_lt_false_iff in Hlt.
      constructor; [now constructor|].
      constructor; [exact Hlt|].
      eapply Forall_impl; [exact Hy|].
      intros z Hz. eapply ranks_no_later_trans; eauto.
Qed.

Lemma sort_sorted (l : list X) : StronglySorted no_later (sort key l).
Proof.
  induction l as [|x l IH]; simpl; [constructor|].
  now apply insert_sorted.
Qed.

(** Insertion goes in front of every element tied with the new one. *)
Lemma insert_filter_tied (c : SubtitleResult) (x : X) (l : list X) :
  filter (fun y => tied c (proj y)) (insert key x l)
  = filter (fun y => tied c (proj y)) (x :: l).
Proof.
  induction l as [|y l IH]; simpl; [reflexivity|].
  destruct (key_lt (sort_key (proj y)) (sort_key (proj x))) eqn:Hlt;
    [|reflexivity].
  rewrite filter_cons, IH, !filter_cons.
  destruct (decide (tied c (proj y))) as [Hy|Hy]; [|reflexivity].
  destruct (decide (tied c (proj x))) as [Hx|Hx]; [|reflexivity].
  exfalso.
  assert (Hxy : ranks_no_later (proj x) (proj y)).
  { apply tied_no_later. eapply tied_trans; [apply tied_sym|]; eauto. }
  apply key_lt_false_iff in Hxy. congruence.
Qed.

Lemma sort_stable (c : SubtitleResult) (l : list X) :
  filter (fun y => tied c (proj y)) (sort key l)
  = filter (fun y => tied c (proj y)) l.
Proof.
  induction l as [|x l IH]; simpl; [reflexivity|].
  rewrite insert_filter_tied, !filter_cons, IH. reflexivity.
Qed.

Lemma insert_map (x : X) (l : list X) :
  List.map proj (insert key x l) = insert sort_key (proj x) (List.map proj l).
Proof.
  induction l as [|y l IH]; simpl; [reflexivity|].
  destruct (key_lt (sort_key (proj y)) (sort_key (proj x))); simpl; [now rewrite IH | reflexivity].
Qed.

(** Sorting the search results ranks their candidates. *)
Lemma sort_map (l : list X) : List.map proj (sort key l) = rank (List.map proj l).
Proof.
  unfold rank. induction l as [|x l IH]; simpl; [reflexivity|].
  now rewrite insert_map, IH.
Qed.

End SortBy.

Lemma sorted_lookup {X : Type} (R : X -> X -> Prop) (l : list X)
    (i j : nat) (a b : X) :
  StronglySorted R l -> l !! i = Some a -> l !! j = Some b -> (i < j)%nat -> R a b.
Proof.
  intros Hs; revert i j. induction Hs as [|x l _ IH Hx]; intros i j Hi Hj Hlt.
  - discriminate.
  - destruct j as [|j]; [lia|]. destruct i as [|i]; simpl in *.
    + inversion Hi; subst. eapply Forall_forall in Hx; [exact Hx|].
      eapply list_elem_of_lookup_2; eauto.
    + eapply IH; eauto. lia.
Qed.

(** C5.  The ranked list holds the same candidates, is ordered by
    perfect match first, then more downloads, then higher score -- an
    order that compares any two candidates --, keeps candidates the order
    does not tell apart as they were found, and so has every perfect
    match in front of every candidate that is not, whatever their
    downloads; of three candidates with downloads 5, 50, 5 of which the
    last is the perfect match, the perfect match comes first. *)
Theorem rank_spec (candidates : list SubtitleResult) :
  Permutation (rank candidates) candidates
  /\ StronglySorted ranks_no_later (rank candidates)
  /\ (forall a b, ranks_no_later a b \/ ranks_no_later b a)
  /\ (forall a b c, ranks_no_later a b -> ranks_no_later b c -> ranks_no_later a c)
  /\ (forall c, filter (tied c) (rank candidates) = filter (tied c) candidates)
  /\ (forall (i j : nat) (a b : SubtitleResult),
        rank candidates !! i = Some a ->
        rank candidates !! j = Some b ->
        is_perfect_match a = true ->
        is_perfect_match b = false ->
        (i < j)%nat)
  /\ rank [RankScenario.first_found; RankScenario.popular; RankScenario.perfect]
     = [RankScenario.perfect; RankScenario.popular; RankScenario.first_found].
Proof.
  unfold rank.
  split; [apply (sort_perm (fun r => r))|].
  split; [apply (sort_sorted (fun r => r))|].
  split; [apply ranks_no_later_total|].
  split; [apply ranks_no_later_trans|].
  split; [intros c; apply (sort_stable (fun r => r))|].
  split; [|vm_compute; reflexivity].
  intros i j a b Hi Hj Ha Hb.
  destruct (Nat.lt_trichotomy i j) as [Hlt|[Heq|Hgt]]; [exact Hlt| |].
  - subst j. congruence.
  - pose proof (sorted_lookup _ _ _ _ _ _ (sort_sorted (fun r => r) candidates)
                              Hj Hi Hgt) as Hr.
    destruct Hr as [[? ?]|[? _]]; congruence.
Qed.

(** The perfect match found last is ranked before the popular one. *)
Lemma rank_spec_witness :
  rank [RankScenario.first_found; RankScenario.popular; RankScenario.perfect] !! 0%nat
  = Some RankScenario.perfect
  /\ (0 < 1)%nat.
Proof.
  split; [reflexivity|].
  apply (proj1 (proj2 (proj2 (proj2 (proj2 (proj2
           (rank_spec [RankScenario.first_found; RankScenario.popular;
                       RankScenario.perfect]))))))
           0%nat 1%nat RankScenario.perfect RankScenario.popular);
    reflexivity.
Defined.

End RankingFacts.

(* ===================================================================== *)
(** * Facts: what a provider search yields *)
(* ===================================================================== *)

Module ProvidersFacts.
Import Providers.

Lemma result_of_api_flag (provider_name lang : string) (allowed : list string)
    (sub : api_subtitle) (r : SubtitleResult) :
  result_of_api provider_name lang allowed sub = Some r ->
  is_perfect_match r = false /\ score r = 0%Q.
Proof.
  unfold result_of_api.
  destruct (negb _); [discriminate|].
  destruct (default [] (attr_files sub)) as [|file_info files]; [discriminate|].
  intros Hr. inversion Hr; subst; simpl. split; reflexivity.
Qed.

(** Whatever the fingerprint, the candidates of a search carry the flag
    [False] and the score 0. *)
Lemma opensubtitles_search_flag (enabled : bool) (provider_name : string)
    (token : option string) (get_allowed_languages : string -> list string)
    (answer : outcome (list api_subtitle)) (lang : string)
    (release_groups : option (list string)) (fname : option string)
    (results : list SubtitleResult) (token' : option string) (r : SubtitleResult) :
  opensubtitles_search enabled provider_name token get_allowed_languages answer
                       lang release_groups fname = Ret (results, token') ->
  r ∈ results ->
  is_perfect_match r = false /\ score r = 0%Q.
Proof.
  unfold opensubtitles_search.
  destruct enabled; cbn [negb].
  - destruct answer as [[|sub subs]|e]; [| |discriminate].
    + intros [= <- <-] Hin. inversion Hin.
    + remember (sub :: subs) as l eqn:El.
      intros [= <- <-] Hin. apply list_elem_of_omap in Hin.
      destruct Hin as (s & _ & Hs). eapply result_of_api_flag; eauto.
  - intros [= <- <-] Hin. inversion Hin.
Qed.

(** C1 at a failing input.  Both tokens of the fingerprint [GRP], [1080P]
    occur in the upper-cased release label and file name of the
    candidate the search yields -- the matcher calls it a perfect match --
    and the candidate enters ranking with the flag [False]. *)
Theorem search_drops_perfect_match :
  opensubtitles_search true "opensubtitles" (Some "token")
                       SearchScenario.get_allowed_languages
                       (Ret SearchScenario.answer) "en"
                       (Some SearchScenario.fingerprint)
                       (Some "Heat.1995.1080p.BluRay.x264-GRP")
  = Ret ([SearchScenario.found], Some "token")
  /\ is_perfect_match SearchScenario.found = false
  /\ ReleaseMatcher.calculate_match_score
       (release SearchScenario.found) (filename SearchScenario.found)
       SearchScenario.fingerprint
     = ((2 # 2)%Q, true).
Proof. repeat split; vm_compute; reflexivity. Qed.

End ProvidersFacts.

(* ===================================================================== *)
(** * Facts: the acquisition pipeline *)
(* ===================================================================== *)

Module ManagerFacts.
Import SubtitleManager PyStr.

(** Unfold the plumbing of the effect monad and of the world. *)
Ltac run :=
  cbv [bind ret raise try_except modify gets external
       provider_download provider_search verify_language os_remove
       emit with_ext with_files sleep];
  cbn [ext files trace].

(** Every class derives from [Exception]. *)
Lemma isinstance_Exception (e : exn) : isinstance e [Exception] = true.
Proof. destruct e as [[] m]; reflexivity. Qed.

Lemma truthy_app_r (s t : string) : truthy t = true -> truthy (s +:+ t) = true.
Proof. destruct s; simpl; [trivial | reflexivity]. Qed.

Lemma join_truthy (a b : string) : truthy b = true -> truthy (OsPath.join a b) = true.
Proof.
  intros Hb. unfold OsPath.join.
  destruct (startswith "/" b); [exact Hb|].
  destruct (negb (truthy a) || endswith_slash a);
    repeat apply truthy_app_r; exact Hb.
Qed.

Section Probe.
Variable settings : Settings.

Lemma first_existing_truthy (fs : gset string) (d n lang p : string) :
  first_existing fs d n lang = Some p -> truthy p = true.
Proof.
  unfold first_existing. intros Hf. apply find_some in Hf.
  destruct Hf as [Hin _]. apply in_map_iff in Hin.
  destruct Hin as (ext & <- & Hext).
  apply join_truthy. repeat apply truthy_app_r.
  unfold SUBTITLE_EXTENSIONS in Hext. simpl in Hext.
  destruct Hext as [<-|[<-|[<-|[<-|[]]]]]; reflexivity.
Qed.

Lemma existing_fold_truthy (fs : gset string) (d n : string)
    (langs : list string) (m : gmap string string) :
  map_Forall (fun _ p => truthy p = true) m ->
  map_Forall (fun _ p => truthy p = true)
    (fold_left (fun existing lang =>
                  match first_existing fs d n lang with
                  | Some path => <[lang := path]> existing
                  | None => existing
                  end) langs m).
Proof.
  revert m; induction langs as [|lang langs IH]; intros m Hm; simpl;
    [exact Hm|].
  apply IH. destruct (first_existing fs d n lang) as [p|] eqn:Hp; [|exact Hm].
  apply map_Forall_insert_2; [|exact Hm].
  eapply first_existing_truthy; eauto.
Qed.

(** The paths the probe reports are never empty. *)
Lemma existing_in_truthy (fs : gset string) (d n lang : string) :
  existing_in settings fs d n !! lang <> Some "".
Proof.
  intros Hl.
  assert (H : map_Forall (fun _ p => truthy p = true) (existing_in settings fs d n)).
  { apply existing_fold_truthy. apply map_Forall_empty. }
  specialize (H _ _ Hl). discriminate H.
Qed.

End Probe.

End ManagerFacts.

(* ===================================================================== *)
(** * Facts: the retried download and verification *)
(* ===================================================================== *)

Module DownloadFacts.
Import SubtitleManager PyStr ManagerFacts.

Section Unit.
Context {E : Type}.
Variable collab : Collaborators E.
Variable p : BaseProvider E.
Variable subtitle : SubtitleResult.
Variable output_path : string.
Variable token : option string.
Variable lang : string.

Abbreviation once := (download_and_verify_once collab p subtitle output_path token lang).
Abbreviation wrapped := (_download_and_verify collab p subtitle output_path token lang).

(** A first attempt that returns ends the wrapper with that value. *)
Lemma wrapped_returns (w w1 : world E) (b : bool) :
  once w = (w1, Ret b) -> wrapped w = (w1, Ret b).
Proof.
  intros H. unfold _download_and_verify, Retry.sync_wrapper.
  change (Z.to_nat 3) with 3%nat. cbn [Retry.attempts].
  rewrite H. reflexivity.
Qed.

(** A first attempt that raises is followed by a wait of one second and
    the two attempts that are left. *)
Lemma wrapped_retries (w w1 : world E) (e : exn) :
  once w = (w1, Raise e) ->
  wrapped w
  = Retry.attempts sleep 3 Retry.DEFAULT_BASE_RETRY_DELAY [Exception] None once
                   2 1 (emit (EvSleep 1) w1).
Proof.
  intros H. unfold _download_and_verify, Retry.sync_wrapper.
  change (Z.to_nat 3) with 3%nat. cbn [Retry.attempts].
  rewrite H, isinstance_Exception. reflexivity.
Qed.

(** A download that answers [False]: nothing is verified. *)
Lemma once_download_false (w : world E) (e' : E) :
  download p subtitle output_path token (ext w) = (e', Ret false) ->
  once w
  = ({| ext := e'; files := files w;
        trace := trace w ++ [EvDownload (name p) (sub_id subtitle) output_path] |},
     Ret false).
Proof.
  intros H. unfold download_and_verify_once. run. rewrite H. reflexivity.
Qed.

(** A saved file the detector rejects is removed, and the attempt
    raises. *)
Lemma once_verification_fails (w : world E) (e' : E) :
  download p subtitle output_path token (ext w) = (e', Ret true) ->
  language_ok collab output_path lang e' = false ->
  remove_denied collab output_path e' = None ->
  once w
  = ({| ext := e';
        files := ({[output_path]} ∪ files w) ∖ {[output_path]};
        trace := trace w ++ [EvDownload (name p) (sub_id subtitle) output_path;
                             EvVerify output_path lang;
                             EvRemove output_path] |},
     Raise verification_failed).
Proof.
  intros Hd Hl Hr. unfold download_and_verify_once. run. rewrite Hd.
  cbn [negb ext files trace].
  rewrite bool_decide_eq_true_2 by set_solver.
  rewrite Hl. cbn [negb ext files trace].
  rewrite bool_decide_eq_true_2 by set_solver.
  cbn [ext files trace]. rewrite Hr. rewrite <- !app_assoc. reflexivity.
Qed.

End Unit.

(** C10.  In the retried unit a download that answers [False] ends the
    unit with [False] after that one call, with no wait and no second
    attempt; a first attempt that returns is never retried, one that
    raises is followed by a wait and the remaining attempts; a failed
    verification removes the file and raises.  With a detector that
    rejects every file the unit downloads three times, waiting 1 and 2
    seconds in between; with a provider that answers [False] it
    downloads once. *)
Theorem download_false_is_not_retried :
  (forall (E : Type) (collab : Collaborators E) (p : BaseProvider E)
          (subtitle : SubtitleResult) (output_path : string)
          (token : option string) (lang : string) (w : world E),
      (forall e',
          download p subtitle output_path token (ext w) = (e', Ret false) ->
          _download_and_verify collab p subtitle output_path token lang w
          = ({| ext := e'; files := files w;
                trace := trace w ++ [EvDownload (name p) (sub_id subtitle) output_path] |},
             Ret false))
      /\ (forall w1 b,
            download_and_verify_once collab p subtitle output_path token lang w
            = (w1, Ret b) ->
            _download_and_verify collab p subtitle output_path token lang w
            = (w1, Ret b))
      /\ (forall w1 e,
            download_and_verify_once collab p subtitle output_path token lang w
            = (w1, Raise e) ->
            _download_and_verify collab p subtitle output_path token lang w
            = Retry.attempts sleep 3 Retry.DEFAULT_BASE_RETRY_DELAY [Exception] None
                (download_and_verify_once collab p subtitle output_path token lang)
                2 1 (emit (EvSleep 1) w1))
      /\ (forall e',
            download p subtitle output_path token (ext w) = (e', Ret true) ->
            language_ok collab output_path lang e' = false ->
            remove_denied collab output_path e' = None ->
            download_and_verify_once collab p subtitle output_path token lang w
            = ({| ext := e';
                  files := ({[output_path]} ∪ files w) ∖ {[output_path]};
                  trace := trace w ++ [EvDownload (name p) (sub_id subtitle) output_path;
                                       EvVerify output_path lang;
                                       EvRemove output_path] |},
               Raise verification_failed)))
  /\ (let r := _download_and_verify PipelineScenario.collab_rejecting
                 (PipelineScenario.provider_with [] true)
                 (PipelineScenario.candidate "7" true 7)
                 PipelineScenario.new_subtitle (Some "token") "en"
                 PipelineScenario.start_empty in
      snd r = Raise verification_failed
      /\ trace (fst r)
         = [EvDownload "opensubtitles" "7" "/m/Heat.en.srt";
            EvVerify "/m/Heat.en.srt" "en"; EvRemove "/m/Heat.en.srt";
            EvSleep 1;
            EvDownload "opensubtitles" "7" "/m/Heat.en.srt";
            EvVerify "/m/Heat.en.srt" "en"; EvRemove "/m/Heat.en.srt";
            EvSleep 2;
            EvDownload "opensubtitles" "7" "/m/Heat.en.srt";
            EvVerify "/m/Heat.en.srt" "en"; EvRemove "/m/Heat.en.srt"])
  /\ (let r := _download_and_verify PipelineScenario.collab
                 (PipelineScenario.provider_with [] false)
                 (PipelineScenario.candidate "7" true 7)
                 PipelineScenario.new_subtitle (Some "token") "en"
                 PipelineScenario.start_empty in
      snd r = Ret false
      /\ trace (fst r) = [EvDownload "opensubtitles" "7" "/m/Heat.en.srt"]).
Proof.
  split; [|split; vm_compute; split; reflexivity].
  intros E collab p subtitle output_path token lang w.
  split; [|split; [|split]].
  - intros e' Hd. apply wrapped_returns. now apply once_download_false.
  - intros w1 b. apply wrapped_returns.
  - intros w1 e. apply wrapped_retries.
  - intros e'. apply once_verification_fails.
Qed.

(** The first part at the provider that answers [False]. *)
Lemma download_false_is_not_retried_witness :
  _download_and_verify PipelineScenario.collab
    (PipelineScenario.provider_with [] false)
    (PipelineScenario.candidate "7" true 7)
    PipelineScenario.new_subtitle (Some "token") "en"
    PipelineScenario.start_empty
  = ({| ext := 1%nat; files := files PipelineScenario.start_empty;
        trace := trace PipelineScenario.start_empty
                 ++ [EvDownload "opensubtitles" "7" PipelineScenario.new_subtitle] |},
     Ret false).
Proof.
  apply (proj1 (proj1 download_false_is_not_retried nat PipelineScenario.collab
                  (PipelineScenario.provider_with [] false)
                  (PipelineScenario.candidate "7" true 7)
                  PipelineScenario.new_subtitle (Some "token") "en"
                  PipelineScenario.start_empty) 1%nat).
  reflexivity.
Defined.

End DownloadFacts.

(* ===================================================================== *)
(** * Facts: replacing an existing subtitle *)
(* ===================================================================== *)

Module ReplaceFacts.
Import SubtitleManager PyStr ManagerFacts.

(** C3.  After the first successful download and verification the
    attempt reports success with the output path, the language and the
    provider, and with [upgraded] true exactly when an existing file was
    present and the candidate is a perfect match.  The old file is
    removed -- one call, whose error is swallowed -- exactly when it
    existed, its path differs from the output path and the candidate is
    a perfect match; otherwise the world is left as the download left
    it. *)
Theorem first_success_replaces_old_file
    (E : Type) (collab : Collaborators E) (p : BaseProvider E)
    (subtitle : SubtitleResult) (output_path : string) (token : option string)
    (lang : string) (existing_path : option string) (w w1 : world E) :
  existing_path <> Some "" ->
  _download_and_verify collab p subtitle output_path token lang w = (w1, Ret true) ->
  exists (w2 : world E) (upgraded : bool),
    _download_with_retry collab p subtitle output_path token lang existing_path w
    = (w2, Ret (Downloaded output_path lang (to_plex_language_code collab lang)
                           (name p) upgraded))
    /\ (upgraded = true <-> is_Some existing_path /\ is_perfect_match subtitle = true)
    /\ ext w2 = ext w1
    /\ ((exists old,
            existing_path = Some old /\ old <> output_path
            /\ is_perfect_match subtitle = true
            /\ trace w2 = (trace w1 ++ [EvRemove old])%list
            /\ files w2 = match remove_denied collab old (ext w1) with
                          | None => files w1 ∖ {[old]}
                          | Some _ => files w1
                          end)
        \/ ((~ exists old,
                existing_path = Some old /\ old <> output_path
                /\ is_perfect_match subtitle = true)
            /\ w2 = w1)).
Proof.
  intros Hne Hok. unfold _download_with_retry.
  cbv [bind try_except ret]. rewrite Hok.
  destruct existing_path as [old|].
  - assert (Ht : truthy old = true) by (destruct old; [congruence | reflexivity]).
    rewrite Ht. cbn [andb].
    destruct (String.eqb_spec old output_path) as [Heq|Hneq]; cbn [negb andb].
    + exists w1, (is_perfect_match subtitle). split; [reflexivity|].
      split; [split; [intros ->; split; [eauto | reflexivity] | tauto]|].
      split; [reflexivity|]. right. split; [|reflexivity].
      intros (old' & [= <-] & Hd & _). congruence.
    + destruct (is_perfect_match subtitle) eqn:Hpm.
      * run. destruct (bool_decide (old ∈ files w1)) eqn:Hin.
        -- destruct (remove_denied collab old (ext w1)) as [e|] eqn:Hden.
           ++ eexists _, true. split; [reflexivity|].
              split; [split; [intros _; split; [eauto | reflexivity] | reflexivity]|].
              split; [reflexivity|]. left. exists old. cbn [ext files trace].
              rewrite Hden. repeat split; auto.
           ++ eexists _, true. split; [reflexivity|].
              split; [split; [intros _; split; [eauto | reflexivity] | reflexivity]|].
              split; [reflexivity|]. left. exists old. cbn [ext files trace].
              rewrite Hden. repeat split; auto.
        -- eexists _, true. split; [reflexivity|].
           split; [split; [intros _; split; [eauto | reflexivity] | reflexivity]|].
           split; [reflexivity|]. left. exists old. cbn [ext files trace].
           apply bool_decide_eq_false in Hin.
           repeat split; auto.
           destruct (remove_denied collab old (ext w1)); [reflexivity|].
           apply leibniz_equiv. intros x.
           rewrite elem_of_difference, elem_of_singleton.
           split; [intros Hx; split; [exact Hx | intros ->; contradiction] | tauto].
      * exists w1, false. split; [reflexivity|].
        split; [split; [discriminate | intros [_ ?]; congruence]|].
        split; [reflexivity|]. right. split; [|reflexivity].
        intros (old' & _ & _ & ?). congruence.
  - exists w1, false. split; [reflexivity|].
    split; [split; [discriminate | intros [[? ?] _]; discriminate]|].
    split; [reflexivity|]. right. split; [|reflexivity].
    intros (old' & ? & _). discriminate.
Qed.

(** A perfect match replaces the old subtitle of the scenario. *)
Lemma first_success_replaces_old_file_witness :
  exists (w2 : world nat) (upgraded : bool),
    _download_with_retry PipelineScenario.collab
      (PipelineScenario.provider_with [] true)
      (PipelineScenario.candidate "7" true 7)
      PipelineScenario.new_subtitle (Some "token") "en"
      (Some PipelineScenario.old_subtitle) PipelineScenario.start
    = (w2, Ret (Downloaded PipelineScenario.new_subtitle "en" "eng"
                           "opensubtitles" upgraded))
    /\ (upgraded = true
        <-> is_Some (Some PipelineScenario.old_subtitle)
            /\ is_perfect_match (PipelineScenario.candidate "7" true 7) = true).
Proof.
  destruct (first_success_replaces_old_file nat PipelineScenario.collab
              (PipelineScenario.provider_with [] true)
              (PipelineScenario.candidate "7" true 7)
              PipelineScenario.new_subtitle (Some "token") "en"
              (Some PipelineScenario.old_subtitle) PipelineScenario.start
              (fst (_download_and_verify PipelineScenario.collab
                      (PipelineScenario.provider_with [] true)
                      (PipelineScenario.candidate "7" true 7)
                      PipelineScenario.new_subtitle (Some "token") "en"
                      PipelineScenario.start)))
    as (w2 & upgraded & Hrun & Hup & _).
  - discriminate.
  - vm_compute. reflexivity.
  - exists w2, upgraded. split; [exact Hrun | exact Hup].
Defined.

(** A candidate that is not a perfect match is never reported as an
    upgrade, whatever the download did. *)
Lemma not_perfect_never_upgraded
    (E : Type) (collab : Collaborators E) (p : BaseProvider E)
    (subtitle : SubtitleResult) (output_path : string) (token : option string)
    (lang : string) (existing_path : option string) (w w' : world E) (r : result) :
  is_perfect_match subtitle = false ->
  _download_with_retry collab p subtitle output_path token lang existing_path w
  = (w', Ret r) ->
  upgraded_of r <> Some true.
Proof.
  intros Hpm. unfold _download_with_retry. cbv [bind try_except ret].
  destruct (_download_and_verify collab p subtitle output_path token lang w)
    as [w1 [[|]|e]].
  - rewrite Hpm.
    destruct existing_path as [old|]; rewrite ?andb_false_r;
      intros [= _ <-]; discriminate.
  - intros [= _ <-]; discriminate.
  - intros [= _ <-]; discriminate.
Qed.

Lemma SubtitleResult_eqb_refl (r : SubtitleResult) : SubtitleResult_eqb r r = true.
Proof.
  unfold SubtitleResult_eqb.
  rewrite !bool_decide_eq_true_2 by reflexivity.
  rewrite Bool.eqb_reflx, Z.eqb_refl. cbn [andb].
  rewrite andb_true_r. apply Qeq_bool_iff. reflexivity.
Qed.

Lemma existsb_perfect_false {X : Type} (proj : X -> SubtitleResult) (l : list X) :
  Forall (fun x => is_perfect_match (proj x) = false) l ->
  existsb (fun x => is_perfect_match (proj x)) l = false.
Proof.
  induction 1 as [|x l Hx _ IH]; simpl; [reflexivity|]. now rewrite Hx, IH.
Qed.

(** C2 at a failing input.  An old subtitle [/m/Heat.en.ass] exists, the
    one candidate has 150 downloads and is not a perfect match, upgrades
    to popular subtitles are on with threshold 100, and the download
    succeeds: the top candidate is downloaded, the new file is written
    and success is reported -- with [upgraded] false, and with the old
    file neither removed nor asked to be. *)
Theorem popular_upgrade_keeps_old_file :
  let r := download_subtitles PipelineScenario.settings PipelineScenario.collab
             [PipelineScenario.provider_with
                [PipelineScenario.candidate "150" false 150] true]
             PipelineScenario.media_path "Heat" (Some 1995) None (Some "42")
             PipelineScenario.start in
  snd r = Ret (Downloaded "/m/Heat.en.srt" "en" "eng" "opensubtitles" false)
  /\ trace (fst r)
     = [EvSearch "opensubtitles" "en";
        EvDownload "opensubtitles" "150" "/m/Heat.en.srt";
        EvVerify "/m/Heat.en.srt" "en"]
  /\ elements (files (fst r)) = ["/m/Heat.en.srt"; "/m/Heat.en.ass"].
Proof. vm_compute. repeat split; reflexivity. Qed.

(** The same for every run of the popular-upgrade mode: with an existing
    subtitle, no perfect match among the candidates found and the
    top-ranked candidate at or above the threshold, a successful download
    and verification of the top candidate ends the acquisition with
    [upgraded] false and the world as the download left it. *)
Lemma popular_upgrade_downloads_top
    (E : Type) (settings : Settings) (collab : Collaborators E)
    (providers : list (BaseProvider E))
    (media_dir media_name title : string) (year : option Z)
    (imdb_id : option string) (lang : string)
    (release_groups : option (list string)) (old : string)
    (w w0 w1 : world E)
    (found rest : list (BaseProvider E * SubtitleResult * option string))
    (p : BaseProvider E) (best : SubtitleResult) (token : option string) :
  truthy old = true ->
  subtitles_upgrade_on_popular settings = true ->
  search_all providers title year imdb_id lang release_groups media_name w
  = (w0, Ret found) ->
  Ranking.sort (fun x => Ranking.sort_key (snd (fst x))) found
  = (p, best, token) :: rest ->
  Forall (fun x => is_perfect_match (snd (fst x)) = false) found ->
  subtitles_popular_download_threshold settings <= download_count best ->
  _download_and_verify collab p best
    (OsPath.join media_dir (media_name +:+ "." +:+ lang +:+ ".srt")) token lang w0
  = (w1, Ret true) ->
  _try_download settings collab providers media_dir media_name title year
                imdb_id lang release_groups (Some old) w
  = (w1, Ret (Downloaded
                (OsPath.join media_dir (media_name +:+ "." +:+ lang +:+ ".srt"))
                lang (to_plex_language_code collab lang) (name p) false)).
Proof.
  intros Hold Hpop Hsearch Hsort Hnone Hthr Hdl.
  assert (Hsorted : Forall (fun x => is_perfect_match (snd (fst x)) = false)
                           ((p, best, token) :: rest)).
  { rewrite <- Hsort.
    eapply Permutation_Forall; [|exact Hnone].
    symmetry. apply (RankingFacts.sort_perm (fun x => snd (fst x))). }
  assert (Hbest : is_perfect_match best = false)
    by (inversion Hsorted; assumption).
  unfold _try_download. cbv [bind]. rewrite Hsearch, Hsort.
  rewrite (existsb_perfect_false (fun x => snd (fst x)) _ Hsorted).
  cbn [truthy_opt]. rewrite Hold, Hpop. cbn [negb andb].
  destruct (Z.leb_spec (subtitles_popular_download_threshold settings)
                       (download_count best)) as [_|Hlt]; [|lia].
  cbn [negb andb download_in_order].
  unfold skipped. cbn [truthy_opt]. rewrite Hold, Hbest, Hpop.
  rewrite SubtitleResult_eqb_refl. cbn [negb andb].
  unfold _download_with_retry. cbv [bind try_except ret].
  rewrite Hdl, Hold, Hbest. rewrite !andb_false_r. reflexivity.
Qed.

(** The general statement at the scenario. *)
Lemma popular_upgrade_downloads_top_scenario :
  exists w1 : world nat,
    _try_download PipelineScenario.settings PipelineScenario.collab
      [PipelineScenario.provider_with
         [PipelineScenario.candidate "150" false 150] true]
      "/m" "Heat" "Heat" (Some 1995) None "en" (Some [])
      (Some PipelineScenario.old_subtitle) PipelineScenario.start
    = (w1, Ret (Downloaded "/m/Heat.en.srt" "en" "eng" "opensubtitles" false))
    /\ trace w1
       = [EvSearch "opensubtitles" "en";
          EvDownload "opensubtitles" "150" "/m/Heat.en.srt";
          EvVerify "/m/Heat.en.srt" "en"].
Proof.
  eexists. split.
  - apply (popular_upgrade_downloads_top nat PipelineScenario.settings
             PipelineScenario.collab
             [PipelineScenario.provider_with
                [PipelineScenario.candidate "150" false 150] true]
             "/m" "Heat" "Heat" (Some 1995) None "en" (Some [])
             PipelineScenario.old_subtitle PipelineScenario.start
             {| ext := 1%nat; files := {[PipelineScenario.old_subtitle]};
                trace := [EvSearch "opensubtitles" "en"] |}
             _
             [(PipelineScenario.provider_with
                 [PipelineScenario.candidate "150" false 150] true,
               PipelineScenario.candidate "150" false 150, Some "token")]
             []
             (PipelineScenario.provider_with
                [PipelineScenario.candidate "150" false 150] true)
             (PipelineScenario.candidate "150" false 150) (Some "token")).
    + reflexivity.
    + reflexivity.
    + reflexivity.
    + reflexivity.
    + repeat constructor.
    + vm_compute. discriminate.
    + reflexivity.
  - reflexivity.
Defined.

(** C4.  When the first configured language has a subtitle beside the
    film and release matching or the perfect-match upgrade is off, the
    pipeline answers [{success: False, existing: path}] and leaves the
    world as it found it: no event is added to the trace, so no provider
    is searched, for any language. *)
Theorem primary_language_kept
    (E : Type) (settings : Settings) (collab : Collaborators E)
    (providers : list (BaseProvider E))
    (media_path title : string) (year : option Z)
    (imdb_id rating_key : option string) (w : world E)
    (first_lang : string) (others : list string) (path : string) :
  languages_list settings = first_lang :: others ->
  existing_in settings (files w) (OsPath.dirname media_path)
              (fst (OsPath.splitext (OsPath.basename media_path))) !! first_lang
  = Some path ->
  subtitles_use_release_matching settings = false
  \/ subtitles_upgrade_on_perfect_match settings = false ->
  download_subtitles settings collab providers media_path title year imdb_id
                     rating_key w
  = (w, Ret (NotDownloaded (Some path))).
Proof.
  intros Hlangs Hex Hoff. unfold download_subtitles. rewrite Hlangs.
  unfold _get_existing_subtitles. cbv [bind gets ret].
  unfold _should_skip_first_language. rewrite Hex.
  destruct (subtitles_use_release_matching settings) eqn:Hrm; cbn [negb];
    [|reflexivity].
  destruct Hoff as [Hoff|Hoff]; [discriminate|].
  cbn [try_languages Nat.eqb]. unfold _should_skip_language_check.
  rewrite Hex, Hrm, Hoff. reflexivity.
Qed.

(** The scenario with release matching off: the old subtitle is kept and
    nothing is searched. *)
Lemma primary_language_kept_witness :
  download_subtitles PipelineScenario.settings_no_matching PipelineScenario.collab
    [PipelineScenario.provider_with [PipelineScenario.candidate "7" true 7] true]
    PipelineScenario.media_path "Heat" (Some 1995) None (Some "42")
    PipelineScenario.start
  = (PipelineScenario.start, Ret (NotDownloaded (Some PipelineScenario.old_subtitle))).
Proof.
  apply (primary_language_kept nat PipelineScenario.settings_no_matching
           PipelineScenario.collab
           [PipelineScenario.provider_with [PipelineScenario.candidate "7" true 7] true]
           PipelineScenario.media_path "Heat" (Some 1995) None (Some "42")
           PipelineScenario.start "en" ["nl"]).
  - reflexivity.
  - vm_compute. reflexivity.
  - left. reflexivity.
Defined.

End ReplaceFacts.

(* ===================================================================== *)
(** * Facts: activation after a download *)
(* ===================================================================== *)

Module WebhookFacts.
Import Webhook PyStr ManagerFacts.

Section Activation.
Context {E : Type}.
Variable settings : Settings.
Variable collab : Collaborators E.
Variable providers : list (BaseProvider E).
Variable plex : PlexClient E.
Variable json_loads : string -> option payload.

(** Three refused attempts: the retried call gives up after the third,
    having waited 3 and 6 seconds. *)
Lemma session_attempts_exhausted (rating_key code : string) (w : world E)
    (e1 e2 e3 : E) :
  set_active_session_subtitle plex rating_key code (ext w) = (e1, false) ->
  set_active_session_subtitle plex rating_key code e1 = (e2, false) ->
  set_active_session_subtitle plex rating_key code e2 = (e3, false) ->
  _try_set_session_subtitle_with_retry plex rating_key code w
  = ({| ext := e3; files := files w;
        trace := trace w ++ [EvSetSession rating_key code; EvSleep 3;
                             EvSetSession rating_key code; EvSleep 6;
                             EvSetSession rating_key code] |},
     Ret false).
Proof.
  intros H1 H2 H3.
  unfold _try_set_session_subtitle_with_retry, _try_set_session_subtitle,
    Retry.sync_wrapper, MAX_SESSION_RETRIES.
  change (Z.to_nat 3) with 3%nat.
  cbv [try_except Retry.attempts Retry.before_retry Retry.backoff_delay
       set_session_subtitle_once plex_call].
  run. rewrite H1. cbn [negb ext files trace].
  rewrite isinstance_Exception. cbn [Z.ltb Z.sub Z.add Z.compare Z.opp
    Z.pos_sub Pos.compare Pos.compare_cont Pos.pred_double Z.succ_double
    Z.pred_double Z.double].
  cbn [ext files trace]. rewrite H2. cbn [negb ext files trace].
  rewrite isinstance_Exception. cbn [Z.ltb Z.sub Z.add Z.compare Z.opp
    Z.pos_sub Pos.compare Pos.compare_cont Pos.pred_double Z.succ_double
    Z.pred_double Z.double Pos.add Pos.succ].
  cbn [ext files trace]. rewrite H3. cbn [negb ext files trace].
  rewrite isinstance_Exception. cbn [Z.ltb Z.sub Z.add Z.compare Z.opp
    Z.pos_sub Pos.compare Pos.compare_cont Pos.pred_double Z.succ_double
    Z.pred_double Z.double Pos.add Pos.succ].
  rewrite <- !app_assoc. reflexivity.
Qed.

Lemma after_download_falls_back (rating_key path lang code prov : string)
    (upgraded : bool) (w : world E) (e0 e1 e2 e3 e4 : E)
    (refreshed default_set : bool) :
  subtitles_auto_select settings = true ->
  refresh_metadata plex rating_key (ext w) = (e0, refreshed) ->
  set_active_session_subtitle plex rating_key code e0 = (e1, false) ->
  set_active_session_subtitle plex rating_key code e1 = (e2, false) ->
  set_active_session_subtitle plex rating_key code e2 = (e3, false) ->
  set_subtitle_stream plex rating_key code e3 = (e4, default_set) ->
  after_download settings plex rating_key
                 (Downloaded path lang code prov upgraded) w
  = ({| ext := e4; files := files w;
        trace := trace w
                 ++ [EvRefresh rating_key;
                     EvSetSession rating_key code; EvSleep 3;
                     EvSetSession rating_key code; EvSleep 6;
                     EvSetSession rating_key code;
                     EvSetDefault rating_key code]
                 ++ (if default_set then []
                     else [EvWarning default_stream_warning]) |},
     Ret (StatusSuccess path lang prov upgraded, 200)).
Proof.
  intros Hauto Hr H1 H2 H3 Hd.
  unfold after_download. rewrite Hauto.
  cbv [bind plex_call modify external emit with_ext]. cbn [ext files trace].
  rewrite Hr. cbn [ext files trace].
  rewrite (session_attempts_exhausted rating_key code
             {| ext := e0; files := files w;
                trace := trace w ++ [EvRefresh rating_key] |}
             e1 e2 e3 H1 H2 H3).
  cbn [negb ext files trace]. rewrite Hd.
  destruct default_set; cbv [ret]; cbn [ext files trace];
    rewrite <- !app_assoc; reflexivity.
Qed.

(** A play event with a rating key and a media file reaches the
    download, and the handler answers what follows the download. *)
Lemma handle_event_downloads (payload_str ev rating_key fp : string)
    (pl : payload) (info : MediaInfo) (w w1 w2 : world E) (e' : E)
    (r : result) (response : body * Z) :
  json_loads payload_str = Some pl ->
  event pl = Some ev ->
  ev ∈ PROCESSABLE_EVENTS ->
  metadata_ratingKey pl = Some rating_key ->
  truthy rating_key = true ->
  get_media_info plex rating_key (ext w) = (e', Ret (Some info)) ->
  file_path info = Some fp ->
  truthy fp = true ->
  download_subtitles settings collab providers fp (title info) (year info)
                     (imdb_id info) (Some rating_key)
                     {| ext := e'; files := files w; trace := trace w |}
  = (w1, Ret r) ->
  after_download settings plex rating_key r w1 = (w2, Ret response) ->
  handle_event settings collab providers plex json_loads payload_str w
  = (w2, Ret response).
Proof.
  intros Hj Hev Hin Hrk Htr Hmi Hfp Htf Hdl Hafter.
  unfold handle_event. rewrite Hj, Hev, Hrk.
  rewrite bool_decide_eq_true_2
    by (apply (list_elem_of_fmap_2 Some); exact Hin).
  cbn [negb truthy_opt default]. rewrite Htr. cbn [negb].
  cbv [try_except bind external with_ext id]. rewrite Hmi.
  rewrite Hfp. cbn [truthy_opt default]. cbv [id]. rewrite Htf. cbn [negb].
  rewrite Hdl, Hafter. reflexivity.
Qed.

End Activation.

(** C9.  For a play event whose subtitle has just been downloaded, with
    auto-select on: when setting the subtitle on the active session is
    refused on all three attempts, the default stream is set by one call
    -- there is a single such event in the trace, after the three session
    calls and their waits of 3 and 6 seconds --, a refusal of that call
    adds a warning and nothing else, and the handler answers success with
    the fields of the download and status 200. *)
Theorem session_failure_falls_back_once
    (E : Type) (settings : Settings) (collab : Collaborators E)
    (providers : list (BaseProvider E)) (plex : PlexClient E)
    (json_loads : string -> option payload)
    (payload_str ev rating_key fp : string) (pl : payload) (info : MediaInfo)
    (w w1 : world E) (e' e0 e1 e2 e3 e4 : E)
    (path lang code prov : string) (upgraded refreshed default_set : bool) :
  json_loads payload_str = Some pl ->
  event pl = Some ev ->
  ev ∈ PROCESSABLE_EVENTS ->
  metadata_ratingKey pl = Some rating_key ->
  truthy rating_key = true ->
  get_media_info plex rating_key (ext w) = (e', Ret (Some info)) ->
  file_path info = Some fp ->
  truthy fp = true ->
  download_subtitles settings collab providers fp (title info) (year info)
                     (imdb_id info) (Some rating_key)
                     {| ext := e'; files := files w; trace := trace w |}
  = (w1, Ret (Downloaded path lang code prov upgraded)) ->
  subtitles_auto_select settings = true ->
  refresh_metadata plex rating_key (ext w1) = (e0, refreshed) ->
  set_active_session_subtitle plex rating_key code e0 = (e1, false) ->
  set_active_session_subtitle plex rating_key code e1 = (e2, false) ->
  set_active_session_subtitle plex rating_key code e2 = (e3, false) ->
  set_subtitle_stream plex rating_key code e3 = (e4, default_set) ->
  handle_event settings collab providers plex json_loads payload_str w
  = ({| ext := e4; files := files w1;
        trace := trace w1
                 ++ [EvRefresh rating_key;
                     EvSetSession rating_key code; EvSleep 3;
                     EvSetSession rating_key code; EvSleep 6;
                     EvSetSession rating_key code;
                     EvSetDefault rating_key code]
                 ++ (if default_set then []
                     else [EvWarning default_stream_warning]) |},
     Ret (StatusSuccess path lang prov upgraded, 200)).
Proof.
  intros Hj Hev Hin Hrk Htr Hmi Hfp Htf Hdl Hauto Hr H1 H2 H3 Hd.
  eapply handle_event_downloads; eauto.
  eapply after_download_falls_back; eauto.
Qed.

(** The play event of the scenario: no session is found and the default
    stream cannot be set; the answer is still a success. *)
Lemma session_failure_falls_back_once_witness :
  handle_event PipelineScenario.settings PipelineScenario.collab
    WebhookScenario.providers WebhookScenario.plex WebhookScenario.json_loads
    "{}" PipelineScenario.start_empty
  = ({| ext := 8%nat; files := {["/m/Heat.en.srt"]};
        trace := [EvSearch "opensubtitles" "en";
                  EvDownload "opensubtitles" "7" "/m/Heat.en.srt";
                  EvVerify "/m/Heat.en.srt" "en"]
                 ++ [EvRefresh "42";
                     EvSetSession "42" "eng"; EvSleep 3;
                     EvSetSession "42" "eng"; EvSleep 6;
                     EvSetSession "42" "eng";
                     EvSetDefault "42" "eng"]
                 ++ [EvWarning default_stream_warning] |},
     Ret (StatusSuccess "/m/Heat.en.srt" "en" "opensubtitles" false, 200)).
Proof.
  refine (session_failure_falls_back_once nat PipelineScenario.settings
           PipelineScenario.collab WebhookScenario.providers
           WebhookScenario.plex WebhookScenario.json_loads
           "{}" "media.play" "42" PipelineScenario.media_path
           {| event := Some "media.play"; metadata_ratingKey := Some "42" |}
           WebhookScenario.info PipelineScenario.start_empty
           {| ext := 3%nat; files := {["/m/Heat.en.srt"]};
              trace := [EvSearch "opensubtitles" "en";
                        EvDownload "opensubtitles" "7" "/m/Heat.en.srt";
                        EvVerify "/m/Heat.en.srt" "en"] |}
           1%nat 4%nat 5%nat 6%nat 7%nat 8%nat
           "/m/Heat.en.srt" "en" "eng" "opensubtitles" false true false
           _ _ _ _ _ _ _ _ _ _ _ _ _ _ _).
  - reflexivity.
  - reflexivity.
  - unfold PROCESSABLE_EVENTS. apply list_elem_of_here.
  - reflexivity.
  - reflexivity.
  - reflexivity.
  - reflexivity.
  - reflexivity.
  - vm_compute. reflexivity.
  - reflexivity.
  - reflexivity.
  - reflexivity.
  - reflexivity.
  - reflexivity.
  - reflexivity.
Defined.

End WebhookFacts.

(* ===================================================================== *)
(** * More facts: the release fingerprint and the score *)
(* ===================================================================== *)

Module FingerprintFacts.
Import PyStr PyStrFacts ReleaseMatcher ReleaseMatcherFacts.






Lemma upper_app (a b : string) : upper (a +:+ b) = upper a +:+ upper b.
Proof. induction a as [|c a IH]; simpl; [reflexivity | now rewrite IH]. Qed.

Lemma count_matches_le (combined : string) (groups : list string) :
  (count_matches combined groups <= length groups)%nat.
Proof. rewrite count_matches_filter. apply length_filter. Qed.

Lemma count_matches_map_upper (combined : string) (groups : list string) :
  count_matches combined (List.map upper groups) = count_matches combined groups.
Proof.
  rewrite !count_matches_filter.
  induction groups as [|g groups IH]; [reflexivity|].
  cbn [List.map]. rewrite !filter_cons, upper_idemp.
  destruct (decide (substring_of (upper g) combined)); simpl; now rewrite IH.
Qed.

Lemma Zpos_of_nat (n : nat) : (0 < n)%nat -> Z.pos (Pos.of_nat n) = Z.of_nat n.
Proof.
  destruct n as [|n]; [lia|]. intros _.
  rewrite <- Pos.of_nat_succ, Zpos_P_of_succ_nat. lia.
Qed.

(** X2.  The score lies between 0 and 1, the perfect-match flag holds
    exactly when the score is 1, and label, file name and fingerprint
    only count through their upper-casing: upper-casing all three
    changes neither score nor flag. *)
Theorem calculate_match_score_range (label fname : string) (fp : list string) :
  (0 <= fst (calculate_match_score label fname fp) <= 1)%Q
  /\ (snd (calculate_match_score label fname fp) = true
      <-> (fst (calculate_match_score label fname fp) == 1)%Q)
  /\ calculate_match_score (upper label) (upper fname) (List.map upper fp)
     = calculate_match_score label fname fp.
Proof.
  destruct fp as [|t fp].
  - simpl. repeat split; try discriminate.
  - unfold calculate_match_score. cbn [List.map].
    rewrite !upper_app, !upper_idemp.
    change (upper t :: List.map upper fp) with (List.map upper (t :: fp)).
    rewrite count_matches_map_upper, length_map.
    set (combined := upper label +:+ upper " " +:+ upper fname).
    pose proof (count_matches_le combined (t :: fp)) as Hle.
    set (m := count_matches combined (t :: fp)) in *.
    set (n := length (t :: fp)) in *.
    assert (Hn : (0 < n)%nat) by (unfold n; simpl; lia).
    cbn [fst snd]. split; [|split; [|reflexivity]].
    + unfold Qle. cbn [Qnum Qden]. rewrite (Zpos_of_nat n Hn). lia.
    + unfold Qeq. cbn [Qnum Qden]. rewrite (Zpos_of_nat n Hn).
      rewrite andb_true_iff, Nat.eqb_eq, Nat.ltb_lt. lia.
Qed.

End FingerprintFacts.

(* ===================================================================== *)
(** * More facts: the ranked list *)
(* ===================================================================== *)

Module RankOrderFacts.
Import Ranking RankingFacts.

#[local] Arguments key_lt : simpl never.
#[local] Arguments sort_key : simpl never.

Lemma tied_refl (a : SubtitleResult) : tied a a.
Proof. repeat split; reflexivity. Qed.

Lemma no_later_both_tied (a b : SubtitleResult) :
  ranks_no_later a b -> ranks_no_later b a -> tied a b.
Proof.
  unfold ranks_no_later, tied.
  intros [[Ha Hb]|[Hp Hd]] [[Hb' Ha']|[Hp' Hd']]; try congruence.
  split; [exact Hp|].
  destruct Hd as [?|[Hd Hs]], Hd' as [?|[Hd' Hs']]; try lia.
  split; [exact Hd|]. apply Qle_antisym; assumption.
Qed.

Lemma insert_front (x : SubtitleResult) (l : list SubtitleResult) :
  Forall (ranks_no_later x) l -> insert sort_key x l = x :: l.
Proof.
  destruct 1 as [|y l Hy _]; simpl; [reflexivity|].
  apply key_lt_false_iff in Hy. now rewrite Hy.
Qed.

Lemma rank_sorted_id (l : list SubtitleResult) :
  StronglySorted ranks_no_later l -> rank l = l.
Proof.
  unfold rank. induction 1 as [|x l _ IH Hx]; simpl; [reflexivity|].
  rewrite IH. now apply insert_front.
Qed.

(** Two ordered lists with the same candidates in each tie class, in the
    same order, are the same list. *)
Lemma sorted_stable_unique (l1 l2 : list SubtitleResult) :
  StronglySorted ranks_no_later l1 ->
  StronglySorted ranks_no_later l2 ->
  (forall c, filter (tied c) l1 = filter (tied c) l2) ->
  l1 = l2.
Proof.
  intros H1; revert l2. induction H1 as [|x l1 Hs1 IH Hx]; intros l2 H2 Hf.
  - specialize (Hf) as Hnil. destruct l2 as [|y l2]; [reflexivity|].
    specialize (Hnil y). rewrite filter_cons, decide_True in Hnil
      by apply tied_refl. discriminate.
  - destruct H2 as [|y l2 Hs2 Hy].
    + specialize (Hf x). rewrite filter_cons, decide_True in Hf
        by apply tied_refl. discriminate.
    + assert (Hxy : x = y).
      { destruct (decide (tied x y)) as [Ht|Hnt].
        - pose proof (Hf x) as Hfx.
          rewrite !filter_cons, decide_True in Hfx by apply tied_refl.
          rewrite decide_True in Hfx by exact Ht. congruence.
        - exfalso. apply Hnt. apply no_later_both_tied.
          + (* x is somewhere in y :: l2 *)
            pose proof (Hf y) as Hfy.
            rewrite !filter_cons in Hfy.
            rewrite (decide_True (P := tied y y)) in Hfy by apply tied_refl.
            destruct (decide (tied y x)) as [Hyx|Hyx];
              [apply tied_no_later, tied_sym, Hyx|].
            assert (Hin : y ∈ filter (tied y) l1)
              by (rewrite Hfy; apply list_elem_of_here).
            apply list_elem_of_filter in Hin. destruct Hin as [_ Hin].
            rewrite Forall_forall in Hx. apply Hx, Hin.
          + pose proof (Hf x) as Hfx.
            rewrite !filter_cons in Hfx.
            rewrite (decide_True (P := tied x x)) in Hfx by apply tied_refl.
            destruct (decide (tied x y)) as [Hxy'|Hxy']; [contradiction|].
            assert (Hin : x ∈ filter (tied x) l2)
              by (rewrite <- Hfx; apply list_elem_of_here).
            apply list_elem_of_filter in Hin. destruct Hin as [_ Hin].
            rewrite Forall_forall in Hy. apply Hy, Hin. }
      subst y. f_equal. apply IH; [exact Hs2|].
      intros c. specialize (Hf c). rewrite !filter_cons in Hf.
      destruct (decide (tied c x)); congruence.
Qed.

(** X3.  Ranking a ranked list changes nothing, and the ranked list is
    the only arrangement of the candidates that is ordered -- perfect
    match, then downloads, then score -- and keeps candidates with equal
    keys in the order in which they were found. *)
Theorem rank_unique (candidates : list SubtitleResult) :
  rank (rank candidates) = rank candidates
  /\ forall arranged : list SubtitleResult,
      StronglySorted ranks_no_later arranged ->
      (forall c, filter (tied c) arranged = filter (tied c) candidates) ->
      arranged = rank candidates.
Proof.
  assert (Hsorted : StronglySorted ranks_no_later (rank candidates))
    by apply (sort_sorted (fun r => r)).
  assert (Hstable : forall c, filter (tied c) (rank candidates)
                              = filter (tied c) candidates)
    by (intros c; apply (sort_stable (fun r => r))).
  split.
  - apply rank_sorted_id, Hsorted.
  - intros arranged Hs Hf. apply sorted_stable_unique; [exact Hs | exact Hsorted|].
    intros c. now rewrite Hf, Hstable.
Qed.

(** A list that is already in order is what ranking gives. *)
Lemma rank_unique_witness :
  [RankScenario.perfect; RankScenario.popular]
  = rank [RankScenario.perfect; RankScenario.popular].
Proof.
  apply (proj2 (rank_unique [RankScenario.perfect; RankScenario.popular])).
  - repeat constructor.
  - intros c. reflexivity.
Defined.

Lemma existsb_perfect_perm (l1 l2 : list SubtitleResult) :
  Permutation l1 l2 ->
  existsb is_perfect_match l1 = existsb is_perfect_match l2.
Proof.
  induction 1 as [|x l1 l2 _ IH|x y l|l1 l2 l3 _ IH1 _ IH2]; simpl.
  - reflexivity.
  - now rewrite IH.
  - destruct (is_perfect_match x), (is_perfect_match y); reflexivity.
  - congruence.
Qed.

(** X4.  The top-ranked candidate is a perfect match exactly when some
    candidate is, and no candidate with the same flag has more downloads
    than it. *)
Theorem top_ranked_is_best (candidates rest : list SubtitleResult)
    (best : SubtitleResult) :
  rank candidates = best :: rest ->
  existsb is_perfect_match candidates = is_perfect_match best
  /\ forall c, c ∈ candidates ->
               is_perfect_match c = is_perfect_match best ->
               download_count c <= download_count best.
Proof.
  intros Hrank.
  assert (Hsorted : StronglySorted ranks_no_later (rank candidates))
    by apply (sort_sorted (fun r => r)).
  assert (Hperm : Permutation (rank candidates) candidates)
    by apply (sort_perm (fun r => r)).
  rewrite Hrank in Hsorted, Hperm.
  apply StronglySorted_inv in Hsorted. destruct Hsorted as [_ Hbest].
  rewrite Forall_forall in Hbest.
  split.
  - rewrite <- (existsb_perfect_perm _ _ Hperm). simpl.
    destruct (is_perfect_match best) eqn:Hb; [reflexivity|]. simpl.
    apply not_true_is_false. intros Hex. apply existsb_exists in Hex.
    destruct Hex as (c & Hin & Hc).
    apply list_elem_of_In in Hin. specialize (Hbest c Hin).
    destruct Hbest as [[? ?]|[? _]]; congruence.
  - intros c Hin Hflag.
    assert (Hin' : c ∈ best :: rest) by (rewrite Hperm; exact Hin).
    apply elem_of_cons in Hin'. destruct Hin' as [->|Hin']; [lia|].
    specialize (Hbest c Hin').
    destruct Hbest as [[? ?]|[_ [?|[? _]]]]; [congruence | lia | lia].
Qed.

(** The perfect match of the scenario is on top. *)
Lemma top_ranked_is_best_witness :
  existsb is_perfect_match
    [RankScenario.first_found; RankScenario.popular; RankScenario.perfect]
  = is_perfect_match RankScenario.perfect.
Proof.
  apply (proj1 (top_ranked_is_best
                  [RankScenario.first_found; RankScenario.popular;
                   RankScenario.perfect]
                  [RankScenario.popular; RankScenario.first_found]
                  RankScenario.perfect eq_refl)).
Defined.

End RankOrderFacts.

(* ===================================================================== *)
(** * More facts: what the retry wrapper can answer *)
(* ===================================================================== *)

Module RetryResultFacts.
Import Retry.

Section Wrapper.
Context {St A : Type}.
Variable sleep : Q -> St -> St.
Variable max_retries : Z.
Variable base_delay : Q.
Variable exceptions : list exn_class.
Variable on_retry : option (Z -> Q -> exn -> St -> St).
Variable func : M St A.

Lemma attempts_answer_from_func (remaining : nat) (attempt : Z)
    (s s' : St) (r : outcome A) :
  (1 <= remaining)%nat ->
  attempt + Z.of_nat remaining = max_retries ->
  attempts sleep max_retries base_delay exceptions on_retry func
           remaining attempt s = (s', r) ->
  exists s0, func s0 = (s', r).
Proof.
  revert attempt s. induction remaining as [|remaining IH];
    intros attempt s Hpos Hsum; [lia|].
  cbn [attempts]. destruct (func s) as [s1 [a|e]] eqn:Hf.
  - intros [= <- <-]. now exists s.
  - destruct (isinstance e exceptions).
    + destruct (Z.ltb_spec attempt (max_retries - 1)) as [Hlt|Hge].
      * apply IH; lia.
      * intros [= <- <-]. now exists s.
    + intros [= <- <-]. now exists s.
Qed.

End Wrapper.

(** X5.  With at least one attempt allowed, whatever the wrapper returns
    or raises is what some call of the wrapped function returned or
    raised, in the state that call left: the error of the fallen-through
    loop only appears if the function itself raised it. *)
Theorem sync_wrapper_answer_from_func
    (St A : Type) (sleep : Q -> St -> St) (max_retries : Z) (base_delay : Q)
    (exceptions : list exn_class)
    (on_retry : option (Z -> Q -> exn -> St -> St)) (func : M St A)
    (s s' : St) (r : outcome A) :
  1 <= max_retries ->
  sync_wrapper sleep max_retries base_delay exceptions on_retry func s = (s', r) ->
  exists s0, func s0 = (s', r).
Proof.
  intros Hpos. unfold sync_wrapper.
  apply attempts_answer_from_func; lia.
Qed.

(** The value of the third call of the test function. *)
Lemma sync_wrapper_answer_from_func_witness :
  exists s0,
    RetryScenario.fail_then_succeed s0
    = ({| RetryScenario.call_count := 3;
          RetryScenario.callback_calls :=
            [(0, 1%Q, "Temporary failure"); (1, 2%Q, "Temporary failure")];
          RetryScenario.slept := [1%Q; 2%Q] |},
       Ret "success").
Proof.
  apply (sync_wrapper_answer_from_func _ _ RetryScenario.test_sleep 3 1%Q
           [Exception] (Some RetryScenario.on_retry)
           RetryScenario.fail_then_succeed RetryScenario.start).
  - lia.
  - vm_compute. reflexivity.
Defined.

End RetryResultFacts.

(* ===================================================================== *)
(** * More facts: the probe for existing subtitles *)
(* ===================================================================== *)

Module ProbeFacts.
Import SubtitleManager PyStr ManagerFacts.

Section Probe.
Variable settings : Settings.
Variables (fs : gset string) (d n : string).

Lemma existing_fold_lookup (langs : list string) (m : gmap string string)
    (lang : string) :
  fold_left (fun existing l =>
               match first_existing fs d n l with
               | Some path => <[l := path]> existing
               | None => existing
               end) langs m !! lang
  = match (if decide (lang ∈ langs) then first_existing fs d n lang else None) with
    | Some p => Some p
    | None => m !! lang
    end.
Proof.
  revert m; induction langs as [|l langs IH]; intros m; cbn [fold_left].
  - rewrite decide_False by apply not_elem_of_nil. reflexivity.
  - rewrite IH. destruct (decide (lang ∈ langs)) as [Hin|Hin].
    + rewrite decide_True by (apply elem_of_cons; tauto).
      destruct (first_existing fs d n lang) as [p|] eqn:Hp; [reflexivity|].
      destruct (first_existing fs d n l) as [q|] eqn:Hq; [|reflexivity].
      rewrite lookup_insert_ne; [reflexivity | congruence].
    + destruct (decide (lang = l)) as [->|Hne].
      * rewrite decide_True by (apply elem_of_cons; tauto).
        destruct (first_existing fs d n l) as [q|] eqn:Hq;
          [apply lookup_insert_eq | reflexivity].
      * rewrite decide_False by (rewrite elem_of_cons; tauto).
        destruct (first_existing fs d n l) as [q|] eqn:Hq; [|reflexivity].
        now rewrite lookup_insert_ne by congruence.
Qed.

(** The probe reports, for a configured language, the first of the
    four candidate paths that exists. *)
Lemma existing_in_lookup (lang : string) :
  existing_in settings fs d n !! lang
  = if decide (lang ∈ languages_list settings)
    then first_existing fs d n lang else None.
Proof.
  unfold existing_in. rewrite existing_fold_lookup, lookup_empty.
  destruct (decide (lang ∈ languages_list settings)); [|reflexivity].
  now destruct (first_existing fs d n lang).
Qed.

Lemma first_existing_some (lang p : string) :
  first_existing fs d n lang = Some p ->
  p ∈ fs /\ exists ext, ext ∈ SUBTITLE_EXTENSIONS
                        /\ p = OsPath.join d (n +:+ "." +:+ lang +:+ ext).
Proof.
  unfold first_existing. intros Hf. apply find_some in Hf.
  destruct Hf as [Hin Hex]. apply bool_decide_eq_true in Hex.
  split; [exact Hex|]. apply in_map_iff in Hin.
  destruct Hin as (ext & <- & Hext). exists ext. split; [|reflexivity].
  now apply list_elem_of_In.
Qed.

Lemma first_existing_none (lang ext : string) :
  first_existing fs d n lang = None ->
  ext ∈ SUBTITLE_EXTENSIONS ->
  OsPath.join d (n +:+ "." +:+ lang +:+ ext) ∉ fs.
Proof.
  unfold first_existing. intros Hf Hext Hin.
  eapply find_none in Hf.
  - apply bool_decide_eq_false in Hf. apply Hf, Hin.
  - apply in_map_iff. exists ext. split; [reflexivity|].
    now apply list_elem_of_In.
Qed.

End Probe.

(** X6.  The probe reports a path for a language only if the language
    is configured and the path exists and is the media name with the
    language and one of the four subtitle extensions; it reports one
    whenever such a file exists for a configured language; and it
    reports the [.srt] file when that one exists. *)
Theorem existing_in_spec (settings : Settings) (fs : gset string)
    (d n lang : string) :
  (forall p, existing_in settings fs d n !! lang = Some p ->
             lang ∈ languages_list settings
             /\ p ∈ fs
             /\ exists ext, ext ∈ SUBTITLE_EXTENSIONS
                            /\ p = OsPath.join d (n +:+ "." +:+ lang +:+ ext))
  /\ (forall ext, lang ∈ languages_list settings ->
                  ext ∈ SUBTITLE_EXTENSIONS ->
                  OsPath.join d (n +:+ "." +:+ lang +:+ ext) ∈ fs ->
                  is_Some (existing_in settings fs d n !! lang))
  /\ (lang ∈ languages_list settings ->
      OsPath.join d (n +:+ "." +:+ lang +:+ ".srt") ∈ fs ->
      existing_in settings fs d n !! lang
      = Some (OsPath.join d (n +:+ "." +:+ lang +:+ ".srt"))).
Proof.
  rewrite existing_in_lookup. split; [|split].
  - intros p. destruct (decide (lang ∈ languages_list settings)); [|discriminate].
    intros Hp. split; [assumption|]. now apply first_existing_some.
  - intros ext Hl Hext Hin. rewrite decide_True by exact Hl.
    destruct (first_existing fs d n lang) eqn:Hf; [eauto|].
    exfalso. eapply first_existing_none; eauto.
  - intros Hl Hin. rewrite decide_True by exact Hl.
    unfold first_existing, SUBTITLE_EXTENSIONS. cbn [List.map List.find].
    now rewrite bool_decide_eq_true_2 by exact Hin.
Qed.

(** The old [.ass] file of the scenario is found for [en]. *)
Lemma existing_in_spec_witness :
  is_Some (existing_in PipelineScenario.settings {[PipelineScenario.old_subtitle]}
                       "/m" "Heat" !! "en").
Proof.
  apply (proj1 (proj2 (existing_in_spec PipelineScenario.settings
                         {[PipelineScenario.old_subtitle]} "/m" "Heat" "en"))
               ".ass").
  - apply list_elem_of_here.
  - unfold SUBTITLE_EXTENSIONS. apply list_elem_of_further, list_elem_of_here.
  - apply elem_of_singleton. reflexivity.
Defined.

End ProbeFacts.

(* ===================================================================== *)
(** * More facts: what an acquisition can answer *)
(* ===================================================================== *)

Module AcquisitionFacts.
Import SubtitleManager PyStr ManagerFacts.

Section Answers.
Context {E : Type}.
Variable settings : Settings.
Variable collab : Collaborators E.
Variable providers : list (BaseProvider E).

(** ** Nothing escapes *)






End Answers.


Section Delivery.
Context {E : Type}.
Variable settings : Settings.
Variable collab : Collaborators E.
Variable providers : list (BaseProvider E).

(** ** A reported file is there *)

Lemma once_true_saved (p : BaseProvider E) (subtitle : SubtitleResult)
    (output_path : string) (token : option string) (lang : string)
    (w w1 : world E) :
  download_and_verify_once collab p subtitle output_path token lang w
  = (w1, Ret true) ->
  output_path ∈ files w1.
Proof.
  unfold download_and_verify_once. run.
  destruct (download p subtitle output_path token (ext w)) as [e' [[|]|e]];
    cbn [negb ext files trace]; [|discriminate|discriminate].
  rewrite bool_decide_eq_true_2
    by (apply elem_of_union_l, elem_of_singleton; reflexivity).
  destruct (language_ok collab output_path lang e'); cbn [negb ext files trace].
  - intros [= <-]. cbn [files].
    apply elem_of_union_l, elem_of_singleton. reflexivity.
  - rewrite bool_decide_eq_true_2
      by (apply elem_of_union_l, elem_of_singleton; reflexivity).
    destruct (remove_denied collab output_path e'); discriminate.
Qed.

Lemma wrapped_true_saved (p : BaseProvider E) (subtitle : SubtitleResult)
    (output_path : string) (token : option string) (lang : string)
    (w w1 : world E) :
  _download_and_verify collab p subtitle output_path token lang w
  = (w1, Ret true) ->
  output_path ∈ files w1.
Proof.
  unfold _download_and_verify, Retry.sync_wrapper. intros H.
  apply RetryResultFacts.attempts_answer_from_func in H;
    [|change (Z.to_nat 3) with 3%nat; lia | reflexivity].
  destruct H as [s0 H]. eapply once_true_saved; eauto.
Qed.

Lemma download_with_retry_delivers (p : BaseProvider E)
    (subtitle : SubtitleResult) (output_path : string)
    (token : option string) (lang : string) (existing_path : option string)
    (w w2 : world E) (path l code prov : string) (upgraded : bool) :
  _download_with_retry collab p subtitle output_path token lang existing_path w
  = (w2, Ret (Downloaded path l code prov upgraded)) ->
  path = output_path /\ l = lang
  /\ code = to_plex_language_code collab lang
  /\ prov = name p
  /\ output_path ∈ files w2
  /\ (upgraded = true -> is_Some existing_path).
Proof.
  unfold _download_with_retry. cbv [bind try_except ret].
  destruct (_download_and_verify collab p subtitle output_path token lang w)
    as [w1 [[|]|e]] eqn:Hdl; [|discriminate|discriminate].
  apply wrapped_true_saved in Hdl.
  destruct existing_path as [old|].
  - destruct (truthy old && negb (old =? output_path)%string
              && is_perfect_match subtitle) eqn:Hc.
    + apply andb_true_iff in Hc. destruct Hc as [Hc _].
      apply andb_true_iff in Hc. destruct Hc as [_ Hne].
      apply negb_true_iff, String.eqb_neq in Hne.
      run. destruct (bool_decide (old ∈ files w1)).
      * destruct (remove_denied collab old (ext w1)); intros [= <- <- <- <- <- <-];
          cbn [files]; repeat split; eauto.
        apply elem_of_difference. split; [exact Hdl|].
        rewrite elem_of_singleton. congruence.
      * intros [= <- <- <- <- <- <-]. cbn [files]. repeat split; eauto.
    + intros [= <- <- <- <- <- <-]. repeat split; eauto.
  - intros [= <- <- <- <- <- <-]. repeat split; auto. discriminate.
Qed.

Lemma search_all_from (ps : list (BaseProvider E)) (title : string)
    (year : option Z) (imdb_id : option string) (lang : string)
    (release_groups : option (list string)) (media_name : string)
    (w w' : world E)
    (found : list (BaseProvider E * SubtitleResult * option string)) :
  search_all ps title year imdb_id lang release_groups media_name w
  = (w', Ret found) ->
  Forall (fun x => fst (fst x) ∈ ps) found.
Proof.
  revert w w' found; induction ps as [|p ps IH]; intros w w' found;
    cbn [search_all].
  - intros [= _ <-]. constructor.
  - cbv [bind try_except ret].
    destruct (provider_search p title year imdb_id lang release_groups
                              (Some media_name) w) as [w1 [[results token]|e]].
    + destruct (search_all ps title year imdb_id lang release_groups media_name w1)
        as [w2 [others|e]] eqn:Hs; [|discriminate].
      intros [= _ <-]. apply Forall_app. split.
      * apply Forall_forall. intros x Hx. apply list_elem_of_In, in_map_iff in Hx.
        destruct Hx as (r & <- & _). apply list_elem_of_here.
      * eapply Forall_impl; [eapply IH; eauto|].
        intros x Hx. now apply list_elem_of_further.
    + destruct (search_all ps title year imdb_id lang release_groups media_name w1)
        as [w2 [others|e']] eqn:Hs; [|discriminate].
      intros [= _ <-]. cbn [app].
      eapply Forall_impl; [eapply IH; eauto|].
      intros x Hx. now apply list_elem_of_further.
Qed.

Lemma download_in_order_delivers (media_dir media_name lang : string)
    (existing_path : option string) (best : SubtitleResult)
    (l : list (BaseProvider E * SubtitleResult * option string))
    (w w' : world E) (path lg code prov : string) (upgraded : bool) :
  download_in_order settings collab media_dir media_name lang existing_path
                    best l w
  = (w', Ret (Downloaded path lg code prov upgraded)) ->
  path = OsPath.join media_dir (media_name +:+ "." +:+ lang +:+ ".srt")
  /\ lg = lang
  /\ code = to_plex_language_code collab lang
  /\ (exists x, x ∈ l /\ prov = name (fst (fst x)))
  /\ path ∈ files w'
  /\ (upgraded = true -> is_Some existing_path).
Proof.
  revert w; induction l as [|[[p r] token] l IH]; intros w;
    cbn [download_in_order].
  - discriminate.
  - assert (Hlater : forall w0,
               download_in_order settings collab media_dir media_name lang
                                 existing_path best l w0
               = (w', Ret (Downloaded path lg code prov upgraded)) ->
               path = OsPath.join media_dir (media_name +:+ "." +:+ lang +:+ ".srt")
               /\ lg = lang /\ code = to_plex_language_code collab lang
               /\ (exists x, x ∈ (p, r, token) :: l /\ prov = name (fst (fst x)))
               /\ path ∈ files w'
               /\ (upgraded = true -> is_Some existing_path)).
    { intros w0 H. destruct (IH w0 H) as (? & ? & ? & (x & Hx & ?) & ? & ?).
      repeat split; auto. exists x. split; [now apply list_elem_of_further | auto]. }
    destruct (skipped settings existing_path r best); [apply Hlater|].
    cbv [bind].
    destruct (_download_with_retry collab p r _ token lang existing_path w)
      as [w1 [r1|e]] eqn:Hd; [|discriminate].
    destruct r1 as [ex|path1 l1 code1 prov1 up1]; cbn [success];
      [apply Hlater|].
    intros [= <- <- <- <- <- <-].
    apply download_with_retry_delivers in Hd.
    destruct Hd as (-> & -> & -> & -> & Hin & Hup).
    repeat split; auto.
    exists (p, r, token). split; [apply list_elem_of_here | reflexivity].
Qed.

Lemma try_download_delivers (media_dir media_name title : string)
    (year : option Z) (imdb_id : option string) (lang : string)
    (release_groups : option (list string)) (existing_path : option string)
    (w w' : world E) (path lg code prov : string) (upgraded : bool) :
  _try_download settings collab providers media_dir media_name title year
                imdb_id lang release_groups existing_path w
  = (w', Ret (Downloaded path lg code prov upgraded)) ->
  path = OsPath.join media_dir (media_name +:+ "." +:+ lang +:+ ".srt")
  /\ lg = lang
  /\ code = to_plex_language_code collab lang
  /\ (exists p, p ∈ providers /\ prov = name p)
  /\ path ∈ files w'
  /\ (upgraded = true -> is_Some existing_path).
Proof.
  unfold _try_download. cbv [bind].
  destruct (search_all providers title year imdb_id lang release_groups
                       media_name w) as [w0 [found|e]] eqn:Hs; [|discriminate].
  apply search_all_from in Hs.
  assert (Hsorted : Forall (fun x => fst (fst x) ∈ providers)
                           (Ranking.sort (fun x => Ranking.sort_key (snd (fst x))) found)).
  { eapply Permutation_Forall; [|exact Hs].
    symmetry. apply (RankingFacts.sort_perm (fun x => snd (fst x))). }
  destruct (Ranking.sort _ found) as [|[[p best] token] rest];
    [discriminate|].
  assert (Hfinal : forall w0,
             download_in_order settings collab media_dir media_name lang
                               existing_path best ((p, best, token) :: rest) w0
             = (w', Ret (Downloaded path lg code prov upgraded)) ->
             path = OsPath.join media_dir (media_name +:+ "." +:+ lang +:+ ".srt")
             /\ lg = lang /\ code = to_plex_language_code collab lang
             /\ (exists q, q ∈ providers /\ prov = name q)
             /\ path ∈ files w'
             /\ (upgraded = true -> is_Some existing_path)).
  { intros w1 H. apply download_in_order_delivers in H.
    destruct H as (? & ? & ? & (x & Hx & ?) & ? & ?). repeat split; auto.
    exists (fst (fst x)). split; [|assumption].
    rewrite Forall_forall in Hsorted. now apply Hsorted. }
  repeat match goal with
         | |- context [if ?c then _ else _] => destruct c; try discriminate
         end.
  all: apply Hfinal.
Qed.

Lemma try_languages_delivers (media_dir media_name title : string)
    (year : option Z) (imdb_id : option string)
    (release_groups : option (list string)) (first_lang : string)
    (existing : gmap string string) (i : nat) (langs : list string)
    (w w' : world E) (path lg code prov : string) (upgraded : bool) :
  try_languages settings collab providers media_dir media_name title year
                imdb_id release_groups first_lang existing i langs w
  = (w', Ret (Downloaded path lg code prov upgraded)) ->
  lg ∈ langs
  /\ path = OsPath.join media_dir (media_name +:+ "." +:+ lg +:+ ".srt")
  /\ code = to_plex_language_code collab lg
  /\ (exists p, p ∈ providers /\ prov = name p)
  /\ path ∈ files w'
  /\ (upgraded = true -> is_Some (existing !! lg)).
Proof.
  revert i w; induction langs as [|lang langs IH]; intros i w;
    cbn [try_languages].
  - discriminate.
  - assert (Hlater : forall j w0,
               try_languages settings collab providers media_dir media_name
                             title year imdb_id release_groups first_lang
                             existing j langs w0
               = (w', Ret (Downloaded path lg code prov upgraded)) ->
               lg ∈ lang :: langs
               /\ path = OsPath.join media_dir (media_name +:+ "." +:+ lg +:+ ".srt")
               /\ code = to_plex_language_code collab lg
               /\ (exists p, p ∈ providers /\ prov = name p)
               /\ path ∈ files w'
               /\ (upgraded = true -> is_Some (existing !! lg))).
    { intros j w0 H. destruct (IH j w0 H) as (? & ? & ? & ? & ? & ?).
      repeat split; auto. now apply list_elem_of_further. }
    destruct (_should_skip_language_check settings (i =? 0)%nat first_lang
                                          existing lang) as [skip|] eqn:Hskip.
    + unfold _should_skip_language_check in Hskip.
      destruct (if (i =? 0)%nat then existing !! first_lang else None);
        [|discriminate].
      destruct (negb (subtitles_use_release_matching settings));
        [injection Hskip as <-; discriminate|].
      destruct (negb (subtitles_upgrade_on_perfect_match settings));
        [injection Hskip as <-; discriminate | discriminate].
    + cbv [bind].
      destruct (_try_download settings collab providers media_dir media_name
                              title year imdb_id lang release_groups
                              (existing !! lang) w) as [w1 [r1|e]] eqn:Hd;
        [|discriminate].
      destruct r1 as [ex|path1 l1 code1 prov1 up1]; cbn [success];
        [apply Hlater|].
      intros [= <- <- <- <- <- <-].
      apply try_download_delivers in Hd.
      destruct Hd as (-> & -> & -> & Hp & Hin & Hup).
      repeat split; auto. apply list_elem_of_here.
Qed.

End Delivery.

(** X8.  A success of the pipeline names a configured language, the
    path [{dir}/{name}.{language}.srt] beside the media file, the Plex
    code of that language and one of the providers; the file is there
    when the pipeline returns; and [upgraded] is only set when the probe
    had found a subtitle for that language. *)
Theorem download_subtitles_delivers
    (E : Type) (settings : Settings) (collab : Collaborators E)
    (providers : list (BaseProvider E)) (media_path title : string)
    (year : option Z) (imdb_id rating_key : option string) (w w' : world E)
    (path lang code prov : string) (upgraded : bool) :
  download_subtitles settings collab providers media_path title year imdb_id
                     rating_key w
  = (w', Ret (Downloaded path lang code prov upgraded)) ->
  lang ∈ languages_list settings
  /\ path = OsPath.join (OsPath.dirname media_path)
                        (fst (OsPath.splitext (OsPath.basename media_path))
                         +:+ "." +:+ lang +:+ ".srt")
  /\ code = to_plex_language_code collab lang
  /\ (exists p, p ∈ providers /\ prov = name p)
  /\ path ∈ files w'
  /\ (upgraded = true ->
      is_Some (existing_in settings (files w) (OsPath.dirname media_path)
                 (fst (OsPath.splitext (OsPath.basename media_path))) !! lang)).
Proof.
  unfold download_subtitles.
  destruct (languages_list settings) as [|first_lang others] eqn:Hl;
    [discriminate|].
  unfold _get_existing_subtitles. cbv [bind gets].
  destruct (_should_skip_first_language settings _ first_lang) as [skip|] eqn:Hskip.
  - unfold _should_skip_first_language in Hskip.
    destruct (existing_in settings (files w) _ _ !! first_lang); [|discriminate].
    destruct (negb (subtitles_use_release_matching settings));
      [injection Hskip as <-; discriminate | discriminate].
  - intros H. apply try_languages_delivers in H. exact H.
Qed.

(** The perfect match of the scenario replaces the old subtitle. *)
Lemma download_subtitles_delivers_witness :
  "en" ∈ languages_list PipelineScenario.settings
  /\ PipelineScenario.new_subtitle
     ∈ files (fst (download_subtitles PipelineScenario.settings
                     PipelineScenario.collab
                     [PipelineScenario.provider_with
                        [PipelineScenario.candidate "7" true 7] true]
                     PipelineScenario.media_path "Heat" (Some 1995) None
                     (Some "42") PipelineScenario.start)).
Proof.
  destruct (download_subtitles_delivers nat PipelineScenario.settings
              PipelineScenario.collab
              [PipelineScenario.provider_with
                 [PipelineScenario.candidate "7" true 7] true]
              PipelineScenario.media_path "Heat" (Some 1995) None (Some "42")
              PipelineScenario.start
              (fst (download_subtitles PipelineScenario.settings
                      PipelineScenario.collab
                      [PipelineScenario.provider_with
                         [PipelineScenario.candidate "7" true 7] true]
                      PipelineScenario.media_path "Heat" (Some 1995) None
                      (Some "42") PipelineScenario.start))
              "/m/Heat.en.srt" "en" "eng" "opensubtitles" true)
    as (Hlang & _ & _ & _ & Hfile & _).
  - vm_compute. reflexivity.
  - split; [exact Hlang | exact Hfile].
Defined.

End AcquisitionFacts.

(* ===================================================================== *)
(** * More facts: the gates before a replacement *)
(* ===================================================================== *)

Module GateFacts.
Import SubtitleManager PyStr ManagerFacts.

Lemma existsb_perfect_true {X : Type} (proj : X -> SubtitleResult) (l : list X) :
  Exists (fun x => is_perfect_match (proj x) = true) l ->
  existsb (fun x => is_perfect_match (proj x)) l = true.
Proof.
  induction 1 as [x l Hx|x l _ IH]; simpl.
  - now rewrite Hx.
  - rewrite IH. apply orb_true_r.
Qed.

(** X9.  With a subtitle already there for the language, the candidates
    are searched and ranked but nothing is downloaded, and the answer
    names the existing file, when no candidate is a perfect match and
    popular upgrades are off or the top candidate is below the
    threshold, and also when a perfect match was found but upgrades on
    a perfect match are off. *)
Theorem upgrade_gates_block_download
    (E : Type) (settings : Settings) (collab : Collaborators E)
    (providers : list (BaseProvider E))
    (media_dir media_name title : string) (year : option Z)
    (imdb_id : option string) (lang : string)
    (release_groups : option (list string)) (old : string)
    (w w0 : world E)
    (found rest : list (BaseProvider E * SubtitleResult * option string))
    (p : BaseProvider E) (best : SubtitleResult) (token : option string) :
  truthy old = true ->
  search_all providers title year imdb_id lang release_groups media_name w
  = (w0, Ret found) ->
  Ranking.sort (fun x => Ranking.sort_key (snd (fst x))) found
  = (p, best, token) :: rest ->
  (Forall (fun x => is_perfect_match (snd (fst x)) = false) found
   /\ (subtitles_upgrade_on_popular settings = false
       \/ download_count best < subtitles_popular_download_threshold settings))
  \/ (Exists (fun x => is_perfect_match (snd (fst x)) = true) found
      /\ subtitles_upgrade_on_perfect_match settings = false) ->
  _try_download settings collab providers media_dir media_name title year
                imdb_id lang release_groups (Some old) w
  = (w0, Ret (NotDownloaded (Some old))).
Proof.
  intros Hold Hsearch Hsort Hgate.
  assert (Hperm : Permutation ((p, best, token) :: rest) found).
  { rewrite <- Hsort. apply (RankingFacts.sort_perm (fun x => snd (fst x))). }
  unfold _try_download. cbv [bind]. rewrite Hsearch, Hsort.
  cbn [truthy_opt]. rewrite Hold. cbn [andb].
  destruct Hgate as [[Hnone Hpop]|[Hsome Hoff]].
  - rewrite (ReplaceFacts.existsb_perfect_false (fun x => snd (fst x)))
      by (eapply Permutation_Forall; [symmetry; exact Hperm | exact Hnone]).
    cbn [negb andb].
    destruct Hpop as [->|Hlow]; [reflexivity|].
    destruct (subtitles_upgrade_on_popular settings); [|reflexivity].
    destruct (Z.leb_spec (subtitles_popular_download_threshold settings)
                         (download_count best)); [lia | reflexivity].
  - rewrite (existsb_perfect_true (fun x => snd (fst x)))
      by (eapply Permutation_Exists; [symmetry; exact Hperm | exact Hsome]).
    rewrite Hoff. reflexivity.
Qed.

(** A candidate with 50 downloads does not replace the old subtitle. *)
Lemma upgrade_gates_block_download_witness :
  _try_download PipelineScenario.settings PipelineScenario.collab
    [PipelineScenario.provider_with [PipelineScenario.candidate "50" false 50] true]
    "/m" "Heat" "Heat" (Some 1995) None "en" (Some [])
    (Some PipelineScenario.old_subtitle) PipelineScenario.start
  = ({| ext := 1%nat; files := {[PipelineScenario.old_subtitle]};
        trace := [EvSearch "opensubtitles" "en"] |},
     Ret (NotDownloaded (Some PipelineScenario.old_subtitle))).
Proof.
  refine (upgrade_gates_block_download nat PipelineScenario.settings
            PipelineScenario.collab
            [PipelineScenario.provider_with
               [PipelineScenario.candidate "50" false 50] true]
            "/m" "Heat" "Heat" (Some 1995) None "en" (Some [])
            PipelineScenario.old_subtitle PipelineScenario.start _
            [(PipelineScenario.provider_with
                [PipelineScenario.candidate "50" false 50] true,
              PipelineScenario.candidate "50" false 50, Some "token")]
            []
            (PipelineScenario.provider_with
               [PipelineScenario.candidate "50" false 50] true)
            (PipelineScenario.candidate "50" false 50) (Some "token")
            _ _ _ _).
  - reflexivity.
  - reflexivity.
  - reflexivity.
  - left. split; [repeat constructor|]. right. reflexivity.
Defined.

Section Skipping.
Context {E : Type}.
Variable settings : Settings.
Variable collab : Collaborators E.


End Skipping.



End GateFacts.

(* ===================================================================== *)
(** * More facts: the answers of the webhook handler *)
(* ===================================================================== *)

Module HandlerFacts.
Import Webhook PyStr ManagerFacts WebhookFacts.



Ltac session_step H :=
  rewrite H; cbn [negb ext files trace];
  try (rewrite isinstance_Exception;
       cbn [Z.ltb Z.sub Z.add Z.compare Z.opp Z.pos_sub Pos.compare
            Pos.compare_cont Pos.pred_double Z.succ_double Z.pred_double
            Z.double Pos.add Pos.succ];
       cbn [ext files trace]).

Section Session.
Context {E : Type}.
Variable plex : PlexClient E.
Variables (rating_key code : string) (w : world E).

Lemma session_found_first (e1 : E) :
  set_active_session_subtitle plex rating_key code (ext w) = (e1, true) ->
  _try_set_session_subtitle_with_retry plex rating_key code w
  = ({| ext := e1; files := files w;
        trace := trace w ++ [EvSetSession rating_key code] |},
     Ret true).
Proof.
  intros H1.
  unfold _try_set_session_subtitle_with_retry, _try_set_session_subtitle,
    Retry.sync_wrapper, MAX_SESSION_RETRIES.
  change (Z.to_nat 3) with 3%nat.
  cbv [try_except Retry.attempts Retry.before_retry Retry.backoff_delay
       set_session_subtitle_once plex_call].
  run. session_step H1. reflexivity.
Qed.

Lemma session_found_second (e1 e2 : E) :
  set_active_session_subtitle plex rating_key code (ext w) = (e1, false) ->
  set_active_session_subtitle plex rating_key code e1 = (e2, true) ->
  _try_set_session_subtitle_with_retry plex rating_key code w
  = ({| ext := e2; files := files w;
        trace := trace w ++ [EvSetSession rating_key code; EvSleep 3;
                             EvSetSession rating_key code] |},
     Ret true).
Proof.
  intros H1 H2.
  unfold _try_set_session_subtitle_with_retry, _try_set_session_subtitle,
    Retry.sync_wrapper, MAX_SESSION_RETRIES.
  change (Z.to_nat 3) with 3%nat.
  cbv [try_except Retry.attempts Retry.before_retry Retry.backoff_delay
       set_session_subtitle_once plex_call].
  run. session_step H1. session_step H2.
  rewrite <- !app_assoc. reflexivity.
Qed.

Lemma session_found_third (e1 e2 e3 : E) :
  set_active_session_subtitle plex rating_key code (ext w) = (e1, false) ->
  set_active_session_subtitle plex rating_key code e1 = (e2, false) ->
  set_active_session_subtitle plex rating_key code e2 = (e3, true) ->
  _try_set_session_subtitle_with_retry plex rating_key code w
  = ({| ext := e3; files := files w;
        trace := trace w ++ [EvSetSession rating_key code; EvSleep 3;
                             EvSetSession rating_key code; EvSleep 6;
                             EvSetSession rating_key code] |},
     Ret true).
Proof.
  intros H1 H2 H3.
  unfold _try_set_session_subtitle_with_retry, _try_set_session_subtitle,
    Retry.sync_wrapper, MAX_SESSION_RETRIES.
  change (Z.to_nat 3) with 3%nat.
  cbv [try_except Retry.attempts Retry.before_retry Retry.backoff_delay
       set_session_subtitle_once plex_call].
  run. session_step H1. session_step H2. session_step H3.
  rewrite <- !app_assoc. reflexivity.
Qed.

End Session.

(** The hypotheses of a play event that reaches the download. *)
Section Played.
Context {E : Type}.
Variable settings : Settings.
Variable collab : Collaborators E.
Variable providers : list (BaseProvider E).
Variable plex : PlexClient E.
Variable json_loads : string -> option payload.
Variables (payload_str ev rating_key fp : string) (pl : payload).
Variable info : MediaInfo.
Variables (w w1 : world E) (e' : E) (r : result).
Hypothesis Hjson : json_loads payload_str = Some pl.
Hypothesis Hevent : event pl = Some ev.
Hypothesis Hplay : ev ∈ PROCESSABLE_EVENTS.
Hypothesis Hkey : metadata_ratingKey pl = Some rating_key.
Hypothesis Hkey_truthy : truthy rating_key = true.
Hypothesis Hinfo : get_media_info plex rating_key (ext w) = (e', Ret (Some info)).
Hypothesis Hpath : file_path info = Some fp.
Hypothesis Hpath_truthy : truthy fp = true.
Hypothesis Hdownload :
  download_subtitles settings collab providers fp (title info) (year info)
                     (imdb_id info) (Some rating_key)
                     {| ext := e'; files := files w; trace := trace w |}
  = (w1, Ret r).

Lemma played_answer (w2 : world E) (response : body * Z) :
  after_download settings plex rating_key r w1 = (w2, Ret response) ->
  handle_event settings collab providers plex json_loads payload_str w
  = (w2, Ret response).
Proof. intros H. eapply handle_event_downloads; eauto. Qed.

(** X12.  When the acquisition for a play event fails, the handler
    answers 404 and calls Plex no more: no metadata refresh, no
    session or default-stream change follows the download attempt. *)
Theorem played_not_found (existing : option string) :
  r = NotDownloaded existing ->
  handle_event settings collab providers plex json_loads payload_str w
  = (w1, Ret (StatusNotFound "No suitable subtitle found", 404)).
Proof. intros Hr. apply played_answer. rewrite Hr. reflexivity. Qed.

(** X13.  With auto-select off, a successful acquisition is followed
    by the metadata refresh alone -- whatever the refresh answers, no
    subtitle is selected -- and success is answered with the fields of
    the download. *)
Theorem played_no_select (path lang code prov : string) (upgraded : bool)
    (e0 : E) (refreshed : bool) :
  r = Downloaded path lang code prov upgraded ->
  subtitles_auto_select settings = false ->
  refresh_metadata plex rating_key (ext w1) = (e0, refreshed) ->
  handle_event settings collab providers plex json_loads payload_str w
  = ({| ext := e0; files := files w1;
        trace := trace w1 ++ [EvRefresh rating_key] |},
     Ret (StatusSuccess path lang prov upgraded, 200)).
Proof.
  intros Hres Hauto Hr. apply played_answer. rewrite Hres.
  unfold after_download. rewrite Hauto.
  cbv [bind plex_call modify external emit with_ext ret]. cbn [ext files trace].
  rewrite Hr. reflexivity.
Qed.

(** X14.  With auto-select on, as soon as one of the three attempts
    sets the subtitle on the active session, activation is over: the
    default stream is not touched, later attempts are not made, and
    the waits before the second and third attempt are 3 and 6
    seconds. *)
Theorem played_session_found (path lang code prov : string) (upgraded : bool)
    (e0 : E) (refreshed : bool) :
  r = Downloaded path lang code prov upgraded ->
  subtitles_auto_select settings = true ->
  refresh_metadata plex rating_key (ext w1) = (e0, refreshed) ->
  (forall e1,
      set_active_session_subtitle plex rating_key code e0 = (e1, true) ->
      handle_event settings collab providers plex json_loads payload_str w
      = ({| ext := e1; files := files w1;
            trace := trace w1 ++ [EvRefresh rating_key;
                                  EvSetSession rating_key code] |},
         Ret (StatusSuccess path lang prov upgraded, 200)))
  /\ (forall e1 e2,
        set_active_session_subtitle plex rating_key code e0 = (e1, false) ->
        set_active_session_subtitle plex rating_key code e1 = (e2, true) ->
        handle_event settings collab providers plex json_loads payload_str w
        = ({| ext := e2; files := files w1;
              trace := trace w1 ++ [EvRefresh rating_key;
                                    EvSetSession rating_key code; EvSleep 3;
                                    EvSetSession rating_key code] |},
           Ret (StatusSuccess path lang prov upgraded, 200)))
  /\ (forall e1 e2 e3,
        set_active_session_subtitle plex rating_key code e0 = (e1, false) ->
        set_active_session_subtitle plex rating_key code e1 = (e2, false) ->
        set_active_session_subtitle plex rating_key code e2 = (e3, true) ->
        handle_event settings collab providers plex json_loads payload_str w
        = ({| ext := e3; files := files w1;
              trace := trace w1 ++ [EvRefresh rating_key;
                                    EvSetSession rating_key code; EvSleep 3;
                                    EvSetSession rating_key code; EvSleep 6;
                                    EvSetSession rating_key code] |},
           Ret (StatusSuccess path lang prov upgraded, 200))).
Proof.
  intros Hres Hauto Hr.
  assert (Hstart :
            forall w2 response,
              (let w' := {| ext := e0; files := files w1;
                            trace := trace w1 ++ [EvRefresh rating_key] |} in
               _try_set_session_subtitle_with_retry plex rating_key code w'
               = (w2, Ret true)) ->
              response = (StatusSuccess path lang prov upgraded, 200) ->
              handle_event settings collab providers plex json_loads payload_str w
              = (w2, Ret response)).
  { intros w2 response Hs ->. apply played_answer. rewrite Hres.
    unfold after_download. rewrite Hauto.
    cbv [bind plex_call modify external emit with_ext]. cbn [ext files trace].
    rewrite Hr. cbn [ext files trace]. cbv zeta in Hs. rewrite Hs.
    reflexivity. }
  split; [|split].
  - intros e1 H1. apply Hstart; [|reflexivity]. cbv zeta.
    rewrite (session_found_first plex rating_key code _ e1) by exact H1.
    cbn [ext files trace]. rewrite <- !app_assoc. reflexivity.
  - intros e1 e2 H1 H2. apply Hstart; [|reflexivity]. cbv zeta.
    rewrite (session_found_second plex rating_key code _ e1 e2)
      by (cbn [ext]; assumption).
    cbn [ext files trace]. rewrite <- !app_assoc. reflexivity.
  - intros e1 e2 e3 H1 H2 H3. apply Hstart; [|reflexivity]. cbv zeta.
    rewrite (session_found_third plex rating_key code _ e1 e2 e3)
      by (cbn [ext]; assumption).
    cbn [ext files trace]. rewrite <- !app_assoc. reflexivity.
Qed.

End Played.

(** Nothing is found for the film: 404 after the two searches. *)
Lemma played_not_found_witness :
  handle_event PipelineScenario.settings PipelineScenario.collab
    WebhookVariants.no_providers_found WebhookScenario.plex
    WebhookScenario.json_loads "{}" PipelineScenario.start_empty
  = ({| ext := 3%nat; files := ∅;
        trace := [EvSearch "opensubtitles" "en"; EvSearch "opensubtitles" "nl"] |},
     Ret (StatusNotFound "No suitable subtitle found", 404)).
Proof.
  refine (played_not_found PipelineScenario.settings PipelineScenario.collab
            WebhookVariants.no_providers_found WebhookScenario.plex
            WebhookScenario.json_loads "{}" "media.play" "42"
            PipelineScenario.media_path
            {| event := Some "media.play"; metadata_ratingKey := Some "42" |}
            WebhookScenario.info PipelineScenario.start_empty _ 1%nat
            (NotDownloaded None) _ _ _ _ _ _ _ _ _ None _);
    try reflexivity.
  unfold PROCESSABLE_EVENTS. apply list_elem_of_here.
Defined.

(** The download succeeds and nothing is selected. *)
Lemma played_no_select_witness :
  handle_event WebhookVariants.settings_no_select PipelineScenario.collab
    WebhookScenario.providers WebhookScenario.plex
    WebhookScenario.json_loads "{}" PipelineScenario.start_empty
  = ({| ext := 4%nat; files := {["/m/Heat.en.srt"]};
        trace := [EvSearch "opensubtitles" "en";
                  EvDownload "opensubtitles" "7" "/m/Heat.en.srt";
                  EvVerify "/m/Heat.en.srt" "en"] ++ [EvRefresh "42"] |},
     Ret (StatusSuccess "/m/Heat.en.srt" "en" "opensubtitles" false, 200)).
Proof.
  refine (played_no_select WebhookVariants.settings_no_select
            PipelineScenario.collab WebhookScenario.providers
            WebhookScenario.plex WebhookScenario.json_loads
            "{}" "media.play" "42" PipelineScenario.media_path
            {| event := Some "media.play"; metadata_ratingKey := Some "42" |}
            WebhookScenario.info PipelineScenario.start_empty
            {| ext := 3%nat; files := {["/m/Heat.en.srt"]};
               trace := [EvSearch "opensubtitles" "en";
                         EvDownload "opensubtitles" "7" "/m/Heat.en.srt";
                         EvVerify "/m/Heat.en.srt" "en"] |}
            1%nat _ _ _ _ _ _ _ _ _ _
            "/m/Heat.en.srt" "en" "eng" "opensubtitles" false 4%nat true _ _ _);
    try reflexivity.
  - unfold PROCESSABLE_EVENTS. apply list_elem_of_here.
  - vm_compute. reflexivity.
Defined.

(** The session is found at the second attempt. *)
Lemma played_session_found_witness :
  handle_event PipelineScenario.settings PipelineScenario.collab
    WebhookScenario.providers WebhookVariants.plex_late_session
    WebhookScenario.json_loads "{}" PipelineScenario.start_empty
  = ({| ext := 6%nat; files := {["/m/Heat.en.srt"]};
        trace := [EvSearch "opensubtitles" "en";
                  EvDownload "opensubtitles" "7" "/m/Heat.en.srt";
                  EvVerify "/m/Heat.en.srt" "en"]
                 ++ [EvRefresh "42";
                     EvSetSession "42" "eng"; EvSleep 3;
                     EvSetSession "42" "eng"] |},
     Ret (StatusSuccess "/m/Heat.en.srt" "en" "opensubtitles" false, 200)).
Proof.
  refine (proj1 (proj2 (played_session_found PipelineScenario.settings
            PipelineScenario.collab WebhookScenario.providers
            WebhookVariants.plex_late_session WebhookScenario.json_loads
            "{}" "media.play" "42" PipelineScenario.media_path
            {| event := Some "media.play"; metadata_ratingKey := Some "42" |}
            WebhookScenario.info PipelineScenario.start_empty
            {| ext := 3%nat; files := {["/m/Heat.en.srt"]};
               trace := [EvSearch "opensubtitles" "en";
                         EvDownload "opensubtitles" "7" "/m/Heat.en.srt";
                         EvVerify "/m/Heat.en.srt" "en"] |}
            1%nat _ _ _ _ _ _ _ _ _ _
            "/m/Heat.en.srt" "en" "eng" "opensubtitles" false 4%nat true _ _ _))
            5%nat 6%nat _ _);
    try reflexivity.
  - unfold PROCESSABLE_EVENTS. apply list_elem_of_here.
  - vm_compute. reflexivity.
Defined.

(** X15.  For a play event with a rating key, a Plex error while the
    media information is fetched is answered 500 with the message of the
    error, missing media information and a missing file path are
    answered 500, and an error of another kind leaves the handler as it
    is; in each case no provider is searched and no file is touched. *)
Theorem handle_event_without_media
    (E : Type) (settings : Settings) (collab : Collaborators E)
    (providers : list (BaseProvider E)) (plex : PlexClient E)
    (json_loads : string -> option payload)
    (payload_str ev rating_key : string) (pl : payload)
    (w : world E) (e' : E) :
  json_loads payload_str = Some pl ->
  event pl = Some ev ->
  ev ∈ PROCESSABLE_EVENTS ->
  metadata_ratingKey pl = Some rating_key ->
  truthy rating_key = true ->
  (forall e,
      get_media_info plex rating_key (ext w) = (e', Raise e) ->
      handle_event settings collab providers plex json_loads payload_str w
      = ({| ext := e'; files := files w; trace := trace w |},
         if isinstance e [PlexSubtitleError]
         then Ret (StatusError (exn_msg e), 500)
         else Raise e))
  /\ (get_media_info plex rating_key (ext w) = (e', Ret None) ->
      handle_event settings collab providers plex json_loads payload_str w
      = ({| ext := e'; files := files w; trace := trace w |},
         Ret (StatusError "Could not get media info", 500)))
  /\ (forall info,
        get_media_info plex rating_key (ext w) = (e', Ret (Some info)) ->
        truthy_opt (file_path info) = false ->
        handle_event settings collab providers plex json_loads payload_str w
        = ({| ext := e'; files := files w; trace := trace w |},
           Ret (StatusError "Could not get file path", 500))).
Proof.
  intros Hj Hev Hin Hrk Htr.
  assert (Hstart :
            handle_event settings collab providers plex json_loads payload_str w
            = try_except
                (let* media_info := external (get_media_info plex rating_key) in
                 match media_info with
                 | None => ret (StatusError "Could not get media info", 500)
                 | Some info =>
                     if negb (truthy_opt (file_path info))
                     then ret (StatusError "Could not get file path", 500)
                     else
                       let* r :=
                         download_subtitles settings collab providers
                           (default "" (file_path info)) (title info) (year info)
                           (imdb_id info) (Some rating_key) in
                       after_download settings plex rating_key r
                 end)%eff
                (on_plex_subtitle_error (E := E)) w).
  { unfold handle_event. rewrite Hj, Hev, Hrk.
    rewrite bool_decide_eq_true_2
      by (apply (list_elem_of_fmap_2 Some); exact Hin).
    cbn [negb truthy_opt default]. rewrite Htr. reflexivity. }
  rewrite Hstart. cbv [try_except bind external with_ext ret].
  split; [|split].
  - intros e ->. unfold on_plex_subtitle_error.
    destruct (isinstance e [PlexSubtitleError]); reflexivity.
  - intros ->. reflexivity.
  - intros info -> ->. reflexivity.
Qed.

(** The server is down: 500 with the client's message. *)
Lemma handle_event_without_media_witness :
  handle_event PipelineScenario.settings PipelineScenario.collab
    WebhookScenario.providers WebhookVariants.plex_down
    WebhookScenario.json_loads "{}" PipelineScenario.start_empty
  = ({| ext := 1%nat; files := ∅; trace := [] |},
     Ret (StatusError "Failed to get media info: timeout", 500)).
Proof.
  refine (proj1 (handle_event_without_media nat PipelineScenario.settings
            PipelineScenario.collab WebhookScenario.providers
            WebhookVariants.plex_down WebhookScenario.json_loads
            "{}" "media.play" "42"
            {| event := Some "media.play"; metadata_ratingKey := Some "42" |}
            PipelineScenario.start_empty 1%nat _ _ _ _ _)
            {| exn_cls := PlexAPIError;
               exn_msg := "Failed to get media info: timeout" |} _);
    try reflexivity.
  unfold PROCESSABLE_EVENTS. apply list_elem_of_here.
Defined.

End HandlerFacts.

(* ===================================================================== *)
(** * More facts: strip, split and replace *)
(* ===================================================================== *)

Module PyTextFacts.
Import PyStr PyStrFacts PyText.

Lemma lstrip_list_head (l : list ascii) :
  match lstrip_list l with
  | [] => True
  | c :: _ => is_space c = false
  end.
Proof.
  induction l as [|c l IH]; simpl; [trivial|].
  destruct (is_space c) eqn:Hc; [exact IH | exact Hc].
Qed.

Lemma lstrip_list_fixed (c : ascii) (l : list ascii) :
  is_space c = false -> lstrip_list (c :: l) = c :: l.
Proof. intros H. simpl. now rewrite H. Qed.

Lemma rstrip_list_head (c : ascii) (l : list ascii) :
  is_space c = false -> exists r, rstrip_list (c :: l) = c :: r.
Proof.
  intros H. simpl. destruct (rstrip_list l); [rewrite H|]; eauto.
Qed.

Lemma rstrip_list_idemp (l : list ascii) :
  rstrip_list (rstrip_list l) = rstrip_list l.
Proof.
  induction l as [|c l IH]; simpl; [reflexivity|].
  destruct (rstrip_list l) as [|k ks] eqn:Hr.
  - destruct (is_space c) eqn:Hc; simpl; [reflexivity | now rewrite Hc].
  - cbn [rstrip_list]. cbn [rstrip_list] in IH. rewrite IH. reflexivity.
Qed.

Lemma strip_list_idemp (l : list ascii) :
  rstrip_list (lstrip_list (rstrip_list (lstrip_list l)))
  = rstrip_list (lstrip_list l).
Proof.
  pose proof (lstrip_list_head l) as Hh.
  destruct (lstrip_list l) as [|c m]; [reflexivity|].
  destruct (rstrip_list_head c m Hh) as [r Hr]. rewrite Hr.
  rewrite (lstrip_list_fixed c r Hh), <- Hr. apply rstrip_list_idemp.
Qed.

(** Stripping twice is stripping once. *)
Lemma strip_idemp (s : string) : strip (strip s) = strip s.
Proof.
  unfold strip. rewrite list_ascii_of_string_of_list_ascii.
  now rewrite strip_list_idemp.
Qed.

Lemma lower_ascii_idemp (c : ascii) : lower_ascii (lower_ascii c) = lower_ascii c.
Proof. destruct c as [[] [] [] [] [] [] [] []]; reflexivity. Qed.

Lemma lower_idemp (s : string) : lower (lower s) = lower s.
Proof.
  induction s as [|c s IH]; simpl; [reflexivity|].
  now rewrite lower_ascii_idemp, IH.
Qed.



Lemma is_space_lower (c : ascii) : is_space (lower_ascii c) = is_space c.
Proof. destruct c as [[] [] [] [] [] [] [] []]; reflexivity. Qed.

Lemma lower_list (s : string) :
  list_ascii_of_string (lower s) = List.map lower_ascii (list_ascii_of_string s).
Proof. induction s as [|c s IH]; simpl; [reflexivity | now rewrite IH]. Qed.

Lemma lower_of_list (l : list ascii) :
  lower (string_of_list_ascii l) = string_of_list_ascii (List.map lower_ascii l).
Proof. induction l as [|c l IH]; simpl; [reflexivity | now rewrite IH]. Qed.

Lemma lstrip_list_lower (l : list ascii) :
  lstrip_list (List.map lower_ascii l) = List.map lower_ascii (lstrip_list l).
Proof.
  induction l as [|c l IH]; simpl; [reflexivity|].
  rewrite is_space_lower. destruct (is_space c); [exact IH | reflexivity].
Qed.

Lemma rstrip_list_lower (l : list ascii) :
  rstrip_list (List.map lower_ascii l) = List.map lower_ascii (rstrip_list l).
Proof.
  induction l as [|c l IH]; simpl; [reflexivity|].
  rewrite IH, is_space_lower.
  destruct (rstrip_list l); simpl; [destruct (is_space c)|]; reflexivity.
Qed.

(** Lower-casing and stripping commute. *)
Lemma strip_lower (s : string) : strip (lower s) = lower (strip s).
Proof.
  unfold strip. rewrite lower_list, lstrip_list_lower, rstrip_list_lower.
  now rewrite lower_of_list.
Qed.

Lemma lacks_app (c : ascii) (a b : string) :
  lacks c (a +:+ b) = lacks c a && lacks c b.
Proof.
  induction a as [|x a IH]; simpl; [reflexivity|].
  rewrite IH. now rewrite andb_assoc.
Qed.

Lemma split_on_lacks (sep : ascii) (s : string) :
  lacks sep s = true -> split_on sep s = [s].
Proof.
  induction s as [|c s IH]; simpl; [reflexivity|].
  intros H. apply andb_true_iff in H. destruct H as [Hc Hs].
  apply negb_true_iff in Hc. rewrite Hc, (IH Hs). reflexivity.
Qed.

Lemma split_on_sep (sep : ascii) (a b : string) :
  lacks sep a = true ->
  split_on sep (a +:+ String sep b) = a :: split_on sep b.
Proof.
  induction a as [|c a IH]; simpl.
  - intros _. now rewrite Ascii.eqb_refl.
  - intros H. apply andb_true_iff in H. destruct H as [Hc Ha].
    apply negb_true_iff in Hc. rewrite Hc, (IH Ha). reflexivity.
Qed.

(** Splitting what was joined gives the pieces back. *)
Lemma split_on_join (sep : ascii) (pieces : list string) :
  pieces <> [] ->
  Forall (fun p => lacks sep p = true) pieces ->
  split_on sep (join_with sep pieces) = pieces.
Proof.
  induction pieces as [|p pieces IH]; [congruence|]. intros _ Hall.
  inversion Hall as [|? ? Hp Hrest]; subst.
  destruct pieces as [|q pieces].
  - simpl. now apply split_on_lacks.
  - change (join_with sep (p :: q :: pieces))
      with (p +:+ String sep (join_with sep (q :: pieces))).
    rewrite (split_on_sep sep p _ Hp), IH; [reflexivity | congruence | exact Hrest].
Qed.

Lemma partition_first_sep (sep : ascii) (a b : string) :
  lacks sep a = true ->
  partition_first sep (a +:+ String sep b) = Some (a, b).
Proof.
  induction a as [|c a IH]; simpl.
  - intros _. now rewrite Ascii.eqb_refl.
  - intros H. apply andb_true_iff in H. destruct H as [Hc Ha].
    apply negb_true_iff in Hc. rewrite Hc, (IH Ha). reflexivity.
Qed.

Lemma string_drop_app (a b : string) : string_drop (String.length a) (a +:+ b) = b.
Proof. induction a as [|c a IH]; simpl; [now destruct b | exact IH]. Qed.

Lemma prefix_app (a b : string) : String.prefix a (a +:+ b) = true.
Proof. apply prefix_iff. now exists b. Qed.

(** Replacing a prefix. *)
Lemma replace_first_prefix (old new rest : string) :
  replace_first old new (old +:+ rest) = new +:+ rest.
Proof.
  destruct (old +:+ rest) eqn:Hs; cbn [replace_first];
    rewrite <- Hs, prefix_app, string_drop_app; reflexivity.
Qed.


End PyTextFacts.

(* ===================================================================== *)
(** * More facts: path mappings *)
(* ===================================================================== *)

Module PathUtilsFacts.
Import PyStr PyStrFacts PyText PyTextFacts PathUtils.

(** X16.  A path that none of the old paths starts is returned as it
    is; otherwise the first mapping -- in the order of the dict -- whose
    old path starts the path is the one applied, and it exchanges that
    prefix for the new path and keeps the rest. *)
Theorem apply_path_mappings_first_match :
  (forall (file_path : string) (path_mappings : dict string),
      Forall (fun m => startswith (fst m) file_path = false) path_mappings ->
      apply_path_mappings file_path path_mappings = file_path)
  /\ (forall (old_path new_path rest : string) (before after : dict string),
        Forall (fun m => startswith (fst m) (old_path +:+ rest) = false) before ->
        apply_path_mappings (old_path +:+ rest)
                            (before ++ (old_path, new_path) :: after)%list
        = new_path +:+ rest).
Proof.
  split.
  - intros file_path path_mappings H.
    induction H as [|[old new] l Hm _ IH]; simpl; [reflexivity|].
    cbn [fst] in Hm. now rewrite Hm.
  - intros old_path new_path rest before after H.
    induction H as [|[old new] l Hm _ IH]; simpl.
    + unfold startswith. rewrite prefix_app. apply replace_first_prefix.
    + cbn [fst] in Hm. now rewrite Hm.
Qed.

(** [/media] is mapped although [/media/movies] comes later and is
    longer. *)
Lemma apply_path_mappings_first_match_witness :
  apply_path_mappings ("/media" +:+ "/movies/movie.mkv")
                      ([("/data", "/mnt/data")]
                         ++ ("/media", "/mnt/library")
                         :: [("/media/movies", "/mnt/movies")])%list
  = "/mnt/library" +:+ "/movies/movie.mkv".
Proof.
  apply (proj2 apply_path_mappings_first_match "/media" "/mnt/library"
               "/movies/movie.mkv" [("/data", "/mnt/data")]
               [("/media/movies", "/mnt/movies")]).
  repeat constructor.
Defined.

Lemma dict_set_keys (k v : string) (d : dict string) (x : string) :
  x ∈ List.map fst (dict_set k v d) <-> x = k \/ x ∈ List.map fst d.
Proof.
  induction d as [|[k' v'] d IH]; simpl.
  - rewrite elem_of_cons, elem_of_nil. tauto.
  - destruct (String.eqb_spec k' k) as [->|Hne]; simpl.
    + rewrite !elem_of_cons. tauto.
    + rewrite !elem_of_cons, IH. tauto.
Qed.

Lemma dict_set_NoDup (k v : string) (d : dict string) :
  NoDup (List.map fst d) -> NoDup (List.map fst (dict_set k v d)).
Proof.
  induction d as [|[k' v'] d IH]; simpl.
  - intros _. repeat constructor. apply not_elem_of_nil.
  - intros H. apply NoDup_cons in H. destruct H as [Hk Hd].
    destruct (String.eqb_spec k' k) as [->|Hne]; simpl.
    + apply NoDup_cons. split; assumption.
    + apply NoDup_cons. split; [|apply IH, Hd].
      rewrite dict_set_keys. intros [?|?]; [congruence | contradiction].
Qed.

Lemma dict_set_Forall (P : string * string -> Prop) (k v : string)
    (d : dict string) :
  P (k, v) -> (forall k' v', P (k', v') -> P (k', v)) ->
  Forall P d -> Forall P (dict_set k v d).
Proof.
  intros Hkv Hval. induction 1 as [|[k' v'] d Hx Hd IH]; simpl.
  - repeat constructor. exact Hkv.
  - destruct (String.eqb_spec k' k) as [->|Hne]; constructor; auto.
Qed.

Lemma dict_set_nonempty (k v : string) (d : dict string) : dict_set k v d <> [].
Proof. destruct d as [|[k' v'] d]; simpl; [|destruct (String.eqb k' k)]; discriminate. Qed.

Lemma add_mappings_invariant (pieces : list string) (acc : dict string) :
  NoDup (List.map fst acc) -> Forall stripped acc ->
  NoDup (List.map fst (fold_left add_mapping pieces acc))
  /\ Forall stripped (fold_left add_mapping pieces acc).
Proof.
  revert acc; induction pieces as [|piece pieces IH]; intros acc Hn Hs;
    cbn [fold_left]; [split; assumption|].
  apply IH; unfold add_mapping;
    destruct (partition_first ":" piece) as [[src dst]|]; try assumption.
  - now apply dict_set_NoDup.
  - apply dict_set_Forall; [| |exact Hs].
    + split; apply strip_idemp.
    + intros k' v' [Hk _]. split; [exact Hk | apply strip_idemp].
Qed.

(** X17.  Whatever the configured string, the parsed mappings are never
    empty -- without a usable entry the default [/media] to
    [/mnt/library] is used --, no old path occurs twice, and all paths
    are free of surrounding white space. *)
Theorem parse_path_mappings_usable (value : option string) :
  parse_path_mappings value <> []
  /\ NoDup (List.map fst (parse_path_mappings value))
  /\ Forall stripped (parse_path_mappings value).
Proof.
  assert (Hdefault : DEFAULT_PATH_MAPPINGS <> []
                     /\ NoDup (List.map fst DEFAULT_PATH_MAPPINGS)
                     /\ Forall stripped DEFAULT_PATH_MAPPINGS).
  { split; [discriminate|]. split.
    - repeat constructor. apply not_elem_of_nil.
    - repeat constructor. }
  unfold parse_path_mappings. destruct value as [v|]; [|exact Hdefault].
  destruct (negb (truthy v)); [exact Hdefault|].
  destruct (add_mappings_invariant (split_on "," v) [])
    as [Hn Hs]; [constructor | constructor |].
  destruct (fold_left add_mapping (split_on "," v) []) as [|m ms];
    [exact Hdefault|].
  split; [discriminate | split; assumption].
Qed.

Lemma dict_set_fresh (k v : string) (d : dict string) :
  k ∉ List.map fst d -> dict_set k v d = (d ++ [(k, v)])%list.
Proof.
  induction d as [|[k' v'] d IH]; simpl; [reflexivity|].
  rewrite not_elem_of_cons. intros [Hne Hd].
  destruct (String.eqb_spec k' k) as [->|_]; [congruence|].
  now rewrite IH.
Qed.

Lemma add_written (acc : dict string) (l : dict string) :
  Forall writable l ->
  NoDup (List.map fst (acc ++ l)%list) ->
  fold_left add_mapping (List.map (fun '(src, dst) => src +:+ String ":" dst) l) acc
  = (acc ++ l)%list.
Proof.
  intros Hw; revert acc. induction Hw as [|[src dst] l Hm _ IH]; intros acc Hn.
  - simpl. now rewrite app_nil_r.
  - cbn [List.map fold_left].
    destruct Hm as ([Hs Hd] & _ & Hcolon & _). cbn [fst snd] in *.
    unfold add_mapping at 2. rewrite (partition_first_sep ":" src dst Hcolon).
    rewrite Hs, Hd.
    assert (Hfresh : src ∉ List.map fst acc).
    { rewrite map_app in Hn. apply NoDup_app in Hn.
      destruct Hn as (_ & Hdisj & _). intros Hin. apply (Hdisj src Hin).
      simpl. apply list_elem_of_here. }
    rewrite (dict_set_fresh src dst acc Hfresh), IH.
    + now rewrite <- app_assoc.
    + now rewrite <- app_assoc.
Qed.

Lemma join_with_truthy (sep : ascii) (p : string) (ps : list string) :
  truthy p = true -> truthy (join_with sep (p :: ps)) = true.
Proof.
  intros Hp. destruct ps as [|q ps]; [exact Hp|].
  cbn [join_with]. destruct p; [discriminate | reflexivity].
Qed.

(** X18.  Parsing reads back what the documented format writes: for
    mappings with distinct old paths, stripped paths, no comma in either
    path and no colon in an old path, parsing the text [old:new,old:new,...]
    (each pair joined by a colon, the pairs joined by commas) gives the
    mappings back, in their order. *)
Theorem parse_path_mappings_round_trip (mappings : dict string) :
  mappings <> [] ->
  NoDup (List.map fst mappings) ->
  Forall writable mappings ->
  parse_path_mappings
    (Some (join_with ","
             (List.map (fun '(src, dst) => src +:+ String ":" dst) mappings)))
  = mappings.
Proof.
  intros Hne Hn Hw. unfold parse_path_mappings.
  destruct mappings as [|[src dst] rest] eqn:Hm; [congruence|]. rewrite <- Hm in *.
  assert (Htruthy : truthy (join_with ","
                      (List.map (fun '(s, d) => s +:+ String ":" d) mappings)) = true).
  { rewrite Hm. cbn [List.map]. apply join_with_truthy.
    destruct src; reflexivity. }
  rewrite Htruthy. cbn [negb].
  rewrite split_on_join.
  - rewrite (add_written [] mappings Hw Hn). cbn [app].
    rewrite Hm. reflexivity.
  - rewrite Hm. discriminate.
  - clear -Hw. induction Hw as [|[s d] l Hx _ IH]; cbn [List.map]; constructor;
      [|exact IH].
    destruct Hx as (_ & Hs & _ & Hd). cbn [fst snd] in *.
    rewrite lacks_app. cbn [lacks]. now rewrite Hs, Hd.
Qed.

(** The example of the docstring. *)
Lemma parse_path_mappings_round_trip_witness :
  parse_path_mappings (Some "/media:/mnt/library,/data:/mnt/data")
  = [("/media", "/mnt/library"); ("/data", "/mnt/data")].
Proof.
  apply (parse_path_mappings_round_trip
           [("/media", "/mnt/library"); ("/data", "/mnt/data")]).
  - discriminate.
  - repeat constructor; [|apply not_elem_of_nil].
    rewrite not_elem_of_cons. split; [discriminate | apply not_elem_of_nil].
  - repeat constructor.
Defined.

End PathUtilsFacts.

(* ===================================================================== *)
(** * More facts: the language list and the language table *)
(* ===================================================================== *)

Module LanguageFacts.
Import PyStr PyStrFacts PyText PyTextFacts Validators LanguageCodes.

(** ** White space and separators *)

Lemma lstrip_list_length (l : list ascii) :
  (length (lstrip_list l) <= length l)%nat.
Proof.
  induction l as [|c l IH]; simpl; [lia|].
  destruct (is_space c); simpl; lia.
Qed.

Lemma rstrip_list_length (l : list ascii) :
  (length (rstrip_list l) <= length l)%nat.
Proof.
  induction l as [|c l IH]; simpl; [lia|].
  destruct (rstrip_list l); [destruct (is_space c)|]; simpl in *; lia.
Qed.

(** A stripped text does not start with white space. *)
Lemma stripped_head (c : ascii) (s : string) :
  strip (String c s) = String c s -> is_space c = false.
Proof.
  unfold strip. intros H.
  apply (f_equal list_ascii_of_string) in H.
  rewrite list_ascii_of_string_of_list_ascii in H.
  cbn [list_ascii_of_string lstrip_list] in H.
  destruct (is_space c); [|reflexivity].
  apply (f_equal (@length ascii)) in H. cbn [length] in H.
  pose proof (rstrip_list_length (lstrip_list (list_ascii_of_string s))).
  pose proof (lstrip_list_length (list_ascii_of_string s)). lia.
Qed.

(** A text that starts with something else than white space is not
    stripped to nothing. *)
Lemma strip_truthy (c : ascii) (s : string) :
  is_space c = false -> truthy (strip (String c s)) = true.
Proof.
  intros Hc. unfold strip. cbn [list_ascii_of_string].
  rewrite (lstrip_list_fixed _ _ Hc).
  destruct (rstrip_list_head c (list_ascii_of_string s) Hc) as [r ->].
  reflexivity.
Qed.

Lemma lacks_list (c : ascii) (s : string) :
  lacks c s = true <-> Forall (fun x => x <> c) (list_ascii_of_string s).
Proof.
  induction s as [|x s IH]; simpl.
  - split; [constructor | reflexivity].
  - rewrite andb_true_iff, negb_true_iff, Forall_cons, IH.
    destruct (Ascii.eqb_spec x c); intuition congruence.
Qed.

Lemma lacks_of_list (c : ascii) (l : list ascii) :
  Forall (fun x => x <> c) l -> lacks c (string_of_list_ascii l) = true.
Proof.
  intros H. apply lacks_list. now rewrite list_ascii_of_string_of_list_ascii.
Qed.

Lemma lstrip_list_Forall (P : ascii -> Prop) (l : list ascii) :
  Forall P l -> Forall P (lstrip_list l).
Proof.
  induction 1 as [|c l Hc Hl IH]; simpl; [constructor|].
  destruct (is_space c); [exact IH | now constructor].
Qed.

Lemma rstrip_list_Forall (P : ascii -> Prop) (l : list ascii) :
  Forall P l -> Forall P (rstrip_list l).
Proof.
  induction 1 as [|c l Hc Hl IH]; simpl; [constructor|].
  destruct (rstrip_list l); [destruct (is_space c)|].
  - constructor.
  - now repeat constructor.
  - now constructor.
Qed.

Lemma lacks_strip (c : ascii) (s : string) :
  lacks c s = true -> lacks c (strip s) = true.
Proof.
  intros H. apply lacks_of_list, rstrip_list_Forall, lstrip_list_Forall.
  now apply lacks_list.
Qed.

Lemma comma_lower (x : ascii) :
  Ascii.eqb (lower_ascii x) "," = Ascii.eqb x ",".
Proof. destruct x as [[] [] [] [] [] [] [] []]; reflexivity. Qed.

Lemma lacks_comma_lower (s : string) : lacks "," (lower s) = lacks "," s.
Proof.
  induction s as [|x s IH]; simpl; [reflexivity|].
  now rewrite comma_lower, IH.
Qed.

(** No piece of a split holds the separator. *)
Lemma split_on_pieces (sep : ascii) (s : string) :
  Forall (fun p => lacks sep p = true) (split_on sep s).
Proof.
  induction s as [|c s IH]; simpl.
  - repeat constructor.
  - destruct (Ascii.eqb_spec c sep) as [->|Hne].
    + constructor; [reflexivity | exact IH].
    + destruct (split_on sep s) as [|piece pieces]; simpl.
      * repeat constructor. simpl.
        destruct (Ascii.eqb_spec c sep); [congruence | reflexivity].
      * inversion IH as [|? ? Hp Hps]; subst. constructor; [|exact Hps].
        simpl. rewrite Hp.
        destruct (Ascii.eqb_spec c sep); [congruence | reflexivity].
Qed.

Lemma truthy_lower (s : string) : truthy (lower s) = truthy s.
Proof. destruct s; reflexivity. Qed.

(** ** [parse_language_codes] *)

Section LanguageList.
Variable VALID : list string.

Lemma keep_valid_kept (pieces languages : list string) :
  Forall (fun p => lacks "," p = true) pieces ->
  Forall (kept VALID) languages ->
  Forall (kept VALID) (fold_left (keep_valid VALID) pieces languages).
Proof.
  intros Hp; revert languages.
  induction Hp as [|p pieces Hc _ IH]; intros languages Hl; [exact Hl|].
  cbn [fold_left]. apply IH. unfold keep_valid.
  destruct (truthy (lower (strip p))) eqn:Ht; [|exact Hl].
  destruct (bool_decide_reflect (lower (strip p) ∈ VALID)) as [Hin|_];
    [|exact Hl].
  cbn [andb]. apply Forall_app. split; [exact Hl|].
  repeat constructor; try assumption.
  - apply lower_idemp.
  - now rewrite strip_lower, strip_idemp.
  - rewrite lacks_comma_lower. now apply lacks_strip.
Qed.

Lemma keep_valid_all (l languages : list string) :
  Forall (kept VALID) l ->
  fold_left (keep_valid VALID) l languages = (languages ++ l)%list.
Proof.
  intros Hl; revert languages.
  induction Hl as [|e l He _ IH]; intros languages.
  - now rewrite app_nil_r.
  - cbn [fold_left]. destruct He as (Hin & Ht & Hlow & Hs & _).
    unfold keep_valid at 2. rewrite Hs, Hlow, Ht.
    rewrite (bool_decide_eq_true_2 _ Hin). cbn [andb].
    rewrite IH. now rewrite <- app_assoc.
Qed.

Lemma parse_language_codes_cases (value : option string) :
  parse_language_codes VALID value = ["en"]
  \/ (parse_language_codes VALID value <> []
      /\ Forall (kept VALID) (parse_language_codes VALID value)).
Proof.
  unfold parse_language_codes.
  destruct value as [v|]; [|now left].
  destruct (negb (truthy v) || negb (truthy (strip v))); [now left|].
  pose proof (keep_valid_kept (split_on "," v) [] (split_on_pieces "," v)
                (Forall_nil_2 _)) as Hk.
  destruct (fold_left (keep_valid VALID) (split_on "," v) []) as [|e l];
    [now left|].
  right. split; [discriminate | exact Hk].
Qed.

(** X19.  The configured language list is never empty, and it is
    either the default [["en"]] or made of known codes only, each in
    lower case, non-empty and without white space around it. *)
Theorem parse_language_codes_spec (value : option string) :
  parse_language_codes VALID value <> []
  /\ (parse_language_codes VALID value = ["en"]
      \/ Forall (fun lang => lang ∈ VALID /\ truthy lang = true
                             /\ lower lang = lang /\ strip lang = lang)
           (parse_language_codes VALID value)).
Proof.
  destruct (parse_language_codes_cases value) as [He|[Hne Hk]].
  - rewrite He. split; [discriminate | now left].
  - split; [exact Hne|]. right.
    eapply Forall_impl; [exact Hk|].
    intros lang (? & ? & ? & ? & _). auto.
Qed.

(** X20.  Writing a parsed language list with commas and parsing it
    again gives the same list: parsing is idempotent, whatever the set
    of known codes is. *)
Theorem parse_language_codes_idempotent (value : option string) :
  parse_language_codes VALID
    (Some (join_with "," (parse_language_codes VALID value)))
  = parse_language_codes VALID value.
Proof.
  destruct (parse_language_codes_cases value) as [He|[Hne Hk]].
  - rewrite He. unfold parse_language_codes.
    change (join_with "," ["en"]) with "en".
    change (strip "en") with "en". cbn [truthy negb orb].
    change (split_on "," "en") with ["en"].
    cbn [fold_left]. unfold keep_valid.
    change (lower (strip "en")) with "en".
    destruct (bool_decide ("en" ∈ VALID)); reflexivity.
  - destruct (parse_language_codes VALID value) as [|e l] eqn:Hr;
      [congruence|].
    assert (Hc : Forall (fun p => lacks "," p = true) (e :: l)).
    { eapply Forall_impl; [exact Hk|]. now intros lang (_ & _ & _ & _ & ?). }
    inversion Hk as [|? ? (Hin & Ht & Hlow & Hs & Hcomma) Hkl]; subst.
    destruct e as [|c e]; [discriminate|].
    pose proof (stripped_head c e Hs) as Hspace.
    assert (Hjoin : exists rest, join_with "," (String c e :: l) = String c rest).
    { destruct l as [|e' l]; [now exists e|].
      cbn [join_with]. now eexists. }
    destruct Hjoin as [rest Hjoin].
    unfold parse_language_codes.
    assert (Hgo : negb (truthy (join_with "," (String c e :: l)))
                  || negb (truthy (strip (join_with "," (String c e :: l))))
                  = false).
    { rewrite Hjoin, (strip_truthy c rest Hspace). reflexivity. }
    rewrite Hgo.
    rewrite split_on_join by (discriminate || exact Hc).
    rewrite (keep_valid_all (String c e :: l) [] Hk). reflexivity.
Qed.

End LanguageList.

(** ** [_resolve_language_code] *)






(** ** Matching a detected language *)

Section Table.
Variable Lang : string -> option iso_lang.




End Table.

End LanguageFacts.

(* ===================================================================== *)
(** * More facts: the client of OpenSubtitles *)
(* ===================================================================== *)

Module ClientFacts.
Import PyStr Providers OpenSubtitles ManagerFacts.

Ltac crun :=
  cbv [bind ret raise try_except modify gets on_net];
  cbn [net token _token_expiry calls].

(** An error that is no [RequestException] is none of the errors the
    download retries on. *)
Lemma not_retryable (x : exn) :
  isinstance x [RequestException] = false ->
  isinstance x [HTTPError; RequestException] = false.
Proof. destruct x as [[] m]; simpl; congruence. Qed.

Section Client.
Context {E : Type}.
Variable now : E -> Q.
Variable login : M E (option string).
Variable session_request :
  string -> string -> option string -> option sent -> option sent -> M E response.
Variable requests_get : string -> M E string.
Variable write_file : string -> string -> M E unit.
Variable response_status : exn -> option Z.

Abbreviation authenticate := (_authenticate now login).
Abbreviation base_request := (base_make_request session_request).
Abbreviation make_request :=
  (_make_request now login session_request response_status).
Abbreviation make_request_body :=
  (_make_request_body now login session_request response_status).
Abbreviation link_request :=
  (request_link now login session_request response_status).
Abbreviation download_once :=
  (_download_with_retry now login session_request requests_get write_file
     response_status).
Abbreviation download_file :=
  (download now login session_request requests_get write_file response_status).

Lemma authenticate_valid (c : client E) :
  token_valid now c = true -> authenticate c = (c, Ret (token c)).
Proof. intros H. unfold _authenticate. crun. now rewrite H. Qed.

Lemma authenticate_raises (c c1 : client E) (x : exn) :
  authenticate c = (c1, Raise x) ->
  isinstance x [HTTPError; RequestException] = false.
Proof.
  unfold _authenticate. crun.
  destruct (token_valid now c) eqn:Hv; [discriminate|].
  cbv beta. rewrite Hv.
  destruct (login (net (record Login c))) as [e [t|y]]; [discriminate|].
  destruct (isinstance y [RequestException]) eqn:Hy; intros [= _ <-].
  - reflexivity.
  - now apply not_retryable.
Qed.

(** An error of the session is wrapped in a [PlexAPIError]. *)
Lemma base_request_fails (method endpoint : string)
    (params json_data : option sent) (c : client E) (e : E) (x : exn) :
  known_method method ->
  (forall m u b p j, session_request m u b p j (net c) = (e, Raise x)) ->
  isinstance x [RequestException] = true ->
  base_request method endpoint params json_data c
  = (with_net e (record (Request (upper method) (url_of endpoint) (bearer c)) c),
     Raise {| exn_cls := PlexAPIError;
              exn_msg := "Request failed: " +:+ exn_msg x |}).
Proof.
  intros Hm Hs Hx. unfold base_make_request. crun.
  destruct Hm as [Hm|[Hm|[Hm|Hm]]]; rewrite Hm; cbn [String.eqb Ascii.eqb Bool.eqb orb];
    crun; change (net (record _ c)) with (net c); rewrite Hs, Hx; reflexivity.
Qed.

Lemma body_raises (again : option (M (client E) api_answer))
    (method endpoint : string) (params json_data : option sent)
    (c c1 : client E) (x : exn) :
  (forall retry s s1 y, again = Some retry -> retry s = (s1, Raise y) ->
                        isinstance y [HTTPError; RequestException] = false) ->
  make_request_body again method endpoint params json_data c = (c1, Raise x) ->
  isinstance x [HTTPError; RequestException] = false.
Proof.
  intros Hagain. unfold _make_request_body. crun.
  destruct (authenticate c) as [c0 [t|y]] eqn:Ha.
  - destruct (base_request method endpoint params json_data c0)
      as [c2 [r|y]] eqn:Hb.
    + destruct (json r) as [a|y]; [discriminate|].
      destruct (carried_status response_status y) as [status|];
        [|intros [= _ <-]; reflexivity].
      destruct again as [retry|]; [|intros [= _ <-]; reflexivity].
      destruct (status =? 401); [|intros [= _ <-]; reflexivity].
      destruct (authenticate (set_token None c2)) as [c3 [t'|z]] eqn:Ha'.
      * intros Hr. eapply Hagain; [reflexivity | exact Hr].
      * intros [= _ <-]. eapply authenticate_raises; exact Ha'.
    + destruct (carried_status response_status y) as [status|];
        [|intros [= _ <-]; reflexivity].
      destruct again as [retry|]; [|intros [= _ <-]; reflexivity].
      destruct (status =? 401); [|intros [= _ <-]; reflexivity].
      destruct (authenticate (set_token None c2)) as [c3 [t'|z]] eqn:Ha'.
      * intros Hr. eapply Hagain; [reflexivity | exact Hr].
      * intros [= _ <-]. eapply authenticate_raises; exact Ha'.
  - intros [= _ <-]. eapply authenticate_raises; exact Ha.
Qed.

(** No error of [_make_request] is one the download retries on. *)
Lemma make_request_raises (retry_on_auth_error : bool)
    (method endpoint : string) (params json_data : option sent)
    (c c1 : client E) (x : exn) :
  make_request retry_on_auth_error method endpoint params json_data c
  = (c1, Raise x) ->
  isinstance x [HTTPError; RequestException] = false.
Proof.
  unfold _make_request. apply body_raises.
  intros retry s s1 y Hr Hy. destruct retry_on_auth_error; [|discriminate].
  injection Hr as <-. revert Hy. apply body_raises. discriminate.
Qed.

Lemma link_request_raises (subtitle : SubtitleResult) (t : option string)
    (c c1 : client E) (x : exn) :
  link_request subtitle t c = (c1, Raise x) ->
  isinstance x [HTTPError; RequestException] = false.
Proof.
  unfold request_link. crun. destruct (truthy_opt t); cbn [negb].
  - apply make_request_raises.
  - destruct (authenticate c) as [c0 [t'|y]] eqn:Ha.
    + apply make_request_raises.
    + intros [= _ <-]. eapply authenticate_raises; exact Ha.
Qed.

Lemma download_once_link_raises (subtitle : SubtitleResult)
    (output_path : string) (t : option string) (c c1 : client E) (x : exn) :
  link_request subtitle t c = (c1, Raise x) ->
  download_once subtitle output_path t c = (c1, Raise x).
Proof. intros H. unfold _download_with_retry. crun. now rewrite H. Qed.

(** An answer [True] comes right after the file is written. *)
Lemma download_once_saved (subtitle : SubtitleResult)
    (output_path : string) (t : option string) (c c1 : client E) :
  download_once subtitle output_path t c = (c1, Ret true) ->
  exists earlier, calls c1 = (earlier ++ [Save output_path])%list.
Proof.
  unfold _download_with_retry. crun.
  destruct (link_request subtitle t c) as [c0 [a|y]]; [|discriminate].
  destruct (truthy_opt (link a)); cbn [negb]; [|discriminate].
  destruct (requests_get _ _) as [e [content|y]]; [|discriminate].
  cbn [net with_net record].
  destruct (write_file _ _ _) as [e' [[]|y]]; [|discriminate].
  intros [= <-]. cbn [calls record with_net]. eauto.
Qed.

Lemma attempts_saved (subtitle : SubtitleResult) (output_path : string)
    (t : option string) (remaining : nat) (attempt : Z) (c c1 : client E) :
  attempts (fun delay => record (Pause delay)) 3 2
    [HTTPError; RequestException] (Some (fun _ _ _ s => s))
    (download_once subtitle output_path t) remaining attempt c
  = (c1, Ret true) ->
  exists earlier, calls c1 = (earlier ++ [Save output_path])%list.
Proof.
  revert attempt c. induction remaining as [|remaining IH]; intros attempt c.
  - discriminate.
  - cbn [attempts].
    destruct (download_once subtitle output_path t c) as [c0 [[]|y]] eqn:Hd.
    + intros [= <-]. eapply download_once_saved; exact Hd.
    + discriminate.
    + destruct (isinstance y [HTTPError; RequestException]); [|discriminate].
      destruct (attempt <? 3 - 1); [|discriminate]. apply IH.
Qed.

(** X24.  [_make_request] does not authenticate again after an HTTP
    error, not even after a 401 with [retry_on_auth_error] set: when
    the session answers a request with an error of [requests] --
    whatever response the error carries --, the one request is all
    that is done, the token is kept, and an [OpenSubtitlesError] that
    wraps the wrapped error is raised. *)
Theorem http_error_not_reauthenticated (retry_on_auth_error : bool)
    (method endpoint : string) (params json_data : option sent)
    (c c1 : client E) (t : option string) (e : E) (x : exn) :
  authenticate c = (c1, Ret t) ->
  known_method method ->
  (forall m u b p j, session_request m u b p j (net c1) = (e, Raise x)) ->
  isinstance x [RequestException] = true ->
  make_request retry_on_auth_error method endpoint params json_data c
  = (with_net e
       (record (Request (upper method) (url_of endpoint) (bearer c1)) c1),
     Raise {| exn_cls := OpenSubtitlesError;
              exn_msg := "Request failed: Request failed: " +:+ exn_msg x |}).
Proof.
  intros Ha Hm Hs Hx. unfold _make_request, _make_request_body. crun.
  rewrite Ha.
  rewrite (base_request_fails method endpoint params json_data c1 e x Hm Hs Hx).
  reflexivity.
Qed.

(** X25.  [download] never raises, and it answers [True] only when the
    last thing it did was to write the file at the output path. *)
Theorem download_never_raises (subtitle : SubtitleResult)
    (output_path : string) (t : option string) (c : client E) :
  exists c' saved,
    download_file subtitle output_path t c = (c', Ret saved)
    /\ (saved = true ->
        exists earlier, calls c' = (earlier ++ [Save output_path])%list).
Proof.
  unfold download, sync_wrapper. crun.
  destruct (attempts _ _ _ _ _ _ _ _ c) as [c' [saved|y]] eqn:Hr.
  - exists c', saved. split; [reflexivity|]. intros ->.
    eapply attempts_saved; exact Hr.
  - rewrite isinstance_Exception. exists c', false.
    split; [reflexivity | discriminate].
Qed.

(** X26.  A failure of the request for the download link -- of the
    login or of the request, a server error included -- is not
    retried: [download] answers [False] in the state the failure
    left, after no pause and no second request. *)
Theorem link_failure_not_retried (subtitle : SubtitleResult)
    (output_path : string) (t : option string) (c c1 : client E) (x : exn) :
  link_request subtitle t c = (c1, Raise x) ->
  download_file subtitle output_path t c = (c1, Ret false).
Proof.
  intros H. unfold download, sync_wrapper.
  change (Z.to_nat 3) with 3%nat. cbn [attempts]. crun.
  rewrite (download_once_link_raises subtitle output_path t c c1 x H).
  rewrite (link_request_raises subtitle t c c1 x H).
  now rewrite isinstance_Exception.
Qed.

(** One round of the download when the link is given and fetching
    the file fails. *)
Lemma download_once_fetch_fails (subtitle : SubtitleResult)
    (output_path : string) (t : option string) (c : client E)
    (served dropped : E -> E) (a : api_answer) (l : string) (x : exn) :
  truthy_opt t = true ->
  token_valid now c = true ->
  (forall m u b p j e,
      session_request m u b p j e = (served e, Ret {| json := Ret a |})) ->
  link a = Some l -> truthy l = true ->
  (forall e, requests_get l e = (dropped e, Raise x)) ->
  download_once subtitle output_path t c
  = (with_net (dropped (served (net c)))
       (record (Fetch l)
          (record (Request "POST" (url_of "/download") (bearer c)) c)),
     Raise x).
Proof.
  intros Ht Hv Hs Hl Hl' Hg.
  unfold _download_with_retry, request_link, _make_request, _make_request_body.
  crun. rewrite Ht. cbn [negb]. rewrite (authenticate_valid c Hv).
  unfold base_make_request. crun.
  change (upper "POST") with "POST".
  cbn [String.eqb Ascii.eqb Bool.eqb orb]. crun.
  change (net (record _ c)) with (net c). rewrite Hs.
  cbn [json]. rewrite Hl. cbn [truthy_opt]. rewrite Hl'. cbn [negb default].
  cbv [id]. cbn [net with_net record]. rewrite Hg. reflexivity.
Qed.

(** X27.  When the link is given but the file cannot be fetched,
    [download] makes three rounds, each of them asking the API for the
    link again, pauses 2 and then 4 seconds between them, and answers
    [False]. *)
Theorem fetch_failure_asks_link_again (subtitle : SubtitleResult)
    (output_path : string) (t : option string) (c : client E)
    (served dropped : E -> E) (a : api_answer) (l : string) (x : exn) :
  truthy_opt t = true ->
  truthy_opt (token c) = true ->
  (forall e, Ranking.Qlt_bool (now e) (_token_expiry c) = true) ->
  (forall m u b p j e,
      session_request m u b p j e = (served e, Ret {| json := Ret a |})) ->
  link a = Some l -> truthy l = true ->
  (forall e, requests_get l e = (dropped e, Raise x)) ->
  isinstance x [HTTPError; RequestException] = true ->
  let ask := Request "POST" (url_of "/download") (bearer c) in
  download_file subtitle output_path t c
  = ({| net := dropped (served (dropped (served (dropped (served (net c))))));
        token := token c;
        _token_expiry := _token_expiry c;
        calls := calls c ++ [ask; Fetch l; Pause 2;
                             ask; Fetch l; Pause 4;
                             ask; Fetch l] |},
     Ret false).
Proof.
  intros Ht Htok Hexp Hs Hl Hl' Hg Hx ask.
  assert (Hround : forall s,
             token s = token c -> _token_expiry s = _token_expiry c ->
             download_once subtitle output_path t s
             = (with_net (dropped (served (net s)))
                  (record (Fetch l) (record ask s)), Raise x)).
  { intros s Hst Hse.
    assert (Hb : bearer s = bearer c) by (unfold bearer; now rewrite Hst).
    unfold ask. rewrite <- Hb.
    apply (download_once_fetch_fails subtitle output_path t s served dropped a l x);
      try assumption.
    unfold token_valid. now rewrite Hst, Hse, Htok, Hexp. }
  unfold download, sync_wrapper. change (Z.to_nat 3) with 3%nat.
  cbv [try_except]. cbn [attempts].
  rewrite (Hround c eq_refl eq_refl), Hx.
  change (0 <? 3 - 1) with true. cbv iota.
  cbv [before_retry backoff_delay].
  rewrite Hround by reflexivity. rewrite Hx.
  change (0 + 1 <? 3 - 1) with true. cbv iota.
  rewrite Hround by reflexivity. rewrite Hx.
  change (0 + 1 + 1 <? 3 - 1) with false. cbv iota.
  rewrite isinstance_Exception. cbv [ret].
  cbv [with_net record]. cbn [net token _token_expiry calls].
  rewrite <- !app_assoc. reflexivity.
Qed.

End Client.

Import ClientScenario.

(** A 401 for a client that holds a token: one request, no new login. *)
Lemma http_error_not_reauthenticated_witness :
  status_of unauthorized = Some 401
  /\ _make_request clock login_ok (refusing unauthorized) status_of true
       "POST" "/download" None (Some (FileId (Some 7))) logged_in
     = ({| net := 1%nat; token := Some "tok"; _token_expiry := 82800;
           calls := [Request "POST"
                       "https://api.opensubtitles.com/api/v1/download"
                       (Some "tok")] |},
        Raise {| exn_cls := OpenSubtitlesError;
                 exn_msg := "Request failed: Request failed: "
                            +:+ exn_msg unauthorized |}).
Proof.
  split; [reflexivity|].
  refine (http_error_not_reauthenticated clock login_ok (refusing unauthorized)
            status_of true "POST" "/download" None (Some (FileId (Some 7)))
            logged_in logged_in (Some "tok") 1%nat unauthorized _ _ _ _).
  - reflexivity.
  - right; left; reflexivity.
  - intros; reflexivity.
  - reflexivity.
Defined.

(** The API is down when the link is asked for. *)
Lemma link_failure_not_retried_witness :
  download clock login_ok (refusing unavailable) get_ok write_ok status_of
    subtitle "/m/Heat.en.srt" (Some "tok") logged_in
  = ({| net := 1%nat; token := Some "tok"; _token_expiry := 82800;
        calls := [Request "POST"
                    "https://api.opensubtitles.com/api/v1/download"
                    (Some "tok")] |},
     Ret false).
Proof.
  refine (link_failure_not_retried clock login_ok (refusing unavailable)
            get_ok write_ok status_of subtitle "/m/Heat.en.srt" (Some "tok")
            logged_in _
            {| exn_cls := OpenSubtitlesError;
               exn_msg := "Request failed: Request failed: "
                          +:+ exn_msg unavailable |} _).
  reflexivity.
Defined.

(** The connection to the file server is lost each time. *)
Lemma fetch_failure_asks_link_again_witness :
  download clock login_ok linking get_lost write_ok status_of
    subtitle "/m/Heat.en.srt" (Some "tok") logged_in
  = ({| net := 6%nat; token := Some "tok"; _token_expiry := 82800;
        calls :=
          let ask := Request "POST"
                       "https://api.opensubtitles.com/api/v1/download"
                       (Some "tok") in
          [ask; Fetch "https://dl/1"; Pause 2;
           ask; Fetch "https://dl/1"; Pause 4;
           ask; Fetch "https://dl/1"] |},
     Ret false).
Proof.
  refine (fetch_failure_asks_link_again clock login_ok linking get_lost write_ok
            status_of subtitle "/m/Heat.en.srt" (Some "tok") logged_in S S
            {| data := None; link := Some "https://dl/1" |} "https://dl/1"
            connection_lost _ _ _ _ _ _ _ _).
  - reflexivity.
  - reflexivity.
  - intros e. reflexivity.
  - intros; reflexivity.
  - reflexivity.
  - reflexivity.
  - intros; reflexivity.
  - reflexivity.
Defined.

End ClientFacts.

(* ===================================================================== *)
(** * More facts: the strict validators and the lenient parsers *)
(* ===================================================================== *)

Module ValidatorFacts.
Import Exceptions PyStr PyStrFacts PyText PyTextFacts PathUtils Validators.
Import LanguageFacts.

(** ** Stripping, on strings *)

Lemma lstrip_s_list (s : string) :
  string_of_list_ascii (lstrip_list (list_ascii_of_string s)) = lstrip_s s.
Proof.
  induction s as [|c s IH]; simpl; [reflexivity|].
  destruct (is_space c); [exact IH|].
  simpl. now rewrite string_of_list_ascii_of_string.
Qed.

Lemma rstrip_s_list (l : list ascii) :
  string_of_list_ascii (rstrip_list l) = rstrip_s (string_of_list_ascii l).
Proof.
  induction l as [|c l IH]; simpl; [reflexivity|].
  rewrite <- IH. destruct (rstrip_list l); simpl; [|reflexivity].
  now destruct (is_space c).
Qed.

Lemma strip_s (s : string) : strip s = rstrip_s (lstrip_s s).
Proof. unfold strip. now rewrite rstrip_s_list, lstrip_s_list. Qed.

Lemma rstrip_s_idemp (s : string) : rstrip_s (rstrip_s s) = rstrip_s s.
Proof.
  induction s as [|c s IH]; simpl; [reflexivity|].
  destruct (rstrip_s s) as [|k ks] eqn:Hr.
  - destruct (is_space c) eqn:Hc; simpl; [reflexivity | now rewrite Hc].
  - cbn [rstrip_s]. cbn [rstrip_s] in IH. rewrite IH. reflexivity.
Qed.

Lemma strip_sides_commute (s : string) :
  rstrip_s (lstrip_s s) = lstrip_s (rstrip_s s).
Proof.
  induction s as [|c s IH]; simpl; [reflexivity|].
  destruct (is_space c) eqn:Hc.
  - rewrite IH. destruct (rstrip_s s) as [|k ks]; simpl; [reflexivity|].
    now rewrite Hc.
  - simpl. destruct (rstrip_s s) as [|k ks]; simpl; now rewrite Hc.
Qed.

Lemma space_not_colon (c : ascii) : is_space c = true -> Ascii.eqb c ":" = false.
Proof.
  destruct c as [[] [] [] [] [] [] [] []]; intros H;
    reflexivity || (vm_compute in H; discriminate).
Qed.

Lemma space_not_comma (c : ascii) : is_space c = true -> Ascii.eqb c "," = false.
Proof.
  destruct c as [[] [] [] [] [] [] [] []]; intros H;
    reflexivity || (vm_compute in H; discriminate).
Qed.

(** White space on the left of a text goes to the left of its first
    part. *)
Lemma partition_lstrip (s part0 part1 : string) :
  partition_first ":" (lstrip_s s) = Some (part0, part1) ->
  exists a, partition_first ":" s = Some (a, part1) /\ lstrip_s a = lstrip_s part0.
Proof.
  induction s as [|c s IH]; simpl; [discriminate|].
  destruct (is_space c) eqn:Hc.
  - intros H. destruct (IH H) as (a & Ha & Hl).
    rewrite (space_not_colon c Hc), Ha. exists (String c a).
    split; [reflexivity|]. simpl. now rewrite Hc.
  - intros H. exists part0. split; [exact H | reflexivity].
Qed.

(** White space on the right of a text goes to the right of its second
    part. *)
Lemma partition_rstrip (s part0 part1 : string) :
  partition_first ":" (rstrip_s s) = Some (part0, part1) ->
  exists b, partition_first ":" s = Some (part0, b) /\ rstrip_s b = rstrip_s part1.
Proof.
  revert part0. induction s as [|c s IH]; intros part0; simpl; [discriminate|].
  destruct (rstrip_s s) as [|k ks] eqn:Hr.
  - destruct (is_space c); simpl; [discriminate|].
    destruct (Ascii.eqb c ":"); [|discriminate].
    intros [= <- <-]. exists s. split; [reflexivity | exact Hr].
  - remember (String k ks) as kept eqn:Hk.
    cbn [partition_first]. destruct (Ascii.eqb c ":").
    + intros [= <- <-]. exists s. split; [reflexivity|].
      now rewrite <- Hr, rstrip_s_idemp.
    + destruct (partition_first ":" kept) as [[b0 b1]|] eqn:Hp;
        [|discriminate].
      intros [= <- <-]. destruct (IH b0 eq_refl) as (b & Hb & Hbr).
      rewrite Hb. now exists b.
Qed.

(** Stripping a text before it is split at the first colon changes
    nothing in the stripped parts. *)
Lemma partition_strip (s part0 part1 : string) :
  partition_first ":" (strip s) = Some (part0, part1) ->
  exists a b, partition_first ":" s = Some (a, b)
              /\ strip a = strip part0 /\ strip b = strip part1.
Proof.
  rewrite strip_s. intros H.
  destruct (partition_rstrip _ _ _ H) as (b & Hb & Hbr).
  destruct (partition_lstrip _ _ _ Hb) as (a & Ha & Hal).
  exists a, b. split; [exact Ha|]. rewrite !strip_s. split.
  - now rewrite Hal.
  - now rewrite !strip_sides_commute, Hbr.
Qed.

(** A text of white space only. *)
Lemma blank_spaces (s : string) :
  truthy (strip s) = false ->
  Forall (fun c => is_space c = true) (list_ascii_of_string s).
Proof.
  rewrite strip_s. induction s as [|c s IH]; simpl; [constructor|].
  destruct (is_space c) eqn:Hc.
  - intros H. constructor; [exact Hc | exact (IH H)].
  - simpl. destruct (rstrip_s s); simpl; rewrite ?Hc; discriminate.
Qed.

Lemma blank_lacks (c : ascii) (s : string) :
  is_space c = false -> truthy (strip s) = false -> lacks c s = true.
Proof.
  intros Hc Hs. apply lacks_list.
  eapply Forall_impl; [exact (blank_spaces s Hs)|].
  intros x Hx ->. congruence.
Qed.

Lemma partition_first_lacks (sep : ascii) (s : string) :
  lacks sep s = true -> partition_first sep s = None.
Proof.
  induction s as [|c s IH]; simpl; [reflexivity|].
  rewrite andb_true_iff, negb_true_iff. intros [-> Hs]. now rewrite IH.
Qed.

(** ** Path mappings *)

(** What the validator accepts of a piece, the parser reads the same. *)
Lemma check_mapping_add (mappings mappings' : dict string) (mapping : string) :
  check_mapping mappings mapping = Ret mappings' ->
  add_mapping mappings mapping = mappings'.
Proof.
  unfold check_mapping, add_mapping.
  destruct (truthy (strip mapping)) eqn:Ht; cbn [negb].
  - destruct (partition_first ":" (strip mapping)) as [[part0 part1]|] eqn:Hp;
      [|discriminate].
    destruct (partition_strip _ _ _ Hp) as (a & b & -> & -> & ->).
    destruct (negb (truthy (strip part0)) || negb (truthy (strip part1)));
      [discriminate|].
    now intros [= <-].
  - intros [= <-].
    now rewrite (partition_first_lacks ":" mapping
                   (blank_lacks ":" mapping eq_refl Ht)).
Qed.

Lemma check_mappings_fold (pieces : list string) (mappings result : dict string) :
  check_mappings pieces mappings = Ret result ->
  fold_left add_mapping pieces mappings = result.
Proof.
  revert mappings. induction pieces as [|p pieces IH]; intros mappings; simpl.
  - now intros [= <-].
  - destruct (check_mapping mappings p) as [m|e] eqn:Hc; [|discriminate].
    rewrite (check_mapping_add _ _ _ Hc). apply IH.
Qed.

(** X28.  The strict validator and the lenient parser of path mappings
    agree: whatever value [validate_path_mappings] accepts,
    [parse_path_mappings] reads as the same mappings -- but for the
    empty result, where the parser gives the default mappings. *)
Theorem validate_path_mappings_agrees (value : option string)
    (mappings : dict string) :
  validate_path_mappings value = Ret mappings ->
  parse_path_mappings value
  = match mappings with
    | [] => DEFAULT_PATH_MAPPINGS
    | _ => mappings
    end.
Proof.
  unfold validate_path_mappings, parse_path_mappings.
  destruct value as [v|]; [|now intros [= <-]].
  destruct (truthy v); cbn [negb]; [|now intros [= <-]].
  intros H. rewrite (check_mappings_fold _ _ _ H).
  now destruct mappings.
Qed.

(** Blanks around the pieces and an empty piece. *)
Lemma validate_path_mappings_agrees_witness :
  parse_path_mappings (Some " /media : /mnt/library ,, /data:/mnt/data")
  = [("/media", "/mnt/library"); ("/data", "/mnt/data")].
Proof.
  apply (validate_path_mappings_agrees
           (Some " /media : /mnt/library ,, /data:/mnt/data")
           [("/media", "/mnt/library"); ("/data", "/mnt/data")]).
  reflexivity.
Defined.

(** ** Language codes *)

Section LanguageList.
Variable VALID : list string.

Lemma keep_valid_step (languages : list string) (piece : string) :
  keep_valid VALID languages piece
  = (languages ++ match accepted VALID piece with
                  | Some c => [c]
                  | None => []
                  end)%list.
Proof.
  unfold keep_valid, accepted, validate_language_code.
  destruct (truthy (lower (strip piece))); cbn [negb andb];
    [|now rewrite app_nil_r].
  destruct (bool_decide (lower (strip piece) ∈ VALID)); cbn [negb];
    [reflexivity | now rewrite app_nil_r].
Qed.

Lemma keep_valid_accepted (pieces languages : list string) :
  fold_left (keep_valid VALID) pieces languages
  = (languages ++ omap (accepted VALID) pieces)%list.
Proof.
  revert languages. induction pieces as [|p pieces IH]; intros languages.
  - simpl. now rewrite app_nil_r.
  - cbn [fold_left]. rewrite IH, keep_valid_step.
    change (omap (accepted VALID) (p :: pieces))
      with (match accepted VALID p with
            | Some c => c :: omap (accepted VALID) pieces
            | None => omap (accepted VALID) pieces
            end).
    destruct (accepted VALID p); now rewrite <- app_assoc.
Qed.

(** X29.  The lenient parser of the language list keeps exactly the
    pieces the strict [validate_language_code] accepts, in their
    order and as it returns them; when there is none, it gives
    [["en"]].  A code the validator returns is accepted as it is. *)
Theorem parse_language_codes_keeps_valid (v : string) :
  parse_language_codes VALID (Some v)
  = match omap (accepted VALID) (split_on "," v) with
    | [] => ["en"]
    | languages => languages
    end
  /\ forall code c, validate_language_code VALID code = Ret c ->
                    validate_language_code VALID c = Ret c.
Proof.
  split.
  - unfold parse_language_codes. rewrite keep_valid_accepted. cbn [app].
    destruct (negb (truthy v) || negb (truthy (strip v))) eqn:Hb;
      [|reflexivity].
    assert (Hblank : truthy (strip v) = false).
    { destruct v; [reflexivity|]. cbn [truthy negb orb] in Hb.
      now apply negb_true_iff in Hb. }
    rewrite (split_on_lacks "," v (blank_lacks "," v eq_refl Hblank)).
    assert (Hno : accepted VALID v = None).
    { unfold accepted, validate_language_code.
      now rewrite truthy_lower, Hblank. }
    change (omap (accepted VALID) [v])
      with (match accepted VALID v with
            | Some c => [c]
            | None => []
            end).
    now rewrite Hno.
  - intros code c. unfold validate_language_code.
    destruct (truthy (lower (strip code))) eqn:Ht; cbn [negb]; [|discriminate].
    destruct (bool_decide (lower (strip code) ∈ VALID)) eqn:Hin;
      cbn [negb]; [|discriminate].
    intros [= <-].
    rewrite <- (strip_lower (lower (strip code))), lower_idemp.
    rewrite strip_lower, strip_idemp, Ht, Hin. reflexivity.
Qed.

End LanguageList.

End ValidatorFacts.
